(** * umongo: the field/schema codec and validation engine

    A shallow embedding of [umongo/fields.py], [umongo/abstract.py] and
    [umongo/schema.py], with the properties of the codec stated over it.

    Python objects are modelled by explicit data: exceptions are values of
    [exn], a call that may raise returns a [result], dictionaries that the
    code mutates live in a heap and are passed by location. *)

From stdpp Require Import gmap strings list fin_maps.
From Stdlib Require Import ZArith Lia Bool.

Local Open Scope Z_scope.

Set Warnings "-register-all".

(** ** Dates and times ([datetime] of the standard library) *)

Module Calendar.

Record date := mkdate { year : Z; month : Z; day : Z }.

(** A [datetime]: a date, a time of day and an optional fixed UTC offset
    in seconds ([None] for a naive value). *)
Record datetime := mkdatetime {
  date_of : date;
  hour : Z;
  minute : Z;
  second : Z;
  microsecond : Z;
  tzinfo : option Z
}.

Definition MINYEAR : Z := 1.
Definition MAXYEAR : Z := 9999.

Definition is_leap (y : Z) : bool :=
  (y mod 4 =? 0) && (negb (y mod 100 =? 0) || (y mod 400 =? 0)).

Definition days_in_month (y m : Z) : Z :=
  if m =? 2 then (if is_leap y then 29 else 28)
  else if (m =? 4) || (m =? 6) || (m =? 9) || (m =? 11) then 30
  else 31.

Definition days_before_year (y : Z) : Z :=
  let p := y - 1 in p * 365 + p / 4 - p / 100 + p / 400.

Definition days_before_month (y m : Z) : Z :=
  (if m =? 1 then 0 else if m =? 2 then 31 else if m =? 3 then 59
   else if m =? 4 then 90 else if m =? 5 then 120 else if m =? 6 then 151
   else if m =? 7 then 181 else if m =? 8 then 212 else if m =? 9 then 243
   else if m =? 10 then 273 else if m =? 11 then 304 else 334)
  + (if (2 <? m) && is_leap y then 1 else 0).

(** [date.toordinal()]: 0001-01-01 is day 1. *)
Definition toordinal (d : date) : Z :=
  days_before_year (year d) + days_before_month (year d) (month d) + day d.

Definition valid_date (d : date) : bool :=
  (MINYEAR <=? year d) && (year d <=? MAXYEAR) &&
  (1 <=? month d) && (month d <=? 12) &&
  (1 <=? day d) && (day d <=? days_in_month (year d) (month d)).

Definition valid_offset (tz : option Z) : bool :=
  match tz with
  | None => true
  | Some off => (-86400 <? off) && (off <? 86400)
  end.

Definition valid_datetime (v : datetime) : bool :=
  valid_date (date_of v) &&
  (0 <=? hour v) && (hour v <? 24) &&
  (0 <=? minute v) && (minute v <? 60) &&
  (0 <=? second v) && (second v <? 60) &&
  (0 <=? microsecond v) && (microsecond v <? 1000000) &&
  valid_offset (tzinfo v).

(** Whole seconds between 0001-01-01T00:00:00 and the wall-clock reading
    of [v]. *)
Definition seconds_of (v : datetime) : Z :=
  (toordinal (date_of v) - 1) * 86400 + hour v * 3600 + minute v * 60 + second v.

(** The day after [d]; [None] past 9999-12-31. *)
Definition next_day (d : date) : option date :=
  if day d <? days_in_month (year d) (month d)
  then Some (mkdate (year d) (month d) (day d + 1))
  else if month d <? 12
  then Some (mkdate (year d) (month d + 1) 1)
  else if year d <? MAXYEAR
  then Some (mkdate (year d + 1) 1 1)
  else None.

(** The day before [d]; [None] before 0001-01-01. *)
Definition prev_day (d : date) : option date :=
  if 1 <? day d
  then Some (mkdate (year d) (month d) (day d - 1))
  else if 1 <? month d
  then Some (mkdate (year d) (month d - 1) (days_in_month (year d) (month d - 1)))
  else if MINYEAR <? year d
  then Some (mkdate (year d - 1) 12 31)
  else None.

(** [n] days after [d], and [n] days before it; [None] out of range. *)
Fixpoint days_later (n : nat) (d : date) : option date :=
  match n with
  | O => Some d
  | S n' => match next_day d with Some d' => days_later n' d' | None => None end
  end.

Fixpoint days_earlier (n : nat) (d : date) : option date :=
  match n with
  | O => Some d
  | S n' => match prev_day d with Some d' => days_earlier n' d' | None => None end
  end.

(** [date.fromordinal(d.toordinal() + n)]. *)
Definition shift_days (d : date) (n : Z) : option date :=
  if 0 <=? n then days_later (Z.to_nat n) d else days_earlier (Z.to_nat (- n)) d.

(** [datetime.replace(microsecond=us)]. *)
Definition replace_microsecond (v : datetime) (us : Z) : datetime :=
  mkdatetime (date_of v) (hour v) (minute v) (second v) us (tzinfo v).

(** [datetime.replace(tzinfo=tz)]. *)
Definition replace_tzinfo (v : datetime) (tz : option Z) : datetime :=
  mkdatetime (date_of v) (hour v) (minute v) (second v) (microsecond v) tz.

(** The last representable second, 9999-12-31T23:59:59. *)
Definition last_second (v : datetime) : bool :=
  (year (date_of v) =? MAXYEAR) && (month (date_of v) =? 12) &&
  (day (date_of v) =? 31) &&
  (hour v =? 23) && (minute v =? 59) && (second v =? 59).

(** Microseconds between 0001-01-01T00:00:00 UTC and the instant an aware
    value denotes. *)
Definition instant_of (v : datetime) (off : Z) : Z :=
  (seconds_of v - off) * 1000000 + microsecond v.

(** [a == b] on dates. *)
Definition date_eqb (a b : date) : bool :=
  (year a =? year b) && (month a =? month b) && (day a =? day b).

(** [a == b] on datetimes: two naive values compare field by field, two
    aware values compare as instants, and a naive value never equals an
    aware one. *)
Definition datetime_eqb (a b : datetime) : bool :=
  match tzinfo a, tzinfo b with
  | None, None =>
      date_eqb (date_of a) (date_of b) &&
      (hour a =? hour b) && (minute a =? minute b) &&
      (second a =? second b) && (microsecond a =? microsecond b)
  | Some oa, Some ob => instant_of a oa =? instant_of b ob
  | _, _ => false
  end.

End Calendar.

(** ** Python values, exceptions and the heap of dictionaries *)

Module Py.

Definition loc := positive.

(** A class, as far as [isinstance] and [__name__] see it: its name and
    the names of its proper ancestors. *)
Record pyclass := mkclass { cls_name : string; cls_bases : list string }.

(** A document implementation class with the collection it is stored in. *)
Record DocCls := mkDocCls { doc_class : pyclass; collection_name : string }.

(** An embedded document implementation class; [offspring] holds the
    names of the classes [opts.offspring] contains. *)
Record EmbCls := mkEmbCls { emb_class : pyclass; offspring : list string }.

(** A 12-byte [bson.ObjectId], as the number its bytes spell. *)
Record oid := mkoid { binary : N }.

#[export] Instance pyclass_eq_dec : EqDecision pyclass.
Proof. solve_decision. Defined.
#[export] Instance DocCls_eq_dec : EqDecision DocCls.
Proof. solve_decision. Defined.
#[export] Instance EmbCls_eq_dec : EqDecision EmbCls.
Proof. solve_decision. Defined.
#[export] Instance oid_eq_dec : EqDecision oid.
Proof. solve_decision. Defined.

Inductive pyval :=
  | PNone
  | PMissing
  | PBool (b : bool)
  | PInt (n : Z)
  | PStr (s : string)
  | PObjectId (o : oid)
  | PDBRef (collection : string) (id : pyval)
  | PReference (cls : pyclass) (document_cls : DocCls) (pk : pyval)
  | PDocument (cls : DocCls) (is_created : bool) (pk : pyval)
  | PEmbedded (cls : EmbCls) (data : loc)
  | PDict (l : loc).

(** One message of a [ValidationError]: a literal, or a template with the
    value [str.format] puts in its placeholder. Templates are the
    catalogue keys handed to [gettext]. *)
Inductive message :=
  | Msg (text : string)
  | MsgFormat (template : string) (arg : pyval).

(** [ValidationError.messages]: a list of messages, or an error map keyed
    by list index or by name. *)
Inductive messages :=
  | MList (l : list message)
  | MIndexed (d : gmap nat messages)
  | MKeyed (d : gmap string messages).

Inductive exn :=
  | ValidationError (m : messages)
  | NotRegisteredDocumentError (text : string)
  | ValueError
  | TypeError
  | KeyError (key : string)
  | AttributeError
  | OverflowError
  | InvalidId
  | Inexact
  | Overflow
  | InvalidOperation.

(** [ValidationError(message)] with a [str]: marshmallow stores the
    one-element list. *)
Definition ValidationError_str (m : message) : exn := ValidationError (MList [m]).

(** [except ValueError]: of the classes above only [ValueError] itself is
    one; [bson.errors.InvalidId] derives from [BSONError], a direct
    subclass of [Exception]. *)
Definition is_ValueError (e : exn) : bool :=
  match e with ValueError => true | _ => false end.

Definition is_ValidationError (e : exn) : bool :=
  match e with ValidationError _ => true | _ => false end.

Definition is_NotRegisteredDocumentError (e : exn) : bool :=
  match e with NotRegisteredDocumentError _ => true | _ => false end.

Inductive result (A : Type) : Type :=
  | Ok (a : A)
  | Raise (e : exn).

Arguments Ok {A} a.
Arguments Raise {A} e.

Definition bind {A B} (r : result A) (k : A -> result B) : result B :=
  match r with
  | Ok a => k a
  | Raise e => Raise e
  end.

Definition raises_ValidationError {A} (r : result A) : bool :=
  match r with Ok _ => false | Raise e => is_ValidationError e end.

(** What a field's slot of a document holds: [None], marshmallow's
    [missing], or a value. *)
Inductive slot (A : Type) : Type :=
  | PyNone
  | Missing
  | Val (a : A).

Arguments PyNone {A}.
Arguments Missing {A}.
Arguments Val {A} a.

(** The heap: every [dict] (and the data of every embedded instance) the
    code can reach, by location. *)
Abbreviation heap := (gmap loc (gmap string pyval)).

(** [isinstance(obj, C)] for an object of class [c]. *)
Definition issubclass (c C : pyclass) : bool :=
  bool_decide (cls_name C ∈ cls_name c :: cls_bases c).

(** [name == v] for a [str] on the left. *)
Definition str_eq (name : string) (v : pyval) : bool :=
  match v with
  | PStr s => bool_decide (name = s)
  | _ => false
  end.

End Py.

Import Py.

Notation "'let*' x ':=' r 'in' k" := (Py.bind r (fun x => k))
  (at level 10, x name, r at level 200, k at level 200, only parsing).

(** ** [fields.py]: rounding of date/time values *)

Module DateTime.
Import Calendar.

(** [v + dt.timedelta(seconds=1)]: the wall clock advances by one second,
    the offset is kept, and a result past 9999-12-31T23:59:59 raises
    [OverflowError]. *)
Definition add_one_second (v : datetime) : result datetime :=
  if second v <? 59
  then Ok (mkdatetime (date_of v) (hour v) (minute v) (second v + 1)
             (microsecond v) (tzinfo v))
  else if minute v <? 59
  then Ok (mkdatetime (date_of v) (hour v) (minute v + 1) 0
             (microsecond v) (tzinfo v))
  else if hour v <? 23
  then Ok (mkdatetime (date_of v) (hour v + 1) 0 0 (microsecond v) (tzinfo v))
  else match next_day (date_of v) with
       | Some d => Ok (mkdatetime d 0 0 0 (microsecond v) (tzinfo v))
       | None => Raise OverflowError
       end.

(** [round(us, -3)] on an [int]: the nearest multiple of 1000, a tie going
    to the even multiple. *)
Definition round_thousands (us : Z) : Z :=
  let q := us / 1000 in
  let r := us mod 1000 in
  if r <? 500 then q * 1000
  else if 500 <? r then (q + 1) * 1000
  else if Z.even q then q * 1000 else (q + 1) * 1000.

(** [_round_to_millisecond(datetime)]. *)
Definition _round_to_millisecond (value : datetime) : result datetime :=
  let microseconds := round_thousands (microsecond value) in
  if microseconds =? 1000000
  then add_one_second (replace_microsecond value 0)
  else Ok (replace_microsecond value microseconds).

(** The date/time fields' object-world [_deserialize]
    ([DateTimeField], [NaiveDateTimeField], [AwareDateTimeField]): a
    [datetime] is taken as it is, anything else goes through
    marshmallow's parser ([super()._deserialize], a parameter here); the
    result is rounded. *)
Section Deserialize.
Context {Raw : Type} (super_deserialize : Raw -> result datetime).

Definition DateTimeField_deserialize (value : datetime + Raw)
  : result datetime :=
  let* ret := match value with
              | inl v => Ok v
              | inr raw => super_deserialize raw
              end in
  _round_to_millisecond ret.
End Deserialize.

(** Values the properties below are evaluated on. *)
Definition noon_999700 : datetime :=
  mkdatetime (mkdate 2021 3 14) 12 0 0 999700 None.

Definition last_second_999700 : datetime :=
  mkdatetime (mkdate 9999 12 31) 23 59 59 999700 None.

Definition datetime_max : datetime :=
  mkdatetime (mkdate 9999 12 31) 23 59 59 999999 None.

Definition new_year_eve : datetime :=
  mkdatetime (mkdate 2020 12 31) 23 59 59 999500 (Some 3600).

Definition noon_utc_999700 : datetime :=
  mkdatetime (mkdate 2021 3 14) 12 0 0 999700 (Some 0).

End DateTime.

(** ** [decimal.Decimal] and [bson.Decimal128] *)

Module Decimals.

(** A finite [decimal.Decimal], as [as_tuple()] shows it: the value is
    [(-1)^sign * coefficient * 10^exponent]. *)
Record Decimal := mkDecimal { sign : bool; coefficient : Z; exponent : Z }.

(** A finite [bson.Decimal128], as the three fields its 128 bits pack. *)
Record Decimal128 := mkDecimal128 {
  d128_sign : bool;
  significand : Z;
  biased_exponent : Z
}.

Definition _EXPONENT_BIAS : Z := 6176.
Definition _EXPONENT_MAX : Z := 6144.
Definition _EXPONENT_MIN : Z := -6143.
Definition _MAX_DIGITS : Z := 34.

(** [Context.Etiny()] and [Context.Etop()] of [_DEC128_CTX]. *)
Definition Etiny : Z := _EXPONENT_MIN - _MAX_DIGITS + 1.
Definition Etop : Z := _EXPONENT_MAX - _MAX_DIGITS + 1.

Fixpoint count_digits (fuel : nat) (c : Z) : Z :=
  match fuel with
  | O => 1
  | S fuel' => if c <? 10 then 1 else 1 + count_digits fuel' (c / 10)
  end.

(** [len(str(c))] for [c >= 0]. *)
Definition ndigits (c : Z) : Z := count_digits (Z.to_nat (Z.log2 c)) c.

(** [Decimal._fix(context)] under [_DEC128_CTX] on a finite value:
    precision 34, rounding half to even, exponent range [Emin, Emax],
    clamp 1, with [Inexact] and [Overflow] trapped. A zero has its
    exponent clamped. A value whose digits do not fit is rounded: when
    the digits dropped are all zeros the result is returned; when they
    are not, the rounding is inexact and raises, [Overflow] if the
    carry of a rounding up pushes the exponent past [Etop], [Inexact]
    otherwise. A value above [Etop] with room for zeros is padded. *)
Definition create_decimal (value : Decimal) : result Decimal :=
  let c := coefficient value in
  let e := exponent value in
  if c =? 0 then Ok (mkDecimal (sign value) 0 (Z.min (Z.max e Etiny) Etop))
  else
    let exp_min0 := ndigits c + e - _MAX_DIGITS in
    if Etop <? exp_min0 then Raise Overflow
    else
      let exp_min := Z.max exp_min0 Etiny in
      if e <? exp_min
      then
        let coeff := c / 10 ^ (exp_min - e) in
        let rest := c mod 10 ^ (exp_min - e) in
        if rest =? 0
        then Ok (mkDecimal (sign value) coeff exp_min)
        else
          let changed_up :=
            (10 ^ (exp_min - e) <? 2 * rest)
            || ((2 * rest =? 10 ^ (exp_min - e)) && Z.odd coeff) in
          if changed_up && (_MAX_DIGITS <? ndigits (coeff + 1))
             && (Etop <? exp_min + 1)
          then Raise Overflow
          else Raise Inexact
      else if Etop <? e
      then Ok (mkDecimal (sign value) (c * 10 ^ (e - Etop)) Etop)
      else Ok value.

(** Every [decimal.Decimal]: a finite value, an infinity, or a NaN,
    quiet or signaling, with its payload ([0] when it has no digits). *)
Inductive decimal :=
  | Finite (d : Decimal)
  | Infinity (sign : bool)
  | NaN (sign : bool) (signaling : bool) (payload : Z).

(** Every value a [bson.Decimal128] denotes. *)
Inductive decimal128 :=
  | Finite128 (x : Decimal128)
  | Infinity128 (sign : bool)
  | NaN128 (sign : bool) (signaling : bool).

(** [_DEC128_CTX.create_decimal(value)]: a NaN whose payload has more
    than [prec - clamp] digits is a conversion error, which signals
    [InvalidOperation]; another NaN and an infinity are returned as
    they are. *)
Definition Context_create_decimal (value : decimal) : result decimal :=
  match value with
  | Finite d => let* d := create_decimal d in Ok (Finite d)
  | Infinity s => Ok (Infinity s)
  | NaN s signaling payload =>
      if (payload =? 0) || (ndigits payload <=? _MAX_DIGITS - 1)
      then Ok value
      else Raise InvalidOperation
  end.

(** [Decimal128(value)] for a [Decimal]: [_decimal_to_128]. *)
Definition _decimal_to_128 (value : decimal) : result decimal128 :=
  let* value := Context_create_decimal value in
  match value with
  | Infinity s => Ok (Infinity128 s)
  | NaN s signaling payload =>
      if payload =? 0 then Ok (NaN128 s signaling) else Raise ValueError
  | Finite d =>
      Ok (Finite128 (mkDecimal128 (sign d) (coefficient d)
                       (exponent d + _EXPONENT_BIAS)))
  end.

(** [Decimal128.to_decimal()]. *)
Definition to_decimal (self : decimal128) : result decimal :=
  match self with
  | NaN128 s signaling => Ok (NaN s signaling 0)
  | Infinity128 s => Ok (Infinity s)
  | Finite128 x =>
      let* d := create_decimal (mkDecimal (d128_sign x) (significand x)
                                  (biased_exponent x - _EXPONENT_BIAS)) in
      Ok (Finite d)
  end.

Definition signed (d : Decimal) : Z :=
  if sign d then - coefficient d else coefficient d.

(** [a == b] on finite decimals: numerical equality. *)
Definition Decimal_eqb (a b : Decimal) : bool :=
  let m := Z.min (exponent a) (exponent b) in
  signed a * 10 ^ (exponent a - m) =? signed b * 10 ^ (exponent b - m).

(** [a == b] on decimals, under the default context: a quiet NaN equals
    nothing, itself included; a signaling NaN signals
    [InvalidOperation], which that context traps; an infinity equals
    the infinity of its sign. *)
Definition decimal_eq (a b : decimal) : result bool :=
  match a, b with
  | NaN _ true _, _ | _, NaN _ true _ => Raise InvalidOperation
  | NaN _ false _, _ | _, NaN _ false _ => Ok false
  | Infinity s, Infinity s' => Ok (Bool.eqb s s')
  | Finite x, Finite y => Ok (Decimal_eqb x y)
  | _, _ => Ok false
  end.

(** A value [Decimal128] holds as it is: at most 34 digits, the exponent
    between [Etiny] and [Etop]. *)
Definition canonical (d : Decimal) : Prop :=
  0 <= coefficient d < 10 ^ _MAX_DIGITS /\ Etiny <= exponent d <= Etop.

(** The finite decimals the 128-bit format holds exactly, as the
    amended claim words it: zero; or a value below [10^6145] whose
    coefficient has at most 34 digits once its trailing zeros are
    dropped, and whose exponent is at least [-6176] once they are
    counted in. *)
Definition fits (d : Decimal) : bool :=
  let c := coefficient d in
  let e := exponent d in
  let n := ndigits c in
  (c =? 0)
  || ((n + e <=? _EXPONENT_MAX + 1)
      && (c mod 10 ^ Z.max 0 (n - _MAX_DIGITS) =? 0)
      && (c mod 10 ^ Z.max 0 (Etiny - e) =? 0)).

(** The finite decimals whose magnitude, rounded to 34 digits, is
    [10^6145] or more. *)
Definition overflows (d : Decimal) : bool :=
  let c := coefficient d in
  let e := exponent d in
  let n := ndigits c in
  (_EXPONENT_MAX + 1 <? n + e)
  || ((n + e =? _EXPONENT_MAX + 1)
      && (2 * 10 ^ n - 10 ^ (n - _MAX_DIGITS) <=? 2 * c)).

End Decimals.

(** ** [abstract.py] and [fields.py]: the storage codec of scalar fields *)

Module Scalar.
Import Calendar Decimals.

(** The two methods a field class may override, with the flag
    [BaseField] reads: [A] is the type of the in-memory values, [B] of
    the stored ones. *)
Class Codec (F A B : Type) := {
  allow_none : F -> bool;
  _serialize_to_mongo : F -> slot A -> result (slot B);
  _deserialize_from_mongo : F -> slot B -> result (slot A)
}.

(** [BaseField.serialize_to_mongo]. *)
Definition serialize_to_mongo {F A B} `{Codec F A B} (self : F) (obj : slot A)
  : result (slot B) :=
  match obj with
  | PyNone => if allow_none self then Ok PyNone else _serialize_to_mongo self obj
  | Missing => Ok Missing
  | Val _ => _serialize_to_mongo self obj
  end.

(** [BaseField.deserialize_from_mongo]. *)
Definition deserialize_from_mongo {F A B} `{Codec F A B} (self : F) (value : slot B)
  : result (slot A) :=
  match value with
  | PyNone => if allow_none self then Ok PyNone else _deserialize_from_mongo self value
  | _ => _deserialize_from_mongo self value
  end.

(** The classes that inherit both methods from [BaseField]. *)
Inductive passthrough :=
  | StringField | UUIDField | NumberField | IntegerField | BooleanField
  | FloatField | DateTimeField | NaiveDateTimeField | UrlField | EmailField
  | ConstantField | ObjectIdField.

Record BaseField := mkBaseField { field_class : passthrough; bf_allow_none : bool }.

#[export] Instance BaseField_codec {A} : Codec BaseField A A := {|
  allow_none := bf_allow_none;
  _serialize_to_mongo _ obj := Ok obj;
  _deserialize_from_mongo _ value := Ok value
|}.

Record DecimalField := mkDecimalField { dec_allow_none : bool }.

#[export] Instance DecimalField_codec : Codec DecimalField decimal decimal128 := {|
  allow_none := dec_allow_none;
  _serialize_to_mongo _ obj :=
    match obj with
    | Val d => let* x := _decimal_to_128 d in Ok (Val x)
    | _ => Raise TypeError
    end;
  _deserialize_from_mongo _ value :=
    match value with
    | Val x => let* d := to_decimal x in Ok (Val d)
    | _ => Raise AttributeError
    end
|}.

(** What [isinstance(value, dt.date)] lets through: [datetime] is a
    subclass of [date]. *)
Inductive date_value :=
  | ADate (d : date)
  | ADateTime (t : datetime).

Definition date_part (v : date_value) : date :=
  match v with
  | ADate d => d
  | ADateTime t => date_of t
  end.

(** [a == b]: a [date] and a [datetime] are never equal. *)
Definition date_value_eqb (a b : date_value) : bool :=
  match a, b with
  | ADate x, ADate y => date_eqb x y
  | ADateTime x, ADateTime y => datetime_eqb x y
  | _, _ => false
  end.

Record DateField := mkDateField { date_allow_none : bool }.

#[export] Instance DateField_codec : Codec DateField date_value datetime := {|
  allow_none := date_allow_none;
  _serialize_to_mongo _ obj :=
    match obj with
    | Val v =>
        let d := date_part v in
        Ok (Val (mkdatetime (mkdate (year d) (month d) (day d)) 0 0 0 0 None))
    | _ => Raise AttributeError
    end;
  _deserialize_from_mongo _ value :=
    match value with
    | Val t => Ok (Val (ADate (date_of t)))
    | _ => Raise AttributeError
    end
|}.

(** [t + dt.timedelta(seconds=delta)]: the wall clock moves by [delta]
    seconds, the offset is kept. *)
Definition shift_seconds (t : datetime) (delta : Z) : result datetime :=
  let s := hour t * 3600 + minute t * 60 + second t + delta in
  match shift_days (date_of t) (s / 86400) with
  | Some d =>
      let r := s mod 86400 in
      Ok (mkdatetime d (r / 3600) (r mod 3600 / 60) (r mod 60)
            (microsecond t) (tzinfo t))
  | None => Raise OverflowError
  end.

(** [t.astimezone(tz)] for a [t] whose offset is [off] and a fixed-offset
    [tz]: [(t - off).replace(tzinfo=tz)], then [tz.fromutc]. *)
Definition astimezone (off : Z) (t : datetime) (tz : Z) : result datetime :=
  let* utc := shift_seconds t (- off) in
  shift_seconds (replace_tzinfo utc (Some tz)) tz.

Record AwareDateTimeField := mkAwareDateTimeField {
  aware_allow_none : bool;
  default_timezone : option Z
}.

#[export] Instance AwareDateTimeField_codec
  : Codec AwareDateTimeField datetime datetime := {|
  allow_none := aware_allow_none;
  _serialize_to_mongo _ obj := Ok obj;
  _deserialize_from_mongo self value :=
    match value with
    | Val v =>
        let value := replace_tzinfo v (Some 0) in
        match default_timezone self with
        | Some tz => let* value := astimezone 0 value tz in Ok (Val value)
        | None => Ok (Val value)
        end
    | _ => Raise AttributeError
    end
|}.

(** The storage round trip [decode(encode(v))]. *)
Definition round_trip {F A B} `{Codec F A B} (self : F) (v : slot A)
  : result (slot A) :=
  let* stored := serialize_to_mongo self v in
  deserialize_from_mongo self stored.

(** Values the properties below are evaluated on. *)
Definition noon_plus_two : datetime :=
  mkdatetime (mkdate 2021 3 14) 12 0 0 0 (Some 7200).
Definition noon_utc : datetime :=
  mkdatetime (mkdate 2021 3 14) 12 0 0 0 (Some 0).
Definition half_past_noon : datetime :=
  mkdatetime (mkdate 2021 3 14) 12 30 0 0 None.
Definition pi_day : date := mkdate 2021 3 14.
Definition aware_field : AwareDateTimeField := mkAwareDateTimeField false None.
Definition aware_field_plus_one : AwareDateTimeField :=
  mkAwareDateTimeField false (Some 3600).
Definition one_and_a_half : Decimal := mkDecimal false 15 (-1).
Definition thirty_five_digits : Decimal :=
  mkDecimal false 12345678901234567890123456789012345 0.
Definition thirty_five_nines : Decimal :=
  mkDecimal false 99999999999999999999999999999999999 6110.
Definition ten_to_the_34 : Decimal := mkDecimal false (10 ^ 34) 0.

End Scalar.

(** ** [bson.ObjectId] *)

Module Bson.

Definition hex_digit (c : Ascii.ascii) : option N :=
  let n := Ascii.N_of_ascii c in
  if (48 <=? n)%N && (n <=? 57)%N then Some (n - 48)%N
  else if (97 <=? n)%N && (n <=? 102)%N then Some (n - 87)%N
  else if (65 <=? n)%N && (n <=? 70)%N then Some (n - 55)%N
  else None.

Definition is_ascii_space (c : Ascii.ascii) : bool :=
  let n := Ascii.N_of_ascii c in
  (n =? 32)%N || ((9 <=? n)%N && (n <=? 13)%N).

(** [bytes.fromhex]: two hexadecimal digits per byte, white space between
    bytes skipped. *)
Fixpoint fromhex (s : string) : option (list N) :=
  match s with
  | EmptyString => Some []
  | String c rest =>
      if is_ascii_space c then fromhex rest
      else match rest with
           | String c' rest' =>
               match hex_digit c, hex_digit c', fromhex rest' with
               | Some hi, Some lo, Some bytes => Some ((16 * hi + lo)%N :: bytes)
               | _, _, _ => None
               end
           | EmptyString => None
           end
  end.

Definition from_bytes (bytes : list N) : N :=
  fold_left (fun acc b => (256 * acc + b)%N) bytes 0%N.

(** [ObjectId(oid)]: [None] generates a new identifier ([generated]
    stands for the one it would produce), an [ObjectId] is copied, a
    24-character hexadecimal string is parsed; another string raises
    [InvalidId], another type [TypeError]. *)
Definition ObjectId (generated : oid) (value : pyval) : result oid :=
  match value with
  | PNone => Ok generated
  | PObjectId o => Ok o
  | PStr s =>
      if (String.length s =? 24)%nat
      then match fromhex s with
           | Some bytes => Ok (mkoid (from_bytes bytes))
           | None => Raise InvalidId
           end
      else Raise InvalidId
  | _ => Raise TypeError
  end.

(** The digit [binascii.hexlify] writes for a value below 16. *)
Definition hex_char (n : N) : Ascii.ascii :=
  if (n <? 10)%N then Ascii.ascii_of_N (48 + n) else Ascii.ascii_of_N (87 + n).

(** [binascii.hexlify(bytes).decode()]: two lowercase digits per byte. *)
Fixpoint hexlify (bytes : list N) : string :=
  match bytes with
  | [] => EmptyString
  | b :: rest =>
      String (hex_char (b / 16)) (String (hex_char (b mod 16)) (hexlify rest))
  end.

(** The [n] bytes of [x], most significant first: the inverse of
    [from_bytes]. *)
Fixpoint to_bytes (n : nat) (x : N) : list N :=
  match n with
  | O => []
  | S n' => to_bytes n' (x / 256) ++ [(x mod 256)%N]
  end.

(** [str(oid)], [ObjectId.__str__]: the 12 bytes of the identifier in
    hexadecimal. *)
Definition ObjectId_str (o : oid) : string := hexlify (to_bytes 12 (binary o)).

End Bson.

(** ** [fields.py]: reference fields *)

Module References.
Import Bson.

(** [BaseField.serialize_to_mongo] over Python values, with the method a
    subclass overrides as an argument. *)
Definition serialize_to_mongo (allow_none : bool)
    (_serialize_to_mongo : pyval -> result pyval) (obj : pyval) : result pyval :=
  match obj with
  | PNone => if allow_none then Ok PNone else _serialize_to_mongo obj
  | PMissing => Ok PMissing
  | _ => _serialize_to_mongo obj
  end.

(** [obj.pk]. *)
Definition pk_of (obj : pyval) : result pyval :=
  match obj with
  | PReference _ _ pk => Ok pk
  | PDocument _ _ pk => Ok pk
  | _ => Raise AttributeError
  end.

Definition msg_not_created : message :=
  Msg "Cannot reference a document that has not been created yet.".
Definition msg_reference_expected (name : string) : message :=
  MsgFormat "`{document}` reference expected." (PStr name).
Definition msg_unknown_document (document : pyval) : message :=
  MsgFormat "Unknown document `{document}`." document.
Definition msg_generic_keys : message :=
  Msg "Generic reference must have `id` and `cls` fields.".
Definition msg_invalid_id : message := Msg "Invalid `id` field.".
Definition msg_invalid_generic : message :=
  Msg "Invalid value for generic reference field.".

Section Registry.
(** The registry's [instance.retrieve_document]. *)
Variable retrieve_document : pyval -> result DocCls.

(** *** [ReferenceField] *)

Record ReferenceField := mkReferenceField {
  ref_allow_none : bool;
  document : pyval;
  _document_cls : option DocCls;
  ref_reference_cls : pyclass
}.

Definition set_document_cls (self : ReferenceField) (c : DocCls) : ReferenceField :=
  mkReferenceField (ref_allow_none self) (document self) (Some c)
    (ref_reference_cls self).

(** The [document_cls] property: resolved on first use, then cached. *)
Definition document_cls (self : ReferenceField) : ReferenceField * result DocCls :=
  match _document_cls self with
  | Some c => (self, Ok c)
  | None =>
      match retrieve_document (document self) with
      | Ok c => (set_document_cls self c, Ok c)
      | Raise e => (self, Raise e)
      end
  end.

(** [super()._deserialize] of [marshmallow_bonus.Reference]. *)
Variable super_deserialize : pyval -> result pyval.

(** The tail of [ReferenceField._deserialize]: the parent's parse, then
    [self.reference_cls(self.document_cls, value)]. *)
Definition wrap_reference (self : ReferenceField) (value : pyval)
  : ReferenceField * result pyval :=
  match super_deserialize value with
  | Raise e => (self, Raise e)
  | Ok value =>
      let '(self, r) := document_cls self in
      (self, let* dc := r in Ok (PReference (ref_reference_cls self) dc value))
  end.

(** [ReferenceField._deserialize]; the field is returned with its cache
    as the call leaves it. *)
Definition ReferenceField_deserialize (self : ReferenceField) (value : pyval)
  : ReferenceField * result pyval :=
  match value with
  | PNone => (self, Ok PNone)
  | PDBRef collection id =>
      match _document_cls self with
      | None => (self, Raise AttributeError)
      | Some c =>
          if negb (bool_decide (collection_name c = collection))
          then (self, Raise (KeyError "collection"))
          else wrap_reference self id
      end
  | PReference cls dcls pk =>
      let '(self, r) := document_cls self in
      (self,
       let* dc := r in
       if negb (bool_decide (dcls = dc))
       then Raise (ValidationError_str
                     (msg_reference_expected (cls_name (doc_class dc))))
       else if negb (issubclass cls (ref_reference_cls self))
       then Ok (PReference (ref_reference_cls self) dcls pk)
       else Ok value)
  | _ =>
      let '(self, r) := document_cls self in
      match r with
      | Raise e => (self, Raise e)
      | Ok dc =>
          match value with
          | PDocument cls is_created pk =>
              if issubclass (doc_class cls) (doc_class dc)
              then if negb is_created
                   then (self, Raise (ValidationError_str msg_not_created))
                   else wrap_reference self pk
              else (self, Raise (ValidationError_str
                                   (msg_reference_expected (cls_name (doc_class dc)))))
          | _ => wrap_reference self value
          end
      end
  end.

(** [ReferenceField._serialize_to_mongo]. *)
Definition ReferenceField_serialize_to_mongo (self : ReferenceField) (obj : pyval)
  : result pyval :=
  serialize_to_mongo (ref_allow_none self) pk_of obj.

(** *** [GenericReferenceField] *)

Record GenericReferenceField := mkGenericReferenceField {
  gref_allow_none : bool;
  reference_cls : pyclass
}.

(** [GenericReferenceField._document_cls]. *)
Definition GenericReferenceField_document_cls (class_name : pyval) : result DocCls :=
  match retrieve_document class_name with
  | Ok c => Ok c
  | Raise e =>
      if is_NotRegisteredDocumentError e
      then Raise (ValidationError_str (msg_unknown_document class_name))
      else Raise e
  end.

(** [value[key]] on a [dict]. *)
Definition getitem (d : gmap string pyval) (key : string) : result pyval :=
  match d !! key with
  | Some v => Ok v
  | None => Raise (KeyError key)
  end.

Variable generated : oid.

(** [GenericReferenceField._deserialize]; [h] is the heap the input
    lives in. *)
Definition GenericReferenceField_deserialize (self : GenericReferenceField)
    (h : heap) (value : pyval) : result pyval :=
  match value with
  | PNone => Ok PNone
  | PReference cls dcls pk =>
      if negb (issubclass cls (reference_cls self))
      then Ok (PReference (reference_cls self) dcls pk)
      else Ok value
  | PDocument cls is_created pk =>
      if negb is_created
      then Raise (ValidationError_str msg_not_created)
      else Ok (PReference (reference_cls self) cls pk)
  | PDict l =>
      let d := default ∅ (h !! l) in
      if negb (bool_decide (dom d = ({["cls"; "id"]} : gset string)))
      then Raise (ValidationError_str msg_generic_keys)
      else
        let* id := getitem d "id" in
        let* _id := match ObjectId generated id with
                    | Ok o => Ok o
                    | Raise e =>
                        if is_ValueError e
                        then Raise (ValidationError_str msg_invalid_id)
                        else Raise e
                    end in
        let* cls := getitem d "cls" in
        let* document_cls := GenericReferenceField_document_cls cls in
        Ok (PReference (reference_cls self) document_cls (PObjectId _id))
  | _ => Raise (ValidationError_str msg_invalid_generic)
  end.

End Registry.

(** Modelled from the spec: the registry, "resolve(name) -> concrete
    type; fails with NotRegisteredError kind if unknown". The classes
    registered are the entries of [reg], looked up by name. *)
Definition lookup_document (reg : gmap string DocCls) (name : pyval) : result DocCls :=
  match name with
  | PStr s =>
      match reg !! s with
      | Some c => Ok c
      | None => Raise (NotRegisteredDocumentError s)
      end
  | _ => Raise AttributeError
  end.

(** Modelled from the spec: [marshmallow_bonus.Reference._deserialize],
    which is not in these files. "A raw identifier" goes through the
    primary-key type, "constructible from a string; fails with a
    MalformedIdError kind on invalid input", the failure reported as a
    validation error. *)
Definition parse_identifier (generated : oid) (value : pyval) : result pyval :=
  match ObjectId generated value with
  | Ok o => Ok (PObjectId o)
  | Raise _ => Raise (ValidationError_str (Msg "Invalid ObjectId."))
  end.

(** *** The storage side of the reference fields *)

Section Storage.
Variable retrieve_document : pyval -> result DocCls.

(** [BaseField.deserialize_from_mongo] with
    [ReferenceField._deserialize_from_mongo]. *)
Definition ReferenceField_deserialize_from_mongo (self : ReferenceField)
    (value : pyval) : ReferenceField * result pyval :=
  let _deserialize_from_mongo :=
    let '(self, r) := document_cls retrieve_document self in
    (self, let* dc := r in Ok (PReference (ref_reference_cls self) dc value)) in
  match value with
  | PNone => if ref_allow_none self then (self, Ok PNone)
             else _deserialize_from_mongo
  | _ => _deserialize_from_mongo
  end.

(** [obj.document_cls.__name__]. *)
Definition document_cls_name (obj : pyval) : result string :=
  match obj with
  | PReference _ dc _ => Ok (cls_name (doc_class dc))
  | _ => Raise AttributeError
  end.

(** [BaseField.serialize_to_mongo] with
    [GenericReferenceField._serialize_to_mongo]: the record
    [{'_id': obj.pk, '_cls': obj.document_cls.__name__}], a new
    dictionary of the heap. *)
Definition GenericReferenceField_serialize_to_mongo (self : GenericReferenceField)
    (h : heap) (obj : pyval) : heap * result pyval :=
  let _serialize_to_mongo :=
    match pk_of obj with
    | Raise e => (h, Raise e)
    | Ok pk =>
        match document_cls_name obj with
        | Raise e => (h, Raise e)
        | Ok name =>
            let l := fresh (dom h) in
            (<[l := {["_id" := pk; "_cls" := PStr name]}]> h, Ok (PDict l))
        end
    end in
  match obj with
  | PNone => if gref_allow_none self then (h, Ok PNone) else _serialize_to_mongo
  | PMissing => (h, Ok PMissing)
  | _ => _serialize_to_mongo
  end.

(** [value[key]] for any value: only a [dict] can be subscripted by a
    name. *)
Definition subscript (h : heap) (value : pyval) (key : string) : result pyval :=
  match value with
  | PDict l => getitem (default ∅ (h !! l)) key
  | _ => Raise TypeError
  end.

(** [BaseField.deserialize_from_mongo] with
    [GenericReferenceField._deserialize_from_mongo]. *)
Definition GenericReferenceField_deserialize_from_mongo
    (self : GenericReferenceField) (h : heap) (value : pyval) : result pyval :=
  let _deserialize_from_mongo :=
    let* _cls := subscript h value "_cls" in
    let* document_cls := GenericReferenceField_document_cls retrieve_document _cls in
    let* _id := subscript h value "_id" in
    Ok (PReference (reference_cls self) document_cls _id) in
  match value with
  | PNone => if gref_allow_none self then Ok PNone else _deserialize_from_mongo
  | _ => _deserialize_from_mongo
  end.

End Storage.

(** *** The object side of the generic reference field *)

Section Dump.
(** [str(v)]. *)
Variable str : pyval -> string.

(** [GenericReferenceField._serialize]: [None], or the record
    [{'id': str(value.pk), 'cls': value.document_cls.__name__}], a new
    dictionary of the heap. *)
Definition GenericReferenceField_serialize (h : heap) (value : pyval)
  : heap * result pyval :=
  match value with
  | PNone => (h, Ok PNone)
  | _ =>
      match pk_of value with
      | Raise e => (h, Raise e)
      | Ok pk =>
          match document_cls_name value with
          | Raise e => (h, Raise e)
          | Ok name =>
              let l := fresh (dom h) in
              (<[l := {["id" := PStr (str pk); "cls" := PStr name]}]> h,
               Ok (PDict l))
          end
      end
  end.

End Dump.

(** [str] on the values whose text the properties below read: the
    hexadecimal digits of an identifier, a string itself. *)
Definition str_of (v : pyval) : string :=
  match v with
  | PObjectId o => ObjectId_str o
  | PStr s => s
  | _ => EmptyString
  end.

(** A value that is neither [None] nor a [DBRef], a [Reference] or a
    document: what [ReferenceField._deserialize] hands to its parent as
    it is. *)
Definition is_raw (value : pyval) : bool :=
  match value with
  | PNone | PDBRef _ _ | PReference _ _ _ | PDocument _ _ _ => false
  | _ => true
  end.

(** Values the properties below are evaluated on. *)
Definition Doc : DocCls :=
  mkDocCls (mkclass "Doc" ["DocumentImplementation"]) "doc".
Definition registry : gmap string DocCls := {["Doc" := Doc]}.
Definition Reference : pyclass := mkclass "Reference" [].
Definition generated_oid : oid := mkoid 7.
Definition an_oid : oid := mkoid 26754531800823819679252868869.
Definition gref : GenericReferenceField := mkGenericReferenceField false Reference.
Definition ref_to_Doc : ReferenceField :=
  mkReferenceField false (PStr "Doc") None Reference.

Definition heap_with (d : gmap string pyval) : heap := {[1%positive := d]}.

Definition record_bad_id : gmap string pyval :=
  {["id" := PStr "not-an-id"; "cls" := PStr "Doc"]}.
Definition record_int_id : gmap string pyval :=
  {["id" := PInt 12345; "cls" := PStr "Doc"]}.
Definition record_no_cls : gmap string pyval :=
  {["id" := PStr "5672d47b1d41c88dcd37ef05"]}.
Definition record_unknown_cls : gmap string pyval :=
  {["id" := PStr "5672d47b1d41c88dcd37ef05"; "cls" := PStr "dummy!"]}.
Definition record_extra_key : gmap string pyval :=
  {["id" := PStr "5672d47b1d41c88dcd37ef05"; "cls" := PStr "Doc";
    "extra" := PInt 1]}.
Definition record_good : gmap string pyval :=
  {["id" := PStr "5672d47b1d41c88dcd37ef05"; "cls" := PStr "Doc"]}.

End References.

(** ** [fields.py]: the embedded field *)

Module Embedded.

Definition msg_unknown_document (document : pyval) : message :=
  MsgFormat "Unknown document `{document}`." document.

Definition err_invalid_input_type : exn :=
  ValidationError (MKeyed {["_schema" := MList [Msg "Invalid input type."]]}).

Section Registry.
(** [self.instance.retrieve_embedded_document], the registry of the
    field, and [opts.instance.retrieve_embedded_document], the registry
    of the target class. *)
Variable retrieve_embedded_document : pyval -> result EmbCls.
Variable opts_retrieve_embedded_document : pyval -> result EmbCls.

(** The constructor of an embedded document class, called with the
    record's entries as keyword arguments: the data it loads, or the
    error it raises. *)
Variable init : EmbCls -> gmap string pyval -> result (gmap string pyval).

Record EmbeddedField := mkEmbeddedField {
  embedded_document : pyval;
  _embedded_document_cls : option EmbCls
}.

(** The [embedded_document_cls] property. *)
Definition embedded_document_cls (self : EmbeddedField)
  : EmbeddedField * result EmbCls :=
  match _embedded_document_cls self with
  | Some c => (self, Ok c)
  | None =>
      match retrieve_embedded_document (embedded_document self) with
      | Ok c => (mkEmbeddedField (embedded_document self) (Some c), Ok c)
      | Raise e => (self, Raise e)
      end
  end.

(** The outcome of a call: the field and the heap as the call leaves
    them, and what it returns or raises. *)
Record outcome := mkoutcome {
  out_field : EmbeddedField;
  out_heap : heap;
  out_result : result pyval
}.

(** A call of the class [cls]: a new instance, its data in a new heap
    cell. *)
Definition construct (self : EmbeddedField) (h : heap) (cls : EmbCls)
    (kwargs : gmap string pyval) : outcome :=
  match init cls kwargs with
  | Ok data =>
      let l := fresh (dom h) in
      mkoutcome self (<[l := data]> h) (Ok (PEmbedded cls l))
  | Raise e => mkoutcome self h (Raise e)
  end.

(** [EmbeddedField._deserialize]. *)
Definition _deserialize (self : EmbeddedField) (h : heap) (value : pyval)
  : outcome :=
  let '(self, r) := embedded_document_cls self in
  match r with
  | Raise e => mkoutcome self h (Raise e)
  | Ok embedded_document_cls =>
      match value with
      | PEmbedded cls _ =>
          if issubclass (emb_class cls) (emb_class embedded_document_cls)
          then mkoutcome self h (Ok value)
          else mkoutcome self h (Raise err_invalid_input_type)
      | PDict l =>
          let d := default ∅ (h !! l) in
          match offspring embedded_document_cls, d !! "cls" with
          | _ :: _, Some to_use_cls_name =>
              (* value.pop('cls') *)
              let d := delete "cls" d in
              let h := <[l := d]> h in
              if negb (existsb (fun o => str_eq o to_use_cls_name)
                         (offspring embedded_document_cls))
              then mkoutcome self h
                     (Raise (ValidationError_str
                               (msg_unknown_document to_use_cls_name)))
              else
                match opts_retrieve_embedded_document to_use_cls_name with
                | Raise (NotRegisteredDocumentError text) =>
                    mkoutcome self h (Raise (ValidationError_str (Msg text)))
                | Raise e => mkoutcome self h (Raise e)
                | Ok to_use_cls => construct self h to_use_cls d
                end
          | _, _ => construct self h embedded_document_cls d
          end
      | _ => mkoutcome self h (Raise err_invalid_input_type)
      end
  end.

End Registry.

(** Modelled from the spec: the registry of embedded document classes,
    "resolve(name) -> concrete type; fails with NotRegisteredError kind if
    unknown", as a table of the registered classes by name. *)
Definition lookup_embedded (reg : gmap string EmbCls) (name : pyval) : result EmbCls :=
  match name with
  | PStr s =>
      match reg !! s with
      | Some c => Ok c
      | None => Raise (NotRegisteredDocumentError s)
      end
  | _ => Raise AttributeError
  end.

(** Values the properties below are evaluated on: a class [Parent] with
    the offspring [A] and [B], a constructor that keeps the entries it is
    given, and two records. *)
Definition Parent : EmbCls :=
  mkEmbCls (mkclass "Parent" ["EmbeddedDocumentImplementation"]) ["A"; "B"].
Definition A : EmbCls :=
  mkEmbCls (mkclass "A" ["Parent"; "EmbeddedDocumentImplementation"]) [].
Definition B : EmbCls :=
  mkEmbCls (mkclass "B" ["Parent"; "EmbeddedDocumentImplementation"]) [].
Definition emb_registry : gmap string EmbCls :=
  {["Parent" := Parent; "A" := A; "B" := B]}.
Definition keep_entries (cls : EmbCls) (kwargs : gmap string pyval)
  : result (gmap string pyval) := Ok kwargs.
Definition embedded_Parent : EmbeddedField := mkEmbeddedField (PStr "Parent") None.
Definition record_B : gmap string pyval := {["cls" := PStr "B"; "x" := PInt 1]}.
Definition record_C : gmap string pyval := {["cls" := PStr "C"; "x" := PInt 1]}.
Definition heap_with (d : gmap string pyval) : heap := {[1%positive := d]}.

End Embedded.

(** ** [fields.py]: required-field validation of the container fields *)

Module Containers.

Section RequiredValidate.
Context {E : Type}.

(** The loop of [ListField._required_validate]: [errors[i] =
    exc.messages] for every element whose validation raises a
    [ValidationError]; any other exception leaves the loop. *)
Fixpoint list_errors (required_validate : E -> result unit) (i : nat)
    (value : list E) (errors : gmap nat messages) : result (gmap nat messages) :=
  match value with
  | [] => Ok errors
  | sub_value :: rest =>
      match required_validate sub_value with
      | Ok _ => list_errors required_validate (S i) rest errors
      | Raise (ValidationError m) =>
          list_errors required_validate (S i) rest (<[i := m]> errors)
      | Raise e => Raise e
      end
  end.

(** [ListField._required_validate]; [inner] is the inner field's
    [_required_validate], [None] when it has none. *)
Definition ListField_required_validate
    (inner : option (E -> result unit)) (value : slot (list E)) : result unit :=
  match value, inner with
  | Missing, _ => Ok tt
  | _, None => Ok tt
  | PyNone, Some _ => Raise TypeError
  | Val l, Some required_validate =>
      let* errors := list_errors required_validate 0 l ∅ in
      if (size errors =? 0)%nat then Ok tt
      else Raise (ValidationError (MIndexed errors))
  end.

(** The loop of [DictField._required_validate] over [value.items()]:
    [errors[key]["value"] = exc.messages], [errors] a
    [defaultdict(dict)]. *)
Fixpoint dict_errors (required_validate : E -> result unit)
    (items : list (string * E)) (errors : gmap string (gmap string messages))
  : result (gmap string (gmap string messages)) :=
  match items with
  | [] => Ok errors
  | (key, val) :: rest =>
      match required_validate val with
      | Ok _ => dict_errors required_validate rest errors
      | Raise (ValidationError m) =>
          dict_errors required_validate rest
            (<[key := <["value" := m]> (default ∅ (errors !! key))]> errors)
      | Raise e => Raise e
      end
  end.

(** [DictField._required_validate]. *)
Definition DictField_required_validate
    (value_field : option (E -> result unit)) (value : slot (list (string * E)))
  : result unit :=
  match value, value_field with
  | Missing, _ => Ok tt
  | _, None => Ok tt
  | PyNone, Some _ => Raise AttributeError
  | Val items, Some required_validate =>
      let* errors := dict_errors required_validate items ∅ in
      if (size errors =? 0)%nat then Ok tt
      else Raise (ValidationError (MKeyed (MKeyed <$> errors)))
  end.

(** The messages of the [ValidationError] the validation of an element
    raises, if it raises one. *)
Definition failure_of (required_validate : E -> result unit) (x : E)
  : option messages :=
  match required_validate x with
  | Raise (ValidationError m) => Some m
  | _ => None
  end.

(** The validation of [x] returns or raises a [ValidationError]. *)
Definition validates (required_validate : E -> result unit) (x : E) : bool :=
  match required_validate x with
  | Ok _ => true
  | Raise e => is_ValidationError e
  end.

End RequiredValidate.

(** [EmbeddedField._required_validate]: [value.required_validate()]
    unless the value is [missing]; [None] has no such method.
    [required_validate] is the method of the embedded document. *)
Definition EmbeddedField_required_validate {A : Type}
    (required_validate : A -> result unit) (value : slot A) : result unit :=
  match value with
  | Missing => Ok tt
  | PyNone => Raise AttributeError
  | Val document => required_validate document
  end.

(** Values the properties below are evaluated on: an inner validation
    that rejects the negative numbers. *)
Definition required_msg : messages := MList [Msg "Missing data for required field."].
Definition reject_negative (x : Z) : result unit :=
  if x <? 0 then Raise (ValidationError required_msg) else Ok tt.
Definition some_numbers : list Z := [3; -1; 4; -1; -5].
Definition some_entries : list (string * Z) := [("a", -3); ("b", 1); ("c", -4)].
Definition some_documents : list (slot Z) := [Val (-1); PyNone; Val (-5)].
Definition some_document_entries : list (string * slot Z) :=
  [("a", Val (-1)); ("b", PyNone); ("c", Val (-5))].

End Containers.

(** ** [abstract.py] and [schema.py]: the pure-marshmallow projection *)

Module Schemas.

(** *** Values on the heap *)

(** [bool(v)]. *)
Definition truthy (h : heap) (v : pyval) : bool :=
  match v with
  | PNone | PMissing => false
  | PBool b => b
  | PInt n => negb (n =? 0)
  | PStr s => negb (bool_decide (s = ""))
  | PDict l => negb (size (default ∅ (h !! l)) =? 0)%nat
  | _ => true
  end.

(** [a == b]: numbers by value ([True == 1]), strings and identifiers by
    value, a [dict] entry by entry. [fuel] bounds the nesting of the
    dictionaries compared. *)
Fixpoint py_eq (fuel : nat) (h : heap) (a b : pyval) : bool :=
  match fuel with
  | O => false
  | S fuel' =>
      match a, b with
      | PNone, PNone => true
      | PMissing, PMissing => true
      | PBool x, PBool y => Bool.eqb x y
      | PBool x, PInt y => (if x then 1 else 0) =? y
      | PInt x, PBool y => x =? (if y then 1 else 0)
      | PInt x, PInt y => x =? y
      | PStr x, PStr y => bool_decide (x = y)
      | PObjectId x, PObjectId y => bool_decide (x = y)
      | PDBRef c x, PDBRef c' y => bool_decide (c = c') && py_eq fuel' h x y
      | PReference _ dc x, PReference _ dc' y =>
          bool_decide (dc = dc') && py_eq fuel' h x y
      | PEmbedded _ l, PEmbedded _ l' => bool_decide (l = l')
      | PDocument c _ x, PDocument c' _ y =>
          bool_decide (c = c') && py_eq fuel' h x y
      | PDict l, PDict l' =>
          bool_decide (l = l') ||
          (let d := default ∅ (h !! l) in
           let d' := default ∅ (h !! l') in
           (size d =? size d')%nat &&
           forallb (fun '(k, v) =>
                      match d' !! k with
                      | Some v' => py_eq fuel' h v v'
                      | None => false
                      end) (map_to_list d))
      | _, _ => false
      end
  end.

(** [a == b] for two dictionaries of the heap [h]. *)
Definition dict_eq (h : heap) (l l' : loc) : bool :=
  py_eq (S (S (size h))) h (PDict l) (PDict l').

(** *** Fields and schemas *)

(** What [_extract_marshmallow_field_params] reads of a field: its own
    [validate], [required], [allow_none], [load_only], [dump_only] and
    [error_messages], its [attribute], the [marshmallow_]-prefixed
    arguments it was built with and its [metadata]. *)
Record attrs := mkattrs {
  own : gmap string pyval;
  attribute : option string;
  _ma_kwargs : gmap string pyval;
  metadata : gmap string pyval
}.

(** Which [as_marshmallow_schema] a schema class has: [BaseSchema]'s, or
    the one [schema.Schema] overrides it with. *)
Inductive schema_kind := BaseSchemaKind | SchemaKind.

Inductive field :=
  | Field (ma_class : string) (a : attrs)
  | ListField (a : attrs) (inner : field)
  | DictField (a : attrs) (value_field : option field)
  | ReferenceField (a : attrs)
  | GenericReferenceField (a : attrs)
  | EmbeddedField (a : attrs) (_embedded_document_cls : option schema)
with schema :=
  | mkschema (kind : schema_kind) (name : string) (MA_BASE_SCHEMA_CLS : string)
      (fields : list (string * field)).

(** The marshmallow fields built. *)
Inductive ma_field :=
  | MaField (ma_class : string) (kwargs : gmap string pyval)
  | MaList (inner : ma_field) (kwargs : gmap string pyval)
  | MaDict (value_field : option ma_field) (kwargs : gmap string pyval)
  | MaReference (mongo_world : bool) (kwargs : gmap string pyval)
  | MaGenericReference (mongo_world : bool) (kwargs : gmap string pyval)
  | MaNested (nested : loc) (kwargs : gmap string pyval).

(** A schema class built by [type(name, (base,), nmspc)]. *)
Record ma_schema := mk_ma_schema {
  ma_name : string;
  ma_base : string;
  ma_fields : list (string * ma_field);
  ma_get_attribute : bool;
  ma_Meta : option (gmap string pyval)
}.

(** The process: the dictionaries, the classes built so far (a class is
    known by its location), and the two class-level caches. An entry of
    [BaseSchema]'s cache holds the two dictionaries of [cache_modifiers]
    by reference. *)
Record state := mkstate {
  st_heap : heap;
  classes : gmap loc ma_schema;
  BaseSchema_cache : gmap (string * string * bool * bool) (list (loc * loc * loc));
  Schema_cache : gmap (string * string * bool) loc
}.

Definition set_heap (st : state) (h : heap) : state :=
  mkstate h (classes st) (BaseSchema_cache st) (Schema_cache st).

Definition deref (st : state) (l : loc) : gmap string pyval :=
  default ∅ (st_heap st !! l).

(** A new dictionary with the entries [d]. *)
Definition alloc (st : state) (d : gmap string pyval) : state * loc :=
  let l := fresh (dom (st_heap st)) in
  (set_heap st (<[l := d]> (st_heap st)), l).

(** [type(name, bases, nmspc)]: a new class. *)
Definition new_class (st : state) (c : ma_schema) : state * loc :=
  let l := fresh (dom (classes st)) in
  (mkstate (st_heap st) (<[l := c]> (classes st)) (BaseSchema_cache st)
     (Schema_cache st), l).

Definition MaSchema : string := "Schema".
Definition EXCLUDE : pyval := PStr "exclude".

(** [BaseField._extract_marshmallow_field_params]. *)
Definition _extract_marshmallow_field_params (a : attrs) (mongo_world : bool)
  : gmap string pyval :=
  let params := own a in
  let params :=
    match attribute a with
    | Some attr =>
        if mongo_world && negb (bool_decide (attr = ""))
        then <["attribute" := PStr attr]> params
        else params
    | None => params
    end in
  metadata a ∪ (_ma_kwargs a ∪ params).

(** [if params: field_kwargs.update(params)]; [dict.update] raises
    [ValueError] on a [str], whose elements are not pairs, and
    [TypeError] on a value that cannot be iterated. *)
Definition update_with (st : state) (params : pyval)
    (field_kwargs : gmap string pyval) : result (gmap string pyval) :=
  if truthy (st_heap st) params
  then match params with
       | PDict l => Ok (deref st l ∪ field_kwargs)
       | PStr _ => Raise ValueError
       | _ => Raise TypeError
       end
  else Ok field_kwargs.

(** [params.pop(key, None)] on the dictionary at [l]. *)
Definition pop (st : state) (l : loc) (key : string) : state * pyval :=
  let d := deref st l in
  (set_heap st (<[l := delete key d]> (st_heap st)), default PNone (d !! key)).

(** [params.get(name)]. *)
Definition get (st : state) (l : loc) (name : string) : pyval :=
  default PNone (deref st l !! name).

(** [x or {}]. *)
Definition or_empty_dict (st : state) (x : pyval) : state * result loc :=
  if truthy (st_heap st) x
  then match x with
       | PDict l => (st, Ok l)
       | _ => (st, Raise AttributeError)
       end
  else let '(st, l) := alloc st ∅ in (st, Ok l).

(** The loop over a bucket of the cache. *)
Fixpoint find_cached (h : heap) (bucket : list (loc * loc * loc))
    (params meta : loc) : option loc :=
  match bucket with
  | [] => None
  | (p, m, ma_schema) :: rest =>
      if dict_eq h p params && dict_eq h m meta then Some ma_schema
      else find_cached h rest params meta
  end.

(** [cache.setdefault(cache_key, []).append(entry)]. *)
Definition cache_append (st : state) (cache_key : string * string * bool * bool)
    (entry : loc * loc * loc) : state :=
  mkstate (st_heap st) (classes st)
    (<[cache_key := default [] (BaseSchema_cache st !! cache_key) ++ [entry]]>
       (BaseSchema_cache st))
    (Schema_cache st).

(** [meta.setdefault('unknown', EXCLUDE)]. *)
Definition setdefault_unknown (st : state) (meta : loc) : state :=
  let d := deref st meta in
  match d !! "unknown" with
  | Some _ => st
  | None => set_heap st (<[meta := <["unknown" := EXCLUDE]> d]> (st_heap st))
  end.

(** The dict comprehension [{name: field.as_marshmallow_field(...) for
    name, field in self.fields.items()}]: [project] is the call made on
    a field, with the state it runs in. *)
Fixpoint build_nmspc {F : Type}
    (project : string -> F -> state -> state * result ma_field)
    (fs : list (string * F)) (st : state)
  : state * result (list (string * ma_field)) :=
  match fs with
  | [] => (st, Ok [])
  | (name, f) :: rest =>
      let '(st, r) := project name f st in
      match r with
      | Raise e => (st, Raise e)
      | Ok ma =>
          let '(st, r) := build_nmspc project rest st in
          (st, let* nmspc := r in Ok ((name, ma) :: nmspc))
      end
  end.

(** [as_marshmallow_field] of the field classes and
    [BaseSchema.as_marshmallow_schema]. The keyword arguments
    [base_schema_cls] and [check_unknown_fields] reach a field as
    [**kwargs]: [None] when the caller passed none. *)
Fixpoint as_marshmallow_field (f : field) (params : pyval) (mongo_world : bool)
    (base_schema_cls : option string) (check_unknown_fields : option bool)
    (st : state) {struct f} : state * result ma_field :=
  match f with
  | Field ma_class a =>
      let field_kwargs := _extract_marshmallow_field_params a mongo_world in
      (st, let* field_kwargs := update_with st params field_kwargs in
           Ok (MaField ma_class field_kwargs))
  | ReferenceField a =>
      let field_kwargs := _extract_marshmallow_field_params a mongo_world in
      (st, let* field_kwargs := update_with st params field_kwargs in
           Ok (MaReference mongo_world field_kwargs))
  | GenericReferenceField a =>
      let field_kwargs := _extract_marshmallow_field_params a mongo_world in
      (st, let* field_kwargs := update_with st params field_kwargs in
           Ok (MaGenericReference mongo_world field_kwargs))
  | ListField a inner =>
      let field_kwargs := _extract_marshmallow_field_params a mongo_world in
      if truthy (st_heap st) params
      then match params with
           | PDict l =>
               let '(st, inner_params) := pop st l "params" in
               let field_kwargs := deref st l ∪ field_kwargs in
               let '(st, r) := as_marshmallow_field inner inner_params mongo_world
                                 base_schema_cls check_unknown_fields st in
               (st, let* inner_ma_schema := r in
                    Ok (MaList inner_ma_schema field_kwargs))
           | _ => (st, Raise AttributeError)
           end
      else
        let '(st, r) := as_marshmallow_field inner PNone mongo_world
                          base_schema_cls check_unknown_fields st in
        (st, let* inner_ma_schema := r in Ok (MaList inner_ma_schema field_kwargs))
  | DictField a value_field =>
      let field_kwargs := _extract_marshmallow_field_params a mongo_world in
      let build_value st inner_params field_kwargs :=
        match value_field with
        | Some vf =>
            let '(st, r) := as_marshmallow_field vf inner_params mongo_world
                              base_schema_cls check_unknown_fields st in
            (st, let* inner_ma_schema := r in
                 Ok (MaDict (Some inner_ma_schema) field_kwargs))
        | None => (st, Ok (MaDict None field_kwargs))
        end in
      if truthy (st_heap st) params
      then match params with
           | PDict l =>
               let '(st, inner_params) := pop st l "params" in
               build_value st inner_params (deref st l ∪ field_kwargs)
           | _ => (st, Raise AttributeError)
           end
      else build_value st PNone field_kwargs
  | EmbeddedField a _embedded_document_cls =>
      let field_kwargs := _extract_marshmallow_field_params a mongo_world in
      let build_nested st nested_params nested_meta field_kwargs :=
        match _embedded_document_cls with
        | None => (st, Raise AttributeError)
        | Some nested =>
            let '(st, r) := as_marshmallow_schema nested nested_params
                              base_schema_cls check_unknown_fields mongo_world
                              nested_meta st in
            (st, let* nested_ma_schema := r in
                 Ok (MaNested nested_ma_schema field_kwargs))
        end in
      if truthy (st_heap st) params
      then match params with
           | PDict l =>
               let '(st, nested_params) := pop st l "params" in
               let '(st, nested_meta) := pop st l "meta" in
               build_nested st nested_params nested_meta (deref st l ∪ field_kwargs)
           | _ => (st, Raise AttributeError)
           end
      else build_nested st PNone PNone field_kwargs
  end
with as_marshmallow_schema (self : schema) (params : pyval)
    (base_schema_cls : option string) (check_unknown_fields : option bool)
    (mongo_world : bool) (meta : pyval) (st : state) {struct self}
  : state * result loc :=
  match self with
  | mkschema SchemaKind _ _ _ =>
      (* schema.Schema.as_marshmallow_schema takes [mongo_world] alone *)
      (st, Raise TypeError)
  | mkschema BaseSchemaKind name _ fields =>
      let base_schema_cls := default MaSchema base_schema_cls in
      let check_unknown_fields := default true check_unknown_fields in
      match or_empty_dict st params with
      | (st, Raise e) => (st, Raise e)
      | (st, Ok params) =>
      match or_empty_dict st meta with
      | (st, Raise e) => (st, Raise e)
      | (st, Ok meta) =>
          let cache_key := (name, base_schema_cls, check_unknown_fields, mongo_world) in
          match find_cached (st_heap st)
                  (default [] (BaseSchema_cache st !! cache_key)) params meta with
          | Some ma_schema => (st, Ok ma_schema)
          | None =>
              let '(st, r) :=
                build_nmspc
                  (fun name f st =>
                     as_marshmallow_field f (get st params name) mongo_world
                       (Some base_schema_cls) (Some check_unknown_fields) st)
                  fields st in
              match r with
              | Raise e => (st, Raise e)
              | Ok nmspc =>
                  let st := if check_unknown_fields then st
                            else setdefault_unknown st meta in
                  let Meta := if (size (deref st meta) =? 0)%nat then None
                              else Some (deref st meta) in
                  let '(st, m_schema) :=
                    new_class st (mk_ma_schema ("Marshmallow" +:+ name)
                                    base_schema_cls nmspc (negb mongo_world) Meta) in
                  (cache_append st cache_key (params, meta, m_schema), Ok m_schema)
              end
          end
      end end
  end.

(** [schema.Schema.as_marshmallow_schema]. *)
Definition Schema_as_marshmallow_schema (self : schema) (mongo_world : bool)
    (st : state) : state * result loc :=
  match self with
  | mkschema _ name MA_BASE_SCHEMA_CLS fields =>
      let cache_key := (name, MA_BASE_SCHEMA_CLS, mongo_world) in
      match Schema_cache st !! cache_key with
      | Some ma_schema => (st, Ok ma_schema)
      | None =>
          let '(st, r) :=
            build_nmspc
              (fun name f st => as_marshmallow_field f PNone mongo_world None None st)
              fields st in
          match r with
          | Raise e => (st, Raise e)
          | Ok nmspc =>
              let '(st, m_schema) :=
                new_class st (mk_ma_schema ("Marshmallow" +:+ name)
                                MA_BASE_SCHEMA_CLS nmspc (negb mongo_world) None) in
              (mkstate (st_heap st) (classes st) (BaseSchema_cache st)
                 (<[cache_key := m_schema]> (Schema_cache st)), Ok m_schema)
          end
      end
  end.

Definition empty_state : state := mkstate ∅ ∅ ∅ ∅.

(** No embedded field in [f]. *)
Fixpoint embedded_free (f : field) : bool :=
  match f with
  | Field _ _ | ReferenceField _ | GenericReferenceField _ => true
  | ListField _ inner => embedded_free inner
  | DictField _ (Some value_field) => embedded_free value_field
  | DictField _ None => true
  | EmbeddedField _ _ => false
  end.

(** Values the properties below are evaluated on: a schema with a string
    field and a list of strings, and the calls made on it. *)
Definition required_field : attrs :=
  mkattrs {["required" := PBool true; "allow_none" := PBool false]} None ∅ ∅.
Definition optional_field : attrs :=
  mkattrs {["required" := PBool false; "allow_none" := PBool false]} None ∅ ∅.
Definition user_schema : schema :=
  mkschema BaseSchemaKind "UserSchema" MaSchema
    [("name", Field "String" required_field);
     ("tags", ListField optional_field (Field "String" optional_field))].
Definition user_Schema : schema :=
  mkschema SchemaKind "UserSchema" MaSchema
    [("name", Field "String" required_field);
     ("tags", ListField optional_field (Field "String" optional_field))].

(** [schema.as_marshmallow_schema(check_unknown_fields=False)]. *)
Definition call_unknown_allowed (st : state) : state * result loc :=
  as_marshmallow_schema user_schema PNone None (Some false) false PNone st.

(** [schema.as_marshmallow_schema()]. *)
Definition call_default (st : state) : state * result loc :=
  as_marshmallow_schema user_schema PNone None None false PNone st.

(** [schema.as_marshmallow_schema(check_unknown_fields=False,
    meta={'unknown': 'exclude'})]. *)
Definition call_unknown_allowed_with_meta (st : state) : state * result loc :=
  let '(st, meta) := alloc st {["unknown" := EXCLUDE]} in
  as_marshmallow_schema user_schema PNone None (Some false) false (PDict meta) st.

(** [schema.as_marshmallow_schema(params={'tags': {'params': {'required':
    True}}})]: an override for the inner field of [tags]. *)
Definition call_with_inner_params (st : state) : state * result loc :=
  let '(st, inner) := alloc st {["required" := PBool true]} in
  let '(st, tags) := alloc st {["params" := PDict inner]} in
  let '(st, params) := alloc st {["tags" := PDict tags]} in
  as_marshmallow_schema user_schema (PDict params) None None false PNone st.

End Schemas.

(** ** [fields.py]: the storage codec of the container fields *)

Module ContainerStorage.
Import Scalar.

(** A list comprehension whose element expression may raise: the
    elements are evaluated in order and the first exception leaves the
    comprehension. *)
Fixpoint comprehension {X Y : Type} (f : X -> result Y) (l : list X)
  : result (list Y) :=
  match l with
  | [] => Ok []
  | x :: rest =>
      let* y := f x in
      let* ys := comprehension f rest in
      Ok (y :: ys)
  end.

(** *** [ListField] *)

Record ListField (F : Type) := mkListField {
  inner : F;
  list_allow_none : bool
}.

Arguments mkListField {F} inner list_allow_none.
Arguments inner {F} l.
Arguments list_allow_none {F} l.

(** [ListField._serialize_to_mongo] and [ListField._deserialize_from_mongo].
    A stored value that is not true ([None], [missing], the empty list)
    is loaded as the empty list. *)
#[export] Instance ListField_codec {F A B : Type} `{Codec F A B}
  : Codec (ListField F) (list (slot A)) (list (slot B)) := {|
  allow_none := list_allow_none;
  _serialize_to_mongo self obj :=
    match obj with
    | PyNone => Ok Missing
    | Missing => Raise TypeError
    | Val l =>
        let* stored := comprehension (serialize_to_mongo (inner self)) l in
        Ok (Val stored)
    end;
  _deserialize_from_mongo self value :=
    match value with
    | Val ((_ :: _) as l) =>
        let* loaded := comprehension (deserialize_from_mongo (inner self)) l in
        Ok (Val loaded)
    | _ => Ok (Val [])
    end
|}.

(** *** [DictField] *)

(** [d[k] = v] on a dictionary kept as the list of its items in
    insertion order: the value of a key already there is replaced in
    place. *)
Fixpoint setitem {K V : Type} `{EqDecision K} (d : list (K * V)) (k : K) (v : V)
  : list (K * V) :=
  match d with
  | [] => [(k, v)]
  | (k', v') :: rest =>
      if decide (k' = k) then (k', v) :: rest else (k', v') :: setitem rest k v
  end.

(** A dict comprehension [{fk(k): fv(v) for k, v in items}], the key
    evaluated before the value. *)
Fixpoint dict_comprehension {K V K' V' : Type} `{EqDecision K'}
    (fk : K -> result K') (fv : V -> result V') (items : list (K * V))
    (acc : list (K' * V')) : result (list (K' * V')) :=
  match items with
  | [] => Ok acc
  | (k, v) :: rest =>
      let* k' := fk k in
      let* v' := fv v in
      dict_comprehension fk fv rest (setitem acc k' v')
  end.

Record DictField (KF VF : Type) := mkDictField {
  key_field : option KF;
  value_field : option VF;
  dict_allow_none : bool
}.

Arguments mkDictField {KF VF} key_field value_field dict_allow_none.
Arguments key_field {KF VF} d.
Arguments value_field {KF VF} d.
Arguments dict_allow_none {KF VF} d.

#[export] Instance slot_eq_dec {A : Type} `{EqDecision A} : EqDecision (slot A).
Proof. solve_decision. Defined.

(** [field.serialize_to_mongo(x) if field else x], on values of one
    universe [U]. *)
Definition serialize_with {F U : Type} `{Codec F U U} (field : option F)
    (x : slot U) : result (slot U) :=
  match field with
  | Some f => serialize_to_mongo f x
  | None => Ok x
  end.

(** [field.deserialize_from_mongo(x) if field else x]. *)
Definition deserialize_with {F U : Type} `{Codec F U U} (field : option F)
    (x : slot U) : result (slot U) :=
  match field with
  | Some f => deserialize_from_mongo f x
  | None => Ok x
  end.

(** [DictField._serialize_to_mongo] and
    [DictField._deserialize_from_mongo]; a dictionary is the list of its
    items in insertion order. *)
#[export] Instance DictField_codec {KF VF U : Type} `{EqDecision U}
    {key_codec : Codec KF U U} {value_codec : Codec VF U U}
  : Codec (DictField KF VF) (list (slot U * slot U)) (list (slot U * slot U)) := {|
  allow_none := dict_allow_none;
  _serialize_to_mongo self obj :=
    match obj with
    | PyNone => Ok Missing
    | Missing => Raise AttributeError
    | Val items =>
        let* stored := dict_comprehension (serialize_with (key_field self))
                         (serialize_with (value_field self)) items [] in
        Ok (Val stored)
    end;
  _deserialize_from_mongo self value :=
    match value with
    | Val ((_ :: _) as items) =>
        let* loaded := dict_comprehension (deserialize_with (key_field self))
                         (deserialize_with (value_field self)) items [] in
        Ok (Val loaded)
    | _ => Ok (Val [])
    end
|}.

(** Values the properties below are evaluated on. *)
Definition list_of_strings : ListField BaseField :=
  mkListField (mkBaseField StringField false) false.
Definition dict_of_integers : DictField BaseField BaseField :=
  mkDictField None (Some (mkBaseField IntegerField true)) false.

End ContainerStorage.

(** ** [abstract.py] and [fields.py]: [map_to_field] *)

Module Traversal.

(** A field as [map_to_field] sees it: its [attribute], the inner field
    of a list field, and for an embedded field what
    [self.embedded_document_cls] gives, the fields of the schema of the
    class or the exception of the registry. [Field] stands for every
    class without a [map_to_field] method, [DictField] among them. *)
Inductive field :=
  | Field (attribute : option string)
  | ListField (attribute : option string) (inner : field)
  | EmbeddedField (attribute : option string)
      (embedded_document_cls : result (list (string * field))).

Definition attribute (f : field) : option string :=
  match f with
  | Field a | ListField a _ | EmbeddedField a _ => a
  end.

(** [field.attribute or name]. *)
Definition attribute_or (f : field) (name : string) : string :=
  match attribute f with
  | Some a => if bool_decide (a = "") then name else a
  | None => name
  end.

(** [hasattr(field, 'map_to_field')]. *)
Definition has_map_to_field (f : field) : bool :=
  match f with
  | Field _ => false
  | _ => true
  end.

(** A call [func(mongo_path, path, field)]. *)
Definition call : Type := string * string * field.

(** A [for name, field in fields.items()] loop whose body makes calls
    and may raise: the calls made, and the exception that ended the
    loop if one did. *)
Fixpoint for_fields (body : string -> field -> list call * option exn)
    (fields : list (string * field)) : list call * option exn :=
  match fields with
  | [] => ([], None)
  | (name, f) :: rest =>
      match body name f with
      | (calls, Some e) => (calls, Some e)
      | (calls, None) =>
          let '(calls', e) := for_fields body rest in (calls ++ calls', e)
      end
  end.

(** [ListField.map_to_field] and [EmbeddedField.map_to_field]: the calls
    of [func] in the order they are made, and the exception raised if
    any. *)
Fixpoint map_to_field (self : field) (mongo_path path : string) {struct self}
  : list call * option exn :=
  match self with
  | Field _ => ([], Some AttributeError)
  | ListField _ inner =>
      let '(calls, e) :=
        if has_map_to_field inner then map_to_field inner mongo_path path
        else ([], None) in
      ((mongo_path, path, inner) :: calls, e)
  | EmbeddedField _ (Raise e) => ([], Some e)
  | EmbeddedField _ (Ok fields) =>
      for_fields
        (fun name f =>
           let cur_path := path +:+ "." +:+ name in
           let cur_mongo_path := mongo_path +:+ "." +:+ attribute_or f name in
           let '(calls, e) :=
             if has_map_to_field f then map_to_field f cur_mongo_path cur_path
             else ([], None) in
           ((cur_mongo_path, cur_path, f) :: calls, e))
        fields
  end.

(** [BaseSchema.map_to_field]. *)
Definition BaseSchema_map_to_field (fields : list (string * field))
  : list call * option exn :=
  for_fields
    (fun name f =>
       let mongo_path := attribute_or f name in
       let '(calls, e) :=
         if has_map_to_field f then map_to_field f mongo_path name
         else ([], None) in
       ((mongo_path, name, f) :: calls, e))
    fields.

(** No field at or below [f] has an [attribute] of its own. *)
Fixpoint no_attribute (f : field) : bool :=
  match f with
  | Field a => bool_decide (a = None \/ a = Some "")
  | ListField a inner => bool_decide (a = None \/ a = Some "") && no_attribute inner
  | EmbeddedField a (Ok fields) =>
      bool_decide (a = None \/ a = Some "")
      && forallb (fun nf => no_attribute nf.2) fields
  | EmbeddedField a (Raise _) => bool_decide (a = None \/ a = Some "")
  end.

(** Every embedded field at or below [f] finds its class. *)
Fixpoint resolved (f : field) : bool :=
  match f with
  | Field _ => true
  | ListField _ inner => resolved inner
  | EmbeddedField _ (Ok fields) => forallb (fun nf => resolved nf.2) fields
  | EmbeddedField _ (Raise _) => false
  end.

(** The number of fields below [f]. *)
Fixpoint fields_below (f : field) : nat :=
  match f with
  | Field _ => 0
  | ListField _ inner => S (fields_below inner)
  | EmbeddedField _ (Ok fields) =>
      list_sum (map (fun nf => S (fields_below nf.2)) fields)
  | EmbeddedField _ (Raise _) => 0
  end.

(** The calls due below a field that is itself handed to [func] with
    the paths [mongo_path] and [path], as the property words them: the
    inner field of a list field, with the paths of the list; every field
    of the class of an embedded field, with the name of the field added
    to [path] after a dot and its [attribute], or else its name, added
    to [mongo_path]; and the calls due below each of these. *)
Inductive below : field -> string -> string -> call -> Prop :=
  | below_inner a inner mongo_path path :
      below (ListField a inner) mongo_path path (mongo_path, path, inner)
  | below_inner_more a inner mongo_path path c :
      below inner mongo_path path c ->
      below (ListField a inner) mongo_path path c
  | below_field a fields mongo_path path name f :
      (name, f) ∈ fields ->
      below (EmbeddedField a (Ok fields)) mongo_path path
        (mongo_path +:+ "." +:+ attribute_or f name, path +:+ "." +:+ name, f)
  | below_field_more a fields mongo_path path name f c :
      (name, f) ∈ fields ->
      below f (mongo_path +:+ "." +:+ attribute_or f name)
        (path +:+ "." +:+ name) c ->
      below (EmbeddedField a (Ok fields)) mongo_path path c.

(** The calls due on a schema: every field of the schema, with its name
    as [path] and its [attribute], or else its name, as [mongo_path];
    and the calls due below each. *)
Inductive due (fields : list (string * field)) : call -> Prop :=
  | due_field name f :
      (name, f) ∈ fields -> due fields (attribute_or f name, name, f)
  | due_below name f c :
      (name, f) ∈ fields -> below f (attribute_or f name) name c ->
      due fields c.

(** Values the properties below are evaluated on: a schema with a
    string, a list of embedded addresses and an embedded address stored
    under another name. *)
Definition address : field :=
  EmbeddedField None (Ok [("street", Field None); ("city", Field None)]).
Definition person : list (string * field) :=
  [("name", Field None); ("addresses", ListField None address); ("home", address)].
Definition person_renamed : list (string * field) :=
  [("name", Field None);
   ("home", EmbeddedField (Some "h") (Ok [("street", Field (Some "s"))]))].

End Traversal.

(** ** [abstract.py] and [fields.py]: [_validate_missing] *)

Module MissingValidation.
Import Embedded.

Section Fields.
Variable retrieve_embedded_document : pyval -> result EmbCls.

(** [self.error_messages['null']], the message of [self.fail('null')]. *)
Variable null_message : message.

(** [embedded_document_cls.schema.fields]: the name of every field of
    the class and its [_validate_missing]. *)
Variable schema_fields : EmbCls -> list (string * (pyval -> result unit)).

(** [value._data.get(key)] on an instance whose data is at a location. *)
Variable data_get : loc -> string -> pyval.

(** [BaseField._validate_missing]. *)
Definition BaseField_validate_missing (allow_none : bool) (value : pyval)
  : result unit :=
  match value with
  | PNone => if allow_none then Ok tt
             else Raise (ValidationError_str null_message)
  | _ => Ok tt
  end.

(** The loop of [EmbeddedField._validate_missing]: a sub-value that is
    [missing] is skipped, [errors[name] = exc.messages] for a field
    whose check raises a [ValidationError], any other exception leaves
    the loop. *)
Fixpoint sub_errors (get_sub_value : string -> pyval)
    (fields : list (string * (pyval -> result unit)))
    (errors : gmap string messages) : result (gmap string messages) :=
  match fields with
  | [] => Ok errors
  | (name, _validate_missing) :: rest =>
      match get_sub_value name with
      | PMissing => sub_errors get_sub_value rest errors
      | sub_value =>
          match _validate_missing sub_value with
          | Ok _ => sub_errors get_sub_value rest errors
          | Raise (ValidationError m) =>
              sub_errors get_sub_value rest (<[name := m]> errors)
          | Raise e => Raise e
          end
      end
  end.

(** [EmbeddedField._validate_missing]; the field is returned with its
    cache as the call leaves it. *)
Definition EmbeddedField_validate_missing (self : EmbeddedField)
    (allow_none : bool) (h : heap) (value : pyval)
  : EmbeddedField * result unit :=
  let loop (self : EmbeddedField) (get_sub_value : string -> pyval) :=
    let '(self, r) := embedded_document_cls retrieve_embedded_document self in
    (self,
     let* cls := r in
     let* errors := sub_errors get_sub_value (schema_fields cls) ∅ in
     if (size errors =? 0)%nat then Ok tt
     else Raise (ValidationError (MKeyed errors))) in
  match BaseField_validate_missing allow_none value with
  | Raise e => (self, Raise e)
  | Ok _ =>
      match value with
      | PMissing => loop self (fun _ => PMissing)
      | PDict l =>
          loop self (fun key => default PMissing (default ∅ (h !! l) !! key))
      | _ =>
          let '(self, r) := embedded_document_cls retrieve_embedded_document self in
          match r with
          | Raise e => (self, Raise e)
          | Ok cls =>
              match value with
              | PEmbedded c l =>
                  if issubclass (emb_class c) (emb_class cls)
                  then loop self (data_get l)
                  else (self, Ok tt)
              | _ => (self, Ok tt)
              end
          end
      end
  end.

End Fields.

(** Values the properties below are evaluated on: a class with two
    fields that do not allow [None]. *)
Definition null_msg : message := Msg "Field may not be null.".
Definition not_none (value : pyval) : result unit :=
  BaseField_validate_missing null_msg false value.
Definition two_fields (cls : EmbCls) : list (string * (pyval -> result unit)) :=
  [("x", not_none); ("y", not_none)].
Definition record_null_x : gmap string pyval := {["x" := PNone]}.

End MissingValidation.

(** * Properties *)

(** Linear arithmetic with [/] and [mod] by constants. *)
Ltac zdiv := Z.to_euclidean_division_equations; lia.

(** Case analysis on every [if] of the goal, the tests turned into
    (in)equalities. *)
Ltac split_ifs :=
  repeat match goal with
         | |- context [if ?b then _ else _] => destruct b eqn:?
         end;
  rewrite ?Z.ltb_lt, ?Z.ltb_ge, ?Z.leb_le, ?Z.leb_gt, ?Z.eqb_eq, ?Z.eqb_neq in *.

Module DateTimeFacts.
Import Calendar DateTime.

Lemma valid_datetime_fields v :
  valid_datetime v = true ->
  valid_date (date_of v) = true /\
  0 <= hour v < 24 /\ 0 <= minute v < 60 /\ 0 <= second v < 60 /\
  0 <= microsecond v < 1000000 /\ valid_offset (tzinfo v) = true.
Proof.
  unfold valid_datetime. rewrite !andb_true_iff.
  rewrite !Z.leb_le, !Z.ltb_lt. tauto.
Qed.

Lemma valid_date_fields d :
  valid_date d = true ->
  1 <= year d <= 9999 /\ 1 <= month d <= 12 /\
  1 <= day d <= days_in_month (year d) (month d).
Proof.
  unfold valid_date, MINYEAR, MAXYEAR. rewrite !andb_true_iff.
  rewrite !Z.leb_le. tauto.
Qed.

Lemma round_thousands_nearest us :
  round_thousands us mod 1000 = 0 /\ Z.abs (round_thousands us - us) <= 500.
Proof.
  unfold round_thousands. split_ifs; zdiv.
Qed.

(** A tie goes to the even thousand. *)
Lemma round_thousands_tie us :
  us mod 1000 = 500 -> Z.even (round_thousands us / 1000) = true.
Proof.
  intros Ht. unfold round_thousands. rewrite Ht. simpl.
  destruct (Z.even (us / 1000)) eqn:E.
  - rewrite Z.div_mul by lia. exact E.
  - rewrite Z.div_mul by lia.
    replace (us / 1000 + 1) with (Z.succ (us / 1000)) by lia.
    rewrite Z.even_succ, <- Z.negb_even, E. reflexivity.
Qed.

Lemma round_thousands_range us :
  0 <= us < 1000000 -> 0 <= round_thousands us <= 1000000.
Proof.
  unfold round_thousands. intros. split_ifs; zdiv.
Qed.

Lemma round_thousands_fixed m :
  m mod 1000 = 0 -> round_thousands m = m.
Proof.
  unfold round_thousands. intros H. rewrite H. simpl. zdiv.
Qed.

Lemma is_leap_cases y :
  (is_leap y = true /\ days_before_year (y + 1) = days_before_year y + 366) \/
  (is_leap y = false /\ days_before_year (y + 1) = days_before_year y + 365).
Proof.
  unfold is_leap, days_before_year.
  destruct (y mod 4 =? 0) eqn:E4; destruct (y mod 100 =? 0) eqn:E100;
    destruct (y mod 400 =? 0) eqn:E400; simpl;
    rewrite ?Z.eqb_eq, ?Z.eqb_neq in *;
    first [ left; split; [reflexivity | zdiv] | right; split; [reflexivity | zdiv] ].
Qed.

Ltac month_cases m :=
  let H := fresh in
  assert (H : m = 1 \/ m = 2 \/ m = 3 \/ m = 4 \/ m = 5 \/ m = 6 \/ m = 7 \/
              m = 8 \/ m = 9 \/ m = 10 \/ m = 11 \/ m = 12) by lia;
  repeat (destruct H as [H | H]; [rewrite H in * |]); try rewrite H in *.

Lemma next_day_toordinal d d' :
  valid_date d = true -> next_day d = Some d' ->
  valid_date d' = true /\ toordinal d' = toordinal d + 1.
Proof.
  intros Hv Hn. destruct (valid_date_fields d Hv) as (Hy & Hm & Hd).
  destruct d as [y m dd]. simpl in *.
  unfold next_day in Hn. simpl in Hn.
  unfold valid_date, toordinal, MINYEAR, MAXYEAR in *. simpl in *.
  destruct (is_leap_cases y) as [[Hl Hb] | [Hl Hb]];
  destruct (dd <? days_in_month y m) eqn:E1;
    [ | destruct (m <? 12) eqn:E2; [ | destruct (y <? 9999) eqn:E3 ] |
      | destruct (m <? 12) eqn:E2; [ | destruct (y <? 9999) eqn:E3 ] ];
    inversion Hn; subst; clear Hn; simpl;
    rewrite ?Z.ltb_lt, ?Z.ltb_ge in *;
    month_cases m;
    unfold days_in_month, days_before_month in *; simpl in *;
    rewrite ?Hl in *; simpl in *;
    try lia;
    (split; [ rewrite ?andb_true_iff, ?Z.leb_le;
              destruct (is_leap (y + 1)); simpl; lia
            | try lia ]).
Qed.

Lemma last_second_false v :
  valid_datetime v = true -> last_second v = false ->
  second v < 59 \/ minute v < 59 \/ hour v < 23 \/
  day (date_of v) < days_in_month (year (date_of v)) (month (date_of v)) \/
  month (date_of v) < 12 \/ year (date_of v) < 9999.
Proof.
  intros Hv Hl. destruct (valid_datetime_fields v Hv) as (Hd & ? & ? & ? & ? & ?).
  destruct (valid_date_fields _ Hd) as (? & ? & ?).
  unfold last_second, MAXYEAR in Hl.
  rewrite !andb_false_iff, !Z.eqb_neq in Hl.
  destruct (Z.eq_dec (month (date_of v)) 12) as [E | E]; [| lia].
  rewrite E in *. unfold days_in_month in *. simpl in *. lia.
Qed.

Lemma add_one_second_spec v r :
  valid_datetime v = true -> add_one_second v = Ok r ->
  valid_datetime r = true /\ seconds_of r = seconds_of v + 1 /\
  microsecond r = microsecond v /\ tzinfo r = tzinfo v.
Proof.
  intros Hv Ha. destruct (valid_datetime_fields v Hv) as (Hd & ? & ? & ? & ? & Ho).
  unfold add_one_second in Ha.
  destruct (second v <? 59) eqn:E1; [| destruct (minute v <? 59) eqn:E2;
    [| destruct (hour v <? 23) eqn:E3;
       [| destruct (next_day (date_of v)) as [d' |] eqn:E4; [| discriminate]]]];
    inversion Ha; subst; clear Ha;
    rewrite ?Z.ltb_lt, ?Z.ltb_ge in *;
    unfold valid_datetime, seconds_of; simpl;
    try (destruct (next_day_toordinal _ _ Hd E4) as [Hd' Ho']; rewrite Ho');
    rewrite ?Hd, ?Hd', ?Ho; simpl;
    rewrite ?andb_true_iff, ?Z.leb_le, ?Z.ltb_lt;
    repeat split; try reflexivity; lia.
Qed.

Lemma add_one_second_returns v :
  valid_datetime v = true -> last_second v = false ->
  exists r, add_one_second v = Ok r.
Proof.
  intros Hv Hl. pose proof (last_second_false v Hv Hl) as Hc.
  unfold add_one_second, next_day, MAXYEAR.
  split_ifs; eauto. lia.
Qed.

Lemma add_one_second_overflow v :
  last_second v = true -> add_one_second v = Raise OverflowError.
Proof.
  unfold last_second, MAXYEAR. rewrite !andb_true_iff, !Z.eqb_eq.
  intros (((((Hy & Hm) & Hd) & Hh) & Hmi) & Hs).
  unfold add_one_second, next_day, MAXYEAR, days_in_month.
  rewrite Hy, Hm, Hd, Hh, Hmi, Hs. reflexivity.
Qed.

Lemma replace_microsecond_valid v m :
  valid_datetime v = true -> 0 <= m < 1000000 ->
  valid_datetime (replace_microsecond v m) = true.
Proof.
  intros Hv Hm. destruct (valid_datetime_fields v Hv) as (Hd & ? & ? & ? & ? & Ho).
  unfold valid_datetime. simpl. rewrite Hd, Ho.
  rewrite ?andb_true_iff, ?Z.leb_le, ?Z.ltb_lt. lia.
Qed.

Lemma replace_microsecond_same v :
  replace_microsecond v (microsecond v) = v.
Proof. destruct v; reflexivity. Qed.

(** Rounding a value that carries: the next whole second, or the overflow
    of the last second. *)
Lemma round_carry v :
  valid_datetime v = true ->
  round_thousands (microsecond v) = 1000000 ->
  last_second v = false ->
  exists r, _round_to_millisecond v = Ok r /\ valid_datetime r = true /\
    microsecond r = 0 /\ seconds_of r = seconds_of v + 1 /\ tzinfo r = tzinfo v.
Proof.
  intros Hv Hm Hl. unfold _round_to_millisecond. rewrite Hm. simpl.
  assert (Hv0 : valid_datetime (replace_microsecond v 0) = true)
    by (apply replace_microsecond_valid; [assumption | lia]).
  destruct (add_one_second_returns (replace_microsecond v 0) Hv0 Hl) as [r Hr].
  exists r. split; [assumption |].
  destruct (add_one_second_spec _ _ Hv0 Hr) as (? & ? & ? & ?). auto.
Qed.

Lemma round_fixed_point v r :
  _round_to_millisecond v = Ok r -> _round_to_millisecond r = Ok r.
Proof.
  unfold _round_to_millisecond at 1.
  destruct (round_thousands (microsecond v) =? 1000000) eqn:E; intros Ha.
  - assert (Hus : microsecond r = 0).
    { unfold add_one_second in Ha. simpl in Ha.
      repeat match type of Ha with
             | (if ?b then _ else _) = _ => destruct b
             | match ?o with Some _ => _ | None => _ end = _ => destruct o
             end; inversion Ha; reflexivity. }
    unfold _round_to_millisecond. rewrite Hus.
    change (round_thousands 0) with 0. simpl.
    destruct r; simpl in *; subst; reflexivity.
  - inversion Ha; subst; clear Ha.
    unfold _round_to_millisecond. simpl.
    destruct (round_thousands_nearest (microsecond v)) as [Hmod _].
    rewrite (round_thousands_fixed _ Hmod). rewrite E. reflexivity.
Qed.

Lemma round_idempotent v :
  (let* r := _round_to_millisecond v in _round_to_millisecond r)
  = _round_to_millisecond v.
Proof.
  destruct (_round_to_millisecond v) as [r | e] eqn:E; simpl;
    [ now apply round_fixed_point with v | reflexivity ].
Qed.

End DateTimeFacts.

(** ** Rounding of date/time values *)

Module RoundingProperties.
Import Calendar DateTime DateTimeFacts.

Example round_noon_999700 :
  _round_to_millisecond noon_999700
  = Ok (mkdatetime (mkdate 2021 3 14) 12 0 1 0 None).
Proof. reflexivity. Qed.

Example round_new_year_eve :
  _round_to_millisecond new_year_eve
  = Ok (mkdatetime (mkdate 2021 1 1) 0 0 0 0 (Some 3600)).
Proof. reflexivity. Qed.

Example round_half_to_even :
  round_thousands 500 = 0 /\ round_thousands 1500 = 2000 /\
  round_thousands 2500 = 2000 /\ round_thousands 999499 = 999000.
Proof. repeat split; reflexivity. Qed.




(** C5, as the claim states it, fails on the last datetime,
    9999-12-31T23:59:59.999999: the microseconds round to 1,000,000 and
    the second to add does not exist; the rounding raises
    [OverflowError]. *)
Lemma round_carry_overflows_at_datetime_max :
  valid_datetime datetime_max = true /\
  round_thousands (microsecond datetime_max) = 1000000 /\
  _round_to_millisecond datetime_max = Raise OverflowError /\
  ~ (exists r, _round_to_millisecond datetime_max = Ok r /\ microsecond r = 0).
Proof.
  repeat split; try reflexivity.
  intros (r & Hr & _). discriminate Hr.
Qed.

(** C5 (amended): for every valid datetime the microsecond component is
    rounded to the nearest thousand, a tie (a component that ends in
    500) going to the even thousand; when that is below 1,000,000 the
    result is the value with this microsecond component; when it is
    1,000,000 the result has a zero microsecond component and one second
    added, except in the last second 9999-12-31T23:59:59, where
    [OverflowError] is raised. *)
Theorem round_to_millisecond_nearest_thousand (v : datetime) :
  valid_datetime v = true ->
  let m := round_thousands (microsecond v) in
  (m mod 1000 = 0 /\ Z.abs (m - microsecond v) <= 500 /\ 0 <= m <= 1000000 /\
   (microsecond v mod 1000 = 500 -> Z.even (m / 1000) = true)) /\
  (m <> 1000000 ->
   _round_to_millisecond v = Ok (replace_microsecond v m) /\
   valid_datetime (replace_microsecond v m) = true) /\
  (m = 1000000 -> last_second v = false ->
   exists r, _round_to_millisecond v = Ok r /\ valid_datetime r = true /\
     microsecond r = 0 /\ seconds_of r = seconds_of v + 1 /\
     tzinfo r = tzinfo v) /\
  (m = 1000000 -> last_second v = true ->
   _round_to_millisecond v = Raise OverflowError).
Proof.
  intros Hv m.
  destruct (valid_datetime_fields v Hv) as (_ & _ & _ & _ & Hus & _).
  destruct (round_thousands_nearest (microsecond v)) as [Hmod Habs].
  pose proof (round_thousands_range _ Hus) as Hr.
  split.
  { split; [exact Hmod |]. split; [exact Habs |]. split; [exact Hr |].
    apply round_thousands_tie. }
  split; [| split].
  - intros Hne. unfold _round_to_millisecond. fold m.
    destruct (m =? 1000000) eqn:E; [apply Z.eqb_eq in E; contradiction |].
    split; [reflexivity |]. apply replace_microsecond_valid; [assumption |].
    subst m. lia.
  - intros Hm Hl. now apply round_carry.
  - intros Hm Hl. unfold _round_to_millisecond. fold m. rewrite Hm. simpl.
    now apply add_one_second_overflow.
Qed.

Lemma round_to_millisecond_nearest_thousand_new_year :
  valid_datetime new_year_eve = true /\
  round_thousands (microsecond new_year_eve) = 1000000 /\
  microsecond new_year_eve mod 1000 = 500 /\
  Z.even (round_thousands (microsecond new_year_eve) / 1000) = true /\
  exists r, _round_to_millisecond new_year_eve = Ok r /\
    valid_datetime r = true /\
    microsecond r = 0 /\ seconds_of r = seconds_of new_year_eve + 1 /\
    tzinfo r = tzinfo new_year_eve.
Proof.
  split; [reflexivity |]. split; [reflexivity |]. split; [reflexivity |].
  destruct (round_to_millisecond_nearest_thousand new_year_eve eq_refl)
    as ((_ & _ & _ & Htie) & _ & H3 & _).
  split; [exact (Htie eq_refl) | exact (H3 eq_refl eq_refl)].
Defined.

End RoundingProperties.

(** ** Reference fields *)

Module ReferenceProperties.
Import Bson References.

Example ObjectId_of_hex :
  ObjectId generated_oid (PStr "5672d47b1d41c88dcd37ef05") = Ok an_oid.
Proof. vm_compute. reflexivity. Qed.

Example generic_reference_good :
  GenericReferenceField_deserialize (lookup_document registry) generated_oid gref
    (heap_with record_good) (PDict 1%positive)
  = Ok (PReference Reference Doc (PObjectId an_oid)).
Proof. vm_compute. reflexivity. Qed.

(** [ObjectId] raises [InvalidId] or [TypeError], never a [ValueError]:
    the handler of [GenericReferenceField._deserialize] catches nothing. *)
Lemma ObjectId_never_ValueError generated value e :
  ObjectId generated value = Raise e -> is_ValueError e = false.
Proof.
  destruct value; simpl; try (intros H; inversion H; reflexivity).
  destruct (String.length s =? 24)%nat; [destruct (fromhex s) |];
    intros H; inversion H; reflexivity.
Qed.

Section Generic.
Variable retrieve_document : pyval -> result DocCls.
Variable generated : oid.
Variable self : GenericReferenceField.

Local Abbreviation deserialize :=
  (GenericReferenceField_deserialize retrieve_document generated self).

Lemma generic_keys_rejected h l d :
  h !! l = Some d -> dom d ≠ ({["cls"; "id"]} : gset string) ->
  deserialize h (PDict l) = Raise (ValidationError_str msg_generic_keys).
Proof.
  intros Hl Hd. unfold GenericReferenceField_deserialize. rewrite Hl. simpl.
  rewrite bool_decide_eq_false_2 by assumption. reflexivity.
Qed.

Lemma generic_keys_accepted h l d :
  h !! l = Some d -> dom d = ({["cls"; "id"]} : gset string) ->
  exists id cls, d !! "id" = Some id /\ d !! "cls" = Some cls /\
    deserialize h (PDict l) =
      (let* _id := match ObjectId generated id with
                   | Ok o => Ok o
                   | Raise e => Raise e
                   end in
       let* document_cls := GenericReferenceField_document_cls retrieve_document cls in
       Ok (PReference (reference_cls self) document_cls (PObjectId _id))).
Proof.
  intros Hl Hd.
  assert (Hid : is_Some (d !! "id")).
  { apply elem_of_dom. rewrite Hd.
    apply elem_of_union_r, elem_of_singleton. reflexivity. }
  assert (Hcls : is_Some (d !! "cls")).
  { apply elem_of_dom. rewrite Hd.
    apply elem_of_union_l, elem_of_singleton. reflexivity. }
  destruct Hid as [id Hid], Hcls as [cls Hcls]. exists id, cls.
  split; [assumption |]. split; [assumption |].
  unfold GenericReferenceField_deserialize. rewrite Hl. simpl.
  rewrite bool_decide_eq_true_2 by assumption. simpl.
  unfold getitem. rewrite Hid, Hcls. simpl.
  destruct (ObjectId generated id) as [o | e] eqn:E; [reflexivity |].
  rewrite (ObjectId_never_ValueError _ _ _ E). reflexivity.
Qed.

(** An unparsable identifier leaves the field as the exception
    [ObjectId] raised. *)
Lemma generic_unparsable_id_propagates h l d id e :
  h !! l = Some d -> dom d = ({["cls"; "id"]} : gset string) ->
  d !! "id" = Some id -> ObjectId generated id = Raise e ->
  deserialize h (PDict l) = Raise e /\ is_ValidationError e = false.
Proof.
  intros Hl Hd Hid E.
  destruct (generic_keys_accepted h l d Hl Hd) as (id' & cls & Hid' & _ & ->).
  rewrite Hid in Hid'. inversion Hid'; subst id'. rewrite E. simpl.
  split; [reflexivity |].
  destruct id; simpl in E; try discriminate; try (inversion E; reflexivity).
  destruct (String.length s =? 24)%nat; [destruct (fromhex s) |];
    inversion E; reflexivity.
Qed.

(** An unknown target type, the identifier being parsable, is a
    validation error. *)
Lemma generic_unknown_document_rejected h l d id cls o text :
  h !! l = Some d -> dom d = ({["cls"; "id"]} : gset string) ->
  d !! "id" = Some id -> d !! "cls" = Some cls ->
  ObjectId generated id = Ok o ->
  retrieve_document cls = Raise (NotRegisteredDocumentError text) ->
  deserialize h (PDict l)
  = Raise (ValidationError_str (msg_unknown_document cls)).
Proof.
  intros Hl Hd Hid Hcls E Hr.
  destruct (generic_keys_accepted h l d Hl Hd) as (id' & cls' & Hid' & Hcls' & ->).
  rewrite Hid in Hid'. rewrite Hcls in Hcls'.
  inversion Hid'; inversion Hcls'; subst.
  rewrite E. simpl. unfold GenericReferenceField_document_cls. rewrite Hr.
  reflexivity.
Qed.
End Generic.

(** C1: the code breaks the claim on a record whose [id] cannot be
    parsed. [{'id': 'not-an-id', 'cls': 'Doc'}] leaves the field as
    bson's [InvalidId] and [{'id': 12345, 'cls': 'Doc'}] as [TypeError],
    neither a [ValidationError]: [except ValueError] catches neither.
    The two other kinds of malformed record, a key missing and an unknown
    target type, are validation errors. *)
Theorem generic_reference_unparsable_id_escapes :
  let deserialize d :=
    GenericReferenceField_deserialize (lookup_document registry) generated_oid
      gref (heap_with d) (PDict 1%positive) in
  deserialize record_bad_id = Raise InvalidId /\
  deserialize record_int_id = Raise TypeError /\
  raises_ValidationError (deserialize record_bad_id) = false /\
  raises_ValidationError (deserialize record_int_id) = false /\
  deserialize record_no_cls = Raise (ValidationError_str msg_generic_keys) /\
  deserialize record_unknown_cls
  = Raise (ValidationError_str (msg_unknown_document (PStr "dummy!"))).
Proof. vm_compute. repeat split; reflexivity. Qed.

(** C10: a record whose key set is not exactly [{'cls', 'id'}] is
    rejected with one and the same validation error, whether a key is
    missing or a key is there besides the two. *)
Theorem generic_reference_requires_exact_keys
    (retrieve_document : pyval -> result DocCls) (generated : oid)
    (self : GenericReferenceField) (h : heap) (l : loc) (d : gmap string pyval) :
  h !! l = Some d ->
  ("cls" ∉ dom d \/ "id" ∉ dom d \/
   exists k, k ∈ dom d /\ k ≠ "cls" /\ k ≠ "id") ->
  GenericReferenceField_deserialize retrieve_document generated self h (PDict l)
  = Raise (ValidationError_str msg_generic_keys).
Proof.
  intros Hl Hd. apply generic_keys_rejected with d; [assumption |].
  intros Heq. rewrite Heq in Hd.
  destruct Hd as [H | [H | (k & Hk & Hc & Hi)]].
  - apply H, elem_of_union_l, elem_of_singleton. reflexivity.
  - apply H, elem_of_union_r, elem_of_singleton. reflexivity.
  - apply elem_of_union in Hk as [Hk | Hk]; apply elem_of_singleton in Hk;
      contradiction.
Qed.

Lemma generic_reference_extra_key_rejected :
  heap_with record_extra_key !! 1%positive = Some record_extra_key /\
  "cls" ∈ dom record_extra_key /\ "id" ∈ dom record_extra_key /\
  "extra" ∈ dom record_extra_key /\
  GenericReferenceField_deserialize (lookup_document registry) generated_oid gref
    (heap_with record_extra_key) (PDict 1%positive)
  = Raise (ValidationError_str msg_generic_keys) /\
  GenericReferenceField_deserialize (lookup_document registry) generated_oid gref
    (heap_with record_no_cls) (PDict 1%positive)
  = Raise (ValidationError_str msg_generic_keys).
Proof.
  split; [reflexivity |].
  split; [apply elem_of_dom; eexists; reflexivity |].
  split; [apply elem_of_dom; eexists; reflexivity |].
  split; [apply elem_of_dom; eexists; reflexivity |].
  split.
  - apply (generic_reference_requires_exact_keys (lookup_document registry)
             generated_oid gref (heap_with record_extra_key) 1%positive
             record_extra_key eq_refl).
    right; right. exists "extra".
    split; [apply elem_of_dom; eexists; reflexivity |].
    split; discriminate.
  - apply (generic_reference_requires_exact_keys (lookup_document registry)
             generated_oid gref (heap_with record_no_cls) 1%positive
             record_no_cls eq_refl).
    left. intros H. apply elem_of_dom in H. destruct H as [x H].
    vm_compute in H. discriminate H.
Defined.

Section Single.
Variable retrieve_document : pyval -> result DocCls.
Variable super_deserialize : pyval -> result pyval.

Lemma document_cls_cached self self' T :
  document_cls retrieve_document self = (self', Ok T) ->
  document_cls retrieve_document self' = (self', Ok T) /\
  ref_reference_cls self' = ref_reference_cls self /\
  ref_allow_none self' = ref_allow_none self.
Proof.
  unfold document_cls. destruct (_document_cls self) as [c |] eqn:E.
  - intros H. inversion H; subst. rewrite E. auto.
  - destruct (retrieve_document (document self)) as [c | e]; intros H;
      inversion H; subst. simpl. auto.
Qed.

Lemma wrap_reference_bound self T value value' :
  document_cls retrieve_document self = (self, Ok T) ->
  super_deserialize value = Ok value' ->
  wrap_reference retrieve_document super_deserialize self value
  = (self, Ok (PReference (ref_reference_cls self) T value')).
Proof.
  intros Hd Hs. unfold wrap_reference. rewrite Hs, Hd. reflexivity.
Qed.
End Single.

(** C7: for a single-type reference field bound to the document type [T],
    deserializing a raw identifier yields [Reference(T, x)], [x] being
    what the parent's parse of the identifier returns (the identifier
    itself when it is one already); [serialize_to_mongo] of a reference
    yields exactly its identifier; and deserializing an instance of [T]
    that has not been created fails with the validation error of a
    document not created yet. *)
Theorem reference_field_wraps_identifier
    (retrieve_document : pyval -> result DocCls)
    (super_deserialize : pyval -> result pyval)
    (self : ReferenceField) (T : DocCls) :
  snd (document_cls retrieve_document self) = Ok T ->
  (forall x x', is_raw x = true -> super_deserialize x = Ok x' ->
     snd (ReferenceField_deserialize retrieve_document super_deserialize self x)
     = Ok (PReference (ref_reference_cls self) T x') /\
     ReferenceField_serialize_to_mongo self (PReference (ref_reference_cls self) T x')
     = Ok x') /\
  (forall cls pk, issubclass (doc_class cls) (doc_class T) = true ->
     snd (ReferenceField_deserialize retrieve_document super_deserialize self
            (PDocument cls false pk))
     = Raise (ValidationError_str msg_not_created)).
Proof.
  intros HT.
  destruct (document_cls retrieve_document self) as [self' r] eqn:Hd.
  simpl in HT. subst r.
  destruct (document_cls_cached _ _ _ _ Hd) as (Hd' & Hrc & _).
  split.
  - intros x x' Hraw Hs. split.
    + destruct x; try discriminate Hraw;
        unfold ReferenceField_deserialize; rewrite Hd;
        rewrite (wrap_reference_bound _ _ _ _ _ _ Hd' Hs); simpl;
        rewrite Hrc; reflexivity.
    + reflexivity.
  - intros cls pk Hsub. unfold ReferenceField_deserialize.
    rewrite Hd, Hsub. reflexivity.
Qed.

Lemma reference_field_wraps_identifier_Doc :
  snd (document_cls (lookup_document registry) ref_to_Doc) = Ok Doc /\
  snd (ReferenceField_deserialize (lookup_document registry)
         (parse_identifier generated_oid) ref_to_Doc (PObjectId an_oid))
  = Ok (PReference Reference Doc (PObjectId an_oid)) /\
  ReferenceField_serialize_to_mongo ref_to_Doc
    (PReference Reference Doc (PObjectId an_oid))
  = Ok (PObjectId an_oid) /\
  snd (ReferenceField_deserialize (lookup_document registry)
         (parse_identifier generated_oid) ref_to_Doc
         (PDocument Doc false (PObjectId an_oid)))
  = Raise (ValidationError_str msg_not_created).
Proof.
  split; [reflexivity |].
  destruct (reference_field_wraps_identifier (lookup_document registry)
              (parse_identifier generated_oid) ref_to_Doc Doc eq_refl)
    as [Hraw Hnew].
  destruct (Hraw (PObjectId an_oid) (PObjectId an_oid) eq_refl eq_refl)
    as [Hde Hser].
  split; [exact Hde |]. split; [exact Hser |].
  exact (Hnew Doc (PObjectId an_oid) eq_refl).
Defined.

End ReferenceProperties.

(** ** The embedded field *)

Module EmbeddedProperties.
Import Embedded.

Example embedded_deserialize_B :
  out_result (_deserialize (lookup_embedded emb_registry)
                (lookup_embedded emb_registry) keep_entries embedded_Parent
                (heap_with record_B) (PDict 1%positive))
  = Ok (PEmbedded B 2%positive).
Proof. vm_compute. reflexivity. Qed.

Section Discriminator.
Variable retrieve_embedded_document : pyval -> result EmbCls.
Variable opts_retrieve_embedded_document : pyval -> result EmbCls.
Variable init : EmbCls -> gmap string pyval -> result (gmap string pyval).

Local Abbreviation deserialize :=
  (_deserialize retrieve_embedded_document opts_retrieve_embedded_document init).

Lemma fresh_not_popped (h : heap) (l : loc) (d : gmap string pyval) :
  fresh (dom (<[l := d]> h)) <> l /\ h !! fresh (dom (<[l := d]> h)) = None.
Proof.
  pose proof (is_fresh (dom (<[l := d]> h))) as Hf.
  apply not_elem_of_dom in Hf.
  destruct (decide (fresh (dom (<[l := d]> h)) = l)) as [E | E].
  - rewrite E in Hf. rewrite lookup_insert_eq in Hf. discriminate.
  - rewrite lookup_insert_ne in Hf by auto. auto.
Qed.

(** The discriminator is popped before anything can fail. *)
Lemma deserialize_pops self self' E h l d c :
  embedded_document_cls retrieve_embedded_document self = (self', Ok E) ->
  offspring E <> [] -> h !! l = Some d -> d !! "cls" = Some c ->
  out_heap (deserialize self h (PDict l)) !! l = Some (delete "cls" d).
Proof.
  intros He Ho Hl Hc. unfold _deserialize. rewrite He, Hl. simpl.
  rewrite Hc. destruct (offspring E) as [| o os]; [contradiction |].
  destruct (negb (existsb (fun o => str_eq o c) (o :: os)));
    [simpl; apply lookup_insert_eq |].
  destruct (opts_retrieve_embedded_document c) as [B | e].
  - unfold construct. destruct (init B (delete "cls" d)); simpl;
      [| apply lookup_insert_eq].
    rewrite lookup_insert_ne; [apply lookup_insert_eq |].
    apply fresh_not_popped.
  - destruct e; simpl; apply lookup_insert_eq.
Qed.

Lemma deserialize_unknown_discriminator self self' E h l d c :
  embedded_document_cls retrieve_embedded_document self = (self', Ok E) ->
  offspring E <> [] -> h !! l = Some d -> d !! "cls" = Some c ->
  existsb (fun o => str_eq o c) (offspring E) = false ->
  deserialize self h (PDict l)
  = mkoutcome self' (<[l := delete "cls" d]> h)
      (Raise (ValidationError_str (msg_unknown_document c))).
Proof.
  intros He Ho Hl Hc Hout. unfold _deserialize. rewrite He, Hl. simpl.
  rewrite Hc. destruct (offspring E) as [| o os]; [contradiction |].
  rewrite Hout. reflexivity.
Qed.

Lemma deserialize_known_discriminator self self' E h l d c B data :
  embedded_document_cls retrieve_embedded_document self = (self', Ok E) ->
  offspring E <> [] -> h !! l = Some d -> d !! "cls" = Some c ->
  existsb (fun o => str_eq o c) (offspring E) = true ->
  opts_retrieve_embedded_document c = Ok B ->
  init B (delete "cls" d) = Ok data ->
  let h' := <[l := delete "cls" d]> h in
  deserialize self h (PDict l)
  = mkoutcome self' (<[fresh (dom h') := data]> h')
      (Ok (PEmbedded B (fresh (dom h')))).
Proof.
  intros He Ho Hl Hc Hin HB Hinit. unfold _deserialize. rewrite He, Hl. simpl.
  rewrite Hc. destruct (offspring E) as [| o os]; [contradiction |].
  rewrite Hin, HB. simpl. unfold construct. rewrite Hinit. reflexivity.
Qed.
End Discriminator.

(** C6: for an embedded field whose target class declares offspring, a
    record whose discriminator names one of them is deserialized to an
    instance of exactly the class the registry has under that name, built
    from the remaining entries; a record whose discriminator names none
    of the offspring fails with the validation error of an unknown
    document. *)
Theorem embedded_discriminator_selects_offspring
    (retrieve_embedded_document opts_retrieve_embedded_document
       : pyval -> result EmbCls)
    (init : EmbCls -> gmap string pyval -> result (gmap string pyval))
    (self : EmbeddedField) (E : EmbCls) (h : heap) (l : loc)
    (d : gmap string pyval) (c : pyval) :
  snd (embedded_document_cls retrieve_embedded_document self) = Ok E ->
  offspring E <> [] -> h !! l = Some d -> d !! "cls" = Some c ->
  let out := _deserialize retrieve_embedded_document
               opts_retrieve_embedded_document init self h (PDict l) in
  (forall B data,
     existsb (fun o => str_eq o c) (offspring E) = true ->
     opts_retrieve_embedded_document c = Ok B ->
     init B (delete "cls" d) = Ok data ->
     exists l', out_result out = Ok (PEmbedded B l') /\
                out_heap out !! l' = Some data /\ h !! l' = None) /\
  (existsb (fun o => str_eq o c) (offspring E) = false ->
   out_result out = Raise (ValidationError_str (msg_unknown_document c))).
Proof.
  intros HE Ho Hl Hc out.
  destruct (embedded_document_cls retrieve_embedded_document self)
    as [self' r] eqn:He. simpl in HE. subst r. subst out. split.
  - intros B data Hin HB Hinit.
    rewrite (deserialize_known_discriminator _ _ _ _ _ _ _ _ _ _ _ _
               He Ho Hl Hc Hin HB Hinit). simpl.
    eexists. split; [reflexivity |]. split; [apply lookup_insert_eq |].
    apply fresh_not_popped.
  - intros Hout.
    rewrite (deserialize_unknown_discriminator _ _ _ _ _ _ _ _ _ _
               He Ho Hl Hc Hout). reflexivity.
Qed.

Lemma embedded_discriminator_B_and_C :
  snd (embedded_document_cls (lookup_embedded emb_registry) embedded_Parent)
  = Ok Parent /\
  offspring Parent = ["A"; "B"] /\
  (exists l',
     out_result (_deserialize (lookup_embedded emb_registry)
                   (lookup_embedded emb_registry) keep_entries embedded_Parent
                   (heap_with record_B) (PDict 1%positive))
     = Ok (PEmbedded B l')) /\
  out_result (_deserialize (lookup_embedded emb_registry)
                (lookup_embedded emb_registry) keep_entries embedded_Parent
                (heap_with record_C) (PDict 1%positive))
  = Raise (ValidationError_str (msg_unknown_document (PStr "C"))).
Proof.
  split; [reflexivity |]. split; [reflexivity |]. split.
  - destruct (embedded_discriminator_selects_offspring
                (lookup_embedded emb_registry) (lookup_embedded emb_registry)
                keep_entries embedded_Parent Parent (heap_with record_B)
                1%positive record_B (PStr "B") eq_refl
                ltac:(discriminate) eq_refl eq_refl) as [Hin _].
    destruct (Hin B (delete "cls" record_B) eq_refl eq_refl eq_refl)
      as (l' & Hr & _).
    exists l'. exact Hr.
  - destruct (embedded_discriminator_selects_offspring
                (lookup_embedded emb_registry) (lookup_embedded emb_registry)
                keep_entries embedded_Parent Parent (heap_with record_C)
                1%positive record_C (PStr "C") eq_refl
                ltac:(discriminate) eq_refl eq_refl) as [_ Hout].
    exact (Hout eq_refl).
Defined.

(** C9: when the target class has offspring and the input record carries
    the key ['cls'], deserialization removes that entry from the caller's
    record, whatever the call then returns or raises; in particular when
    it fails on an unknown discriminator. *)
Theorem embedded_deserialize_pops_discriminator
    (retrieve_embedded_document opts_retrieve_embedded_document
       : pyval -> result EmbCls)
    (init : EmbCls -> gmap string pyval -> result (gmap string pyval))
    (self : EmbeddedField) (E : EmbCls) (h : heap) (l : loc)
    (d : gmap string pyval) (c : pyval) :
  snd (embedded_document_cls retrieve_embedded_document self) = Ok E ->
  offspring E <> [] -> h !! l = Some d -> d !! "cls" = Some c ->
  let out := _deserialize retrieve_embedded_document
               opts_retrieve_embedded_document init self h (PDict l) in
  out_heap out !! l = Some (delete "cls" d) /\
  delete "cls" d !! "cls" = None /\
  (existsb (fun o => str_eq o c) (offspring E) = false ->
   out_result out = Raise (ValidationError_str (msg_unknown_document c)) /\
   out_heap out = <[l := delete "cls" d]> h).
Proof.
  intros HE Ho Hl Hc out.
  destruct (embedded_document_cls retrieve_embedded_document self)
    as [self' r] eqn:He. simpl in HE. subst r.
  subst out.
  split; [apply (deserialize_pops _ _ _ _ _ _ _ _ _ _ He Ho Hl Hc) |].
  split; [apply lookup_delete_eq |].
  intros Hout.
  rewrite (deserialize_unknown_discriminator _ _ _ _ _ _ _ _ _ _
             He Ho Hl Hc Hout). auto.
Qed.

Lemma embedded_deserialize_pops_cls_of_record_C :
  heap_with record_C !! 1%positive = Some record_C /\
  record_C !! "cls" = Some (PStr "C") /\
  out_heap (_deserialize (lookup_embedded emb_registry)
              (lookup_embedded emb_registry) keep_entries embedded_Parent
              (heap_with record_C) (PDict 1%positive)) !! 1%positive
  = Some (delete "cls" record_C) /\
  out_result (_deserialize (lookup_embedded emb_registry)
                (lookup_embedded emb_registry) keep_entries embedded_Parent
                (heap_with record_C) (PDict 1%positive))
  = Raise (ValidationError_str (msg_unknown_document (PStr "C"))).
Proof.
  split; [reflexivity |]. split; [reflexivity |].
  destruct (embedded_deserialize_pops_discriminator
              (lookup_embedded emb_registry) (lookup_embedded emb_registry)
              keep_entries embedded_Parent Parent (heap_with record_C)
              1%positive record_C (PStr "C") eq_refl
              ltac:(discriminate) eq_refl eq_refl) as (Hh & _ & Hout).
  split; [exact Hh |]. exact (proj1 (Hout eq_refl)).
Defined.

End EmbeddedProperties.

(** ** Required-field validation of the container fields *)

Module ContainerProperties.
Import Containers.

Example list_errors_of_some_numbers :
  ListField_required_validate (Some reject_negative) (Val some_numbers)
  = Raise (ValidationError
             (MIndexed {[1%nat := required_msg; 3%nat := required_msg;
                         4%nat := required_msg]})).
Proof. vm_compute. reflexivity. Qed.

Section Collect.
Context {E : Type}.
Variable required_validate : E -> result unit.

Lemma list_errors_lookup (l : list E) (i : nat) (errors : gmap nat messages) :
  Forall (fun x => validates required_validate x = true) l ->
  exists errors',
    list_errors required_validate i l errors = Ok errors' /\
    forall j, errors' !! j =
      if decide (i <= j)%nat
      then match l !! (j - i)%nat ≫= failure_of required_validate with
           | Some m => Some m
           | None => errors !! j
           end
      else errors !! j.
Proof.
  intros Hl. revert i errors.
  induction Hl as [| x l Hx Hl IH]; intros i errors; simpl.
  - exists errors. split; [reflexivity |]. intros j.
    destruct (decide (i <= j)%nat); reflexivity.
  - unfold validates in Hx. unfold failure_of at 1.
    destruct (required_validate x) as [[] | e] eqn:Hr.
    + destruct (IH (S i) errors) as (errors' & Heq & Hlook).
      exists errors'. split; [assumption |]. intros j. rewrite Hlook.
      destruct (decide (S i <= j)%nat), (decide (i <= j)%nat); try lia.
      * replace (j - i)%nat with (S (j - S i)) by lia. reflexivity.
      * assert (j = i) by lia. subst j. rewrite Nat.sub_diag. simpl.
        unfold failure_of. rewrite Hr. reflexivity.
      * reflexivity.
    + destruct e; try discriminate Hx.
      destruct (IH (S i) (<[i := m]> errors)) as (errors' & Heq & Hlook).
      exists errors'. split; [assumption |]. intros j. rewrite Hlook.
      destruct (decide (S i <= j)%nat), (decide (i <= j)%nat); try lia.
      * replace (j - i)%nat with (S (j - S i)) by lia. simpl.
        rewrite lookup_insert_ne by lia. reflexivity.
      * assert (j = i) by lia. subst j. rewrite Nat.sub_diag. simpl.
        unfold failure_of. rewrite Hr. apply lookup_insert_eq.
      * rewrite lookup_insert_ne by lia. reflexivity.
Qed.

Lemma dict_errors_lookup (items : list (string * E))
    (errors : gmap string (gmap string messages)) :
  NoDup items.*1 ->
  (forall k, k ∈ items.*1 -> errors !! k = None) ->
  Forall (fun kv => validates required_validate kv.2 = true) items ->
  exists errors',
    dict_errors required_validate items errors = Ok errors' /\
    forall k, errors' !! k =
      match (list_to_map items : gmap string E) !! k
              ≫= failure_of required_validate with
      | Some m => Some {["value" := m]}
      | None => errors !! k
      end.
Proof.
  intros Hnd Hfresh Hl. revert errors Hfresh.
  induction Hl as [| [key val] items Hx Hl IH]; intros errors Hfresh; simpl.
  - exists errors. split; [reflexivity |]. intros k.
    rewrite lookup_empty. reflexivity.
  - simpl in Hnd. apply NoDup_cons in Hnd. destruct Hnd as [Hkey Hnd].
    unfold validates in Hx. simpl in Hx.
    assert (Hnone : (list_to_map items : gmap string E) !! key = None)
      by (apply not_elem_of_list_to_map_1; assumption).
    destruct (required_validate val) as [[] | e] eqn:Hr.
    + destruct (IH Hnd errors) as (errors' & Heq & Hlook).
      { intros k Hk. apply Hfresh. simpl. right. assumption. }
      exists errors'. split; [assumption |]. intros k. rewrite Hlook.
      destruct (decide (key = k)) as [-> | Hne].
      * rewrite lookup_insert_eq, Hnone. simpl.
        unfold failure_of. rewrite Hr. reflexivity.
      * rewrite lookup_insert_ne by assumption. reflexivity.
    + destruct e; try discriminate Hx.
      rewrite (Hfresh key) by (simpl; left).
      destruct (IH Hnd (<[key := <["value" := m]> ∅]> errors))
        as (errors' & Heq & Hlook).
      { intros k Hk. rewrite lookup_insert_ne; [apply Hfresh; simpl; right; assumption |].
        intros ->. contradiction. }
      exists errors'. split; [assumption |]. intros k. rewrite Hlook.
      destruct (decide (key = k)) as [-> | Hne].
      * rewrite Hnone. simpl. rewrite !lookup_insert_eq. simpl.
        unfold failure_of. rewrite Hr. reflexivity.
      * rewrite !lookup_insert_ne by assumption. reflexivity.
Qed.
End Collect.

Section Abort.
Context {E : Type}.
Variable required_validate : E -> result unit.

(** An exception that is not a [ValidationError] leaves the loop. *)
Lemma list_errors_abort (l : list E) (i0 : nat) (errors : gmap nat messages)
    (i : nat) (x : E) (e : exn) :
  l !! i = Some x -> required_validate x = Raise e ->
  is_ValidationError e = false ->
  (forall j y, (j < i)%nat -> l !! j = Some y ->
     validates required_validate y = true) ->
  list_errors required_validate i0 l errors = Raise e.
Proof.
  revert i0 errors i. induction l as [| y l IH]; intros i0 errors i Hi Hx He Hbefore.
  - discriminate Hi.
  - destruct i as [| i]; simpl in Hi.
    + inversion Hi; subst y. simpl. rewrite Hx.
      destruct e; try reflexivity. discriminate He.
    + pose proof (Hbefore 0%nat y ltac:(lia) eq_refl) as Hy.
      assert (Hrest : forall i1 errors1,
                list_errors required_validate i1 l errors1 = Raise e).
      { intros i1 errors1. apply (IH i1 errors1 i Hi Hx He).
        intros j z Hj Hz. apply (Hbefore (S j) z); [lia | exact Hz]. }
      unfold validates in Hy. simpl.
      destruct (required_validate y) as [[] | e']; [apply Hrest |].
      destruct e'; try discriminate Hy. apply Hrest.
Qed.

Lemma dict_errors_abort (items : list (string * E))
    (errors : gmap string (gmap string messages))
    (i : nat) (k : string) (x : E) (e : exn) :
  items !! i = Some (k, x) -> required_validate x = Raise e ->
  is_ValidationError e = false ->
  (forall j kv, (j < i)%nat -> items !! j = Some kv ->
     validates required_validate kv.2 = true) ->
  dict_errors required_validate items errors = Raise e.
Proof.
  revert errors i. induction items as [| [k' y] items IH];
    intros errors i Hi Hx He Hbefore.
  - discriminate Hi.
  - destruct i as [| i]; simpl in Hi.
    + inversion Hi; subst. simpl. rewrite Hx.
      destruct e; try reflexivity. discriminate He.
    + pose proof (Hbefore 0%nat (k', y) ltac:(lia) eq_refl) as Hy.
      assert (Hrest : forall errors1,
                dict_errors required_validate items errors1 = Raise e).
      { intros errors1. apply (IH errors1 i Hi Hx He).
        intros j kv Hj Hkv. apply (Hbefore (S j) kv); [lia | exact Hkv]. }
      unfold validates in Hy. simpl in *.
      destruct (required_validate y) as [[] | e']; [apply Hrest |].
      destruct e'; try discriminate Hy. apply Hrest.
Qed.

End Abort.

(** C8, as the claim states it, fails when an element is [None] and the
    inner field is an embedded field: the validation of [None] raises
    [AttributeError], which leaves the loop at once. Of the list
    [[-1, None, -5]], whose first and last elements fail the validation,
    no failure is collected and no [ValidationError] is raised; the same
    goes for the map. *)
Lemma required_validate_aborts_on_none :
  failure_of (EmbeddedField_required_validate reject_negative) (Val (-1))
  = Some required_msg /\
  failure_of (EmbeddedField_required_validate reject_negative) (Val (-5))
  = Some required_msg /\
  ListField_required_validate
    (Some (EmbeddedField_required_validate reject_negative)) (Val some_documents)
  = Raise AttributeError /\
  DictField_required_validate
    (Some (EmbeddedField_required_validate reject_negative))
    (Val some_document_entries)
  = Raise AttributeError /\
  is_ValidationError AttributeError = false.
Proof. repeat split; reflexivity. Qed.

(** C8 (amended): when the inner (value) field has a required-field
    validation and no element makes it raise anything but a
    [ValidationError], the validation of a list (map) runs over every
    element, puts the messages of every failing element into one error
    map under its index (under its key, as the entry ["value"]), and
    raises a single [ValidationError] with that map once the loop is
    over; it returns normally exactly when no element fails. When the
    validation of an element raises another exception, the first such
    exception leaves the loop and is raised as it is, the failures
    collected before it dropped; an element that is [None] does so when
    the inner field is an embedded field ([AttributeError]), a list
    field ([TypeError]) or a map field ([AttributeError]) with a
    validation of its own. *)
Theorem required_validate_collects_every_failure {E : Type}
    (required_validate : E -> result unit)
    (l : list E) (items : list (string * E)) :
  (Forall (fun x => validates required_validate x = true) l ->
   exists errors : gmap nat messages,
     (forall i, errors !! i = l !! i ≫= failure_of required_validate) /\
     ((size errors = 0)%nat <->
      forall x, x ∈ l -> failure_of required_validate x = None) /\
     ListField_required_validate (Some required_validate) (Val l)
     = if (size errors =? 0)%nat then Ok tt
       else Raise (ValidationError (MIndexed errors))) /\
  (NoDup items.*1 ->
   Forall (fun kv => validates required_validate kv.2 = true) items ->
   exists errors : gmap string (gmap string messages),
     (forall k, errors !! k =
        (fun m => {["value" := m]}) <$>
          ((list_to_map items : gmap string E) !! k
             ≫= failure_of required_validate)) /\
     ((size errors = 0)%nat <->
      forall kv, kv ∈ items -> failure_of required_validate kv.2 = None) /\
     DictField_required_validate (Some required_validate) (Val items)
     = if (size errors =? 0)%nat then Ok tt
       else Raise (ValidationError (MKeyed (MKeyed <$> errors)))) /\
  (forall i x e,
     l !! i = Some x -> required_validate x = Raise e ->
     is_ValidationError e = false ->
     (forall j y, (j < i)%nat -> l !! j = Some y ->
        validates required_validate y = true) ->
     ListField_required_validate (Some required_validate) (Val l) = Raise e) /\
  (forall i k x e,
     items !! i = Some (k, x) -> required_validate x = Raise e ->
     is_ValidationError e = false ->
     (forall j kv, (j < i)%nat -> items !! j = Some kv ->
        validates required_validate kv.2 = true) ->
     DictField_required_validate (Some required_validate) (Val items) = Raise e) /\
  (forall (A : Type) (document_required_validate : A -> result unit),
     EmbeddedField_required_validate document_required_validate PyNone
     = Raise AttributeError) /\
  ListField_required_validate (Some required_validate) PyNone = Raise TypeError /\
  DictField_required_validate (Some required_validate) PyNone
  = Raise AttributeError.
Proof.
  split; [| split; [| split; [| split; [| split; [| split]]]]];
    try reflexivity.
  - intros Hl.
    destruct (list_errors_lookup required_validate l 0 ∅ Hl)
      as (errors & Heq & Hlook).
    assert (Hspec : forall i, errors !! i = l !! i ≫= failure_of required_validate).
    { intros i. rewrite Hlook. destruct (decide (0 <= i)%nat); [| lia].
      rewrite Nat.sub_0_r, lookup_empty.
      destruct (l !! i ≫= failure_of required_validate); reflexivity. }
    exists errors. split; [exact Hspec |]. split.
    + rewrite map_size_empty_iff, map_empty. split.
      * intros Hnone x Hx. apply list_elem_of_lookup in Hx as [i Hi].
        specialize (Hnone i). rewrite Hspec, Hi in Hnone. exact Hnone.
      * intros Hall i. rewrite Hspec.
        destruct (l !! i) as [x |] eqn:Hi; [| reflexivity].
        simpl. apply Hall. apply list_elem_of_lookup. eauto.
    + unfold ListField_required_validate. rewrite Heq. reflexivity.
  - intros Hnd Hitems.
    destruct (dict_errors_lookup required_validate items ∅ Hnd
                ltac:(intros; apply lookup_empty) Hitems)
      as (errors & Heq & Hlook).
    assert (Hspec : forall k, errors !! k =
              (fun m => {["value" := m]}) <$>
                ((list_to_map items : gmap string E) !! k
                   ≫= failure_of required_validate)).
    { intros k. rewrite Hlook, lookup_empty.
      destruct ((list_to_map items : gmap string E) !! k
                  ≫= failure_of required_validate); reflexivity. }
    exists errors. split; [exact Hspec |]. split.
    + rewrite map_size_empty_iff, map_empty. split.
      * intros Hnone [k v] Hkv. simpl.
        apply (elem_of_list_to_map_1 (M := gmap string)) in Hkv;
          [| assumption].
        specialize (Hnone k). rewrite Hspec, Hkv in Hnone. simpl in Hnone.
        destruct (failure_of required_validate v); [discriminate | reflexivity].
      * intros Hall k. rewrite Hspec.
        destruct ((list_to_map items : gmap string E) !! k) as [v |] eqn:Hk;
          [| reflexivity].
        simpl. apply elem_of_list_to_map_2 in Hk.
        pose proof (Hall (k, v) Hk) as Hv. simpl in Hv.
        rewrite Hv. reflexivity.
    + unfold DictField_required_validate. rewrite Heq. reflexivity.
  - intros i x e Hi Hx He Hbefore. unfold ListField_required_validate.
    rewrite (list_errors_abort required_validate l 0 ∅ i x e Hi Hx He Hbefore).
    reflexivity.
  - intros i k x e Hi Hx He Hbefore. unfold DictField_required_validate.
    rewrite (dict_errors_abort required_validate items ∅ i k x e Hi Hx He Hbefore).
    reflexivity.
Qed.

Lemma required_validate_collects_negative_numbers :
  (exists errors : gmap nat messages,
     errors !! 1%nat = Some required_msg /\ errors !! 3%nat = Some required_msg /\
     errors !! 4%nat = Some required_msg /\ errors !! 0%nat = None /\
     ListField_required_validate (Some reject_negative) (Val some_numbers)
     = Raise (ValidationError (MIndexed errors))) /\
  (exists errors : gmap string (gmap string messages),
     errors !! "a" = Some {["value" := required_msg]} /\
     errors !! "c" = Some {["value" := required_msg]} /\
     errors !! "b" = None /\
     DictField_required_validate (Some reject_negative) (Val some_entries)
     = Raise (ValidationError (MKeyed (MKeyed <$> errors)))) /\
  ListField_required_validate
    (Some (EmbeddedField_required_validate reject_negative)) (Val some_documents)
  = Raise AttributeError.
Proof.
  assert (Hl : Forall (fun x => validates reject_negative x = true) some_numbers)
    by (repeat constructor).
  assert (Hnd : NoDup some_entries.*1)
    by (repeat constructor; simpl; rewrite ?elem_of_cons, ?elem_of_nil;
        intuition discriminate).
  assert (Hitems : Forall (fun kv => validates reject_negative kv.2 = true)
                     some_entries)
    by (repeat constructor).
  destruct (required_validate_collects_every_failure reject_negative
              some_numbers some_entries)
    as (Hlist & Hdict & _).
  destruct (Hlist Hl) as (le & Hle & _ & Hlr).
  destruct (Hdict Hnd Hitems) as (de & Hde & _ & Hdr).
  split; [| split].
  - exists le. rewrite !Hle. repeat split; try reflexivity.
    rewrite Hlr.
    destruct (size le =? 0)%nat eqn:Hs; [| reflexivity].
    apply Nat.eqb_eq, map_size_empty_iff in Hs.
    pose proof (Hle 1%nat) as H1. rewrite Hs, lookup_empty in H1.
    discriminate H1.
  - exists de. rewrite !Hde. repeat split; try reflexivity.
    rewrite Hdr.
    destruct (size de =? 0)%nat eqn:Hs; [| reflexivity].
    apply Nat.eqb_eq, map_size_empty_iff in Hs.
    pose proof (Hde "a") as H1. rewrite Hs, lookup_empty in H1.
    discriminate H1.
  - destruct (required_validate_collects_every_failure
                (EmbeddedField_required_validate reject_negative)
                some_documents [])
      as (_ & _ & Habort & _).
    apply (Habort 1%nat PyNone AttributeError eq_refl eq_refl eq_refl).
    intros j y Hj Hy. destruct j as [| j]; [| lia].
    inversion Hy; subst. reflexivity.
Defined.

End ContainerProperties.

(** ** Decimals *)

Module DecimalFacts.
Import Decimals.

Lemma count_digits_bounds fuel c :
  0 < c < 10 * 2 ^ Z.of_nat fuel ->
  1 <= count_digits fuel c /\
  10 ^ (count_digits fuel c - 1) <= c < 10 ^ count_digits fuel c.
Proof.
  revert c. induction fuel as [| fuel IH]; intros c Hc.
  - simpl in *. lia.
  - cbn [count_digits]. destruct (c <? 10) eqn:E.
    + apply Z.ltb_lt in E. simpl. lia.
    + apply Z.ltb_ge in E.
      assert (Hp : 2 ^ Z.of_nat (S fuel) = 2 * 2 ^ Z.of_nat fuel).
      { rewrite Nat2Z.inj_succ, Z.pow_succ_r by lia. reflexivity. }
      assert (H2 : 0 < 2 ^ Z.of_nat fuel) by (apply Z.pow_pos_nonneg; lia).
      destruct (IH (c / 10)) as (H1 & Hlo & Hhi); [zdiv |].
      set (n := count_digits fuel (c / 10)) in *.
      replace (1 + n - 1) with (Z.succ (n - 1)) by lia.
      replace (1 + n) with (Z.succ n) by lia.
      rewrite !Z.pow_succ_r by lia.
      split; [lia |]. zdiv.
Qed.

Lemma ndigits_bounds c :
  0 < c -> 1 <= ndigits c /\ 10 ^ (ndigits c - 1) <= c < 10 ^ ndigits c.
Proof.
  intros Hc. apply count_digits_bounds.
  rewrite Z2Nat.id by apply Z.log2_nonneg.
  destruct (Z.log2_spec c Hc) as [_ Hhi].
  rewrite Z.pow_succ_r in Hhi by apply Z.log2_nonneg.
  assert (0 < 2 ^ Z.log2 c) by (apply Z.pow_pos_nonneg; [lia | apply Z.log2_nonneg]).
  lia.
Qed.

Lemma pow10_pos n : 0 <= n -> 0 < 10 ^ n.
Proof. intros. apply Z.pow_pos_nonneg; lia. Qed.

Lemma create_decimal_exact d d' :
  0 <= coefficient d -> create_decimal d = Ok d' ->
  canonical d' /\ sign d' = sign d /\
  coefficient d' * 10 ^ (exponent d' - Z.min (exponent d') (exponent d))
  = coefficient d * 10 ^ (exponent d - Z.min (exponent d') (exponent d)).
Proof.
  intros Hc. unfold create_decimal, canonical.
  unfold Etiny, Etop, _EXPONENT_MIN, _EXPONENT_MAX, _MAX_DIGITS.
  destruct d as [s c e]. simpl in *.
  destruct (c =? 0) eqn:E0.
  { apply Z.eqb_eq in E0. subst c. intros H. inversion H; subst; clear H. simpl.
    split; [split; [split; [lia | apply pow10_pos; lia] | lia] |].
    split; [reflexivity | lia]. }
  apply Z.eqb_neq in E0. assert (Hpos : 0 < c) by lia.
  destruct (ndigits_bounds c Hpos) as (Hn1 & Hlo & Hhi).
  set (nd := ndigits c) in *.
  destruct (6144 - 34 + 1 <? nd + e - 34) eqn:Eov; [discriminate |].
  apply Z.ltb_ge in Eov.
  set (exp_min := Z.max (nd + e - 34) (-6143 - 34 + 1)).
  assert (Hem : nd + e - 34 <= exp_min /\ -6176 <= exp_min /\ exp_min <= 6111)
    by (subst exp_min; lia).
  destruct (e <? exp_min) eqn:Er.
  - apply Z.ltb_lt in Er.
    destruct (c mod 10 ^ (exp_min - e) =? 0) eqn:Em;
      [| destruct (_ && _); discriminate].
    apply Z.eqb_eq in Em.
    intros H. inversion H; subst d'; clear H. simpl.
    set (k := exp_min - e) in *.
    assert (Hk : 0 < 10 ^ k) by (apply pow10_pos; lia).
    assert (Hdiv : c = 10 ^ k * (c / 10 ^ k)).
    { pose proof (Z.div_mod c (10 ^ k)). lia. }
    split; [| split; [reflexivity |]].
    + split; [| lia]. split; [apply Z.div_pos; lia |].
      apply Z.div_lt_upper_bound; [lia |].
      rewrite <- Z.pow_add_r by lia.
      apply Z.lt_le_trans with (10 ^ nd); [lia |].
      apply Z.pow_le_mono_r; lia.
    + rewrite Z.min_r by lia. rewrite Z.sub_diag. simpl.
      replace (exp_min - e) with k by reflexivity. lia.
  - apply Z.ltb_ge in Er.
    destruct (6144 - 34 + 1 <? e) eqn:Et.
    + apply Z.ltb_lt in Et.
      intros H. inversion H; subst d'; clear H. simpl.
      assert (Hk : 0 < 10 ^ (e - (6144 - 34 + 1))) by (apply pow10_pos; lia).
      split; [| split; [reflexivity |]].
      * split; [| lia]. split; [lia |].
        apply Z.lt_le_trans with (10 ^ nd * 10 ^ (e - (6144 - 34 + 1))).
        { apply Z.mul_lt_mono_pos_r; lia. }
        rewrite <- Z.pow_add_r by lia. apply Z.pow_le_mono_r; lia.
      * rewrite Z.min_l by lia. rewrite Z.sub_diag. simpl. lia.
    + apply Z.ltb_ge in Et.
      intros H. inversion H; subst d'; clear H. simpl.
      split; [| split; [reflexivity | reflexivity]].
      split; [| lia]. split; [lia |].
      apply Z.lt_le_trans with (10 ^ nd); [lia |].
      apply Z.pow_le_mono_r; lia.
Qed.

Lemma create_decimal_canonical d : canonical d -> create_decimal d = Ok d.
Proof.
  unfold canonical, create_decimal.
  unfold Etiny, Etop, _EXPONENT_MIN, _EXPONENT_MAX, _MAX_DIGITS.
  destruct d as [s c e]. simpl. intros [[Hc0 Hc] He].
  destruct (c =? 0) eqn:E0.
  { apply Z.eqb_eq in E0. subst c. f_equal. f_equal. lia. }
  apply Z.eqb_neq in E0. assert (Hpos : 0 < c) by lia.
  destruct (ndigits_bounds c Hpos) as (Hn1 & Hlo & Hhi).
  set (nd := ndigits c) in *.
  assert (Hnd : nd <= 34).
  { destruct (Z_le_gt_dec nd 34) as [H | H]; [assumption |].
    assert (10 ^ 34 <= 10 ^ (nd - 1)) by (apply Z.pow_le_mono_r; lia). lia. }
  destruct (6144 - 34 + 1 <? nd + e - 34) eqn:Eov;
    [apply Z.ltb_lt in Eov; lia |].
  destruct (e <? Z.max (nd + e - 34) (-6143 - 34 + 1)) eqn:Er;
    [apply Z.ltb_lt in Er; lia |].
  destruct (6144 - 34 + 1 <? e) eqn:Et; [apply Z.ltb_lt in Et; lia |].
  reflexivity.
Qed.

Lemma Decimal_eqb_exact d d' :
  sign d' = sign d ->
  coefficient d' * 10 ^ (exponent d' - Z.min (exponent d') (exponent d))
  = coefficient d * 10 ^ (exponent d - Z.min (exponent d') (exponent d)) ->
  Decimal_eqb d' d = true.
Proof.
  intros Hs Hc. unfold Decimal_eqb, signed. rewrite Hs.
  apply Z.eqb_eq. destruct (sign d); lia.
Qed.

Lemma pow10_divides c a k :
  0 <= a <= k -> c mod 10 ^ k = 0 -> c mod 10 ^ a = 0.
Proof.
  intros Hak Hk.
  assert (Ha : 0 < 10 ^ a) by (apply pow10_pos; lia).
  assert (Hd : 0 < 10 ^ (k - a)) by (apply pow10_pos; lia).
  assert (Hsplit : 10 ^ k = 10 ^ a * 10 ^ (k - a))
    by (rewrite <- Z.pow_add_r by lia; f_equal; lia).
  assert (Hc : c = 10 ^ k * (c / 10 ^ k))
    by (pose proof (Z.div_mod c (10 ^ k)); lia).
  rewrite Hc, Hsplit, <- Z.mul_assoc, Z.mul_comm. apply Z.mod_mul. lia.
Qed.

Lemma ndigits_above c m :
  0 < c -> 0 <= m -> (m <? ndigits c) = (10 ^ m <=? c).
Proof.
  intros Hc Hm. destruct (ndigits_bounds c Hc) as (H1 & Hlo & Hhi).
  destruct (m <? ndigits c) eqn:E.
  - apply Z.ltb_lt in E. symmetry. apply Z.leb_le.
    apply Z.le_trans with (10 ^ (ndigits c - 1)); [| exact Hlo].
    apply Z.pow_le_mono_r; lia.
  - apply Z.ltb_ge in E. symmetry. apply Z.leb_gt.
    apply Z.lt_le_trans with (10 ^ ndigits c); [exact Hhi |].
    apply Z.pow_le_mono_r; lia.
Qed.

(** Which finite decimals [create_decimal] returns, and what it raises
    on the others. *)
Lemma create_decimal_returns_iff d :
  0 < coefficient d ->
  (fits d = true -> exists d', create_decimal d = Ok d') /\
  (fits d = false ->
   create_decimal d = Raise (if overflows d then Overflow else Inexact)).
Proof.
  intros Hpos. unfold fits, overflows, create_decimal.
  unfold Etiny, Etop, _EXPONENT_MIN, _EXPONENT_MAX, _MAX_DIGITS.
  destruct d as [s c e]. simpl in *.
  replace (c =? 0) with false by (symmetry; apply Z.eqb_neq; lia). simpl.
  destruct (ndigits_bounds c Hpos) as (Hn1 & Hlo & Hhi).
  set (n := ndigits c) in *.
  destruct (6144 - 34 + 1 <? n + e - 34) eqn:Eov.
  { apply Z.ltb_lt in Eov.
    replace (n + e <=? 6144 + 1) with false by (symmetry; apply Z.leb_gt; lia).
    replace (6144 + 1 <? n + e) with true by (symmetry; apply Z.ltb_lt; lia).
    simpl. split; [discriminate | reflexivity]. }
  apply Z.ltb_ge in Eov.
  replace (n + e <=? 6144 + 1) with true by (symmetry; apply Z.leb_le; lia).
  replace (6144 + 1 <? n + e) with false by (symmetry; apply Z.ltb_ge; lia).
  simpl.
  set (exp_min := Z.max (n + e - 34) (-6143 - 34 + 1)).
  destruct (e <? exp_min) eqn:Er.
  - apply Z.ltb_lt in Er.
    set (k := exp_min - e).
    assert (Hk : 0 < k) by (subst k; lia).
    assert (HK : 0 < 10 ^ k) by (apply pow10_pos; lia).
    assert (Hmods : (c mod 10 ^ Z.max 0 (n - 34) =? 0)
                    && (c mod 10 ^ Z.max 0 (-6143 - 34 + 1 - e) =? 0)
                    = (c mod 10 ^ k =? 0)).
    { destruct (c mod 10 ^ k =? 0) eqn:Em.
      - apply Z.eqb_eq in Em. apply andb_true_iff.
        split; apply Z.eqb_eq; apply (pow10_divides c _ k); try exact Em;
          subst k exp_min; lia.
      - apply Z.eqb_neq in Em. apply andb_false_iff.
        destruct (Z.max_spec (n + e - 34) (-6143 - 34 + 1)) as [[_ Hmax] | [_ Hmax]].
        + right. apply Z.eqb_neq.
          replace (Z.max 0 (-6143 - 34 + 1 - e)) with k
            by (subst k exp_min; lia).
          exact Em.
        + left. apply Z.eqb_neq.
          replace (Z.max 0 (n - 34)) with k by (subst k exp_min; lia).
          exact Em. }
    rewrite Hmods.
    destruct (c mod 10 ^ k =? 0) eqn:Em.
    { split; [eauto | discriminate]. }
    split; [discriminate |]. intros _.
    apply Z.eqb_neq in Em.
    pose proof (Z.div_mod c (10 ^ k) ltac:(lia)) as Hdm.
    pose proof (Z.mod_pos_bound c (10 ^ k) HK) as Hr.
    set (q := c / 10 ^ k) in *. set (r := c mod 10 ^ k) in *.
    destruct (n + e =? 6144 + 1) eqn:Etop'.
    + apply Z.eqb_eq in Etop'.
      assert (Hem : exp_min = 6111) by (subst exp_min; lia).
      assert (Hkn : k = n - 34) by (subst k; lia).
      replace (6144 - 34 + 1 <? exp_min + 1) with true
        by (symmetry; apply Z.ltb_lt; lia).
      rewrite andb_true_r. simpl.
      assert (Hn : 10 ^ n = 10 ^ 34 * 10 ^ k).
      { rewrite <- Z.pow_add_r by lia. f_equal. lia. }
      assert (Hq0 : 0 <= q) by (subst q; apply Z.div_pos; lia).
      assert (Hq : q < 10 ^ 34).
      { subst q. apply Z.div_lt_upper_bound; [lia |]. lia. }
      rewrite (ndigits_above (q + 1) 34) by lia.
      replace (n - 34) with k by lia. rewrite Hn.
      set (K := 10 ^ k) in *.
      destruct (2 * (10 ^ 34 * K) - K <=? 2 * c) eqn:Ec.
      * apply Z.leb_le in Ec.
        assert (Hq' : q = 10 ^ 34 - 1) by nia.
        assert (H2r : K <= 2 * r) by nia.
        replace (10 ^ 34 <=? q + 1) with true
          by (symmetry; apply Z.leb_le; lia).
        rewrite andb_true_r.
        replace ((K <? 2 * r) || (2 * r =? K) && Z.odd q) with true;
          [reflexivity |].
        symmetry. rewrite Hq'. change (Z.odd (10 ^ 34 - 1)) with true.
        rewrite andb_true_r. apply orb_true_iff.
        destruct (Z.eq_dec (2 * r) K) as [He | Hne].
        -- right. now apply Z.eqb_eq.
        -- left. apply Z.ltb_lt. lia.
      * apply Z.leb_gt in Ec.
        destruct (10 ^ 34 <=? q + 1) eqn:Eq; [| rewrite andb_false_r; reflexivity].
        apply Z.leb_le in Eq. assert (Hq' : q = 10 ^ 34 - 1) by lia.
        rewrite andb_true_r.
        replace ((K <? 2 * r) || (2 * r =? K) && Z.odd q) with false;
          [reflexivity |].
        symmetry. apply orb_false_iff. split.
        -- apply Z.ltb_ge. nia.
        -- apply andb_false_iff. left. apply Z.eqb_neq. nia.
    + apply Z.eqb_neq in Etop'.
      replace (6144 - 34 + 1 <? exp_min + 1) with false
        by (symmetry; apply Z.ltb_ge; subst exp_min; lia).
      rewrite andb_false_r. reflexivity.
  - apply Z.ltb_ge in Er. split.
    + intros _. destruct (6144 - 34 + 1 <? e); eauto.
    + replace (Z.max 0 (n - 34)) with 0 by (subst exp_min; lia).
      replace (Z.max 0 (-6143 - 34 + 1 - e)) with 0 by (subst exp_min; lia).
      simpl. rewrite Z.mod_1_r. discriminate.
Qed.

(** The codec of [bson.Decimal128] is exact: whenever the encoding of a
    finite decimal returns, decoding gives back a decimal numerically
    equal to the one encoded. *)
Lemma decimal128_round_trip d x :
  0 <= coefficient d -> _decimal_to_128 (Finite d) = Ok x ->
  exists d', to_decimal x = Ok (Finite d') /\ Decimal_eqb d' d = true.
Proof.
  intros Hc. unfold _decimal_to_128. simpl.
  destruct (create_decimal d) as [d1 | e] eqn:E; [| discriminate].
  simpl. intros H. inversion H; subst x; clear H.
  destruct (create_decimal_exact d d1 Hc E) as (Hcan & Hs & Heq).
  exists d1. split.
  - unfold to_decimal. simpl.
    replace (exponent d1 + _EXPONENT_BIAS - _EXPONENT_BIAS) with (exponent d1) by lia.
    destruct d1. simpl. rewrite (create_decimal_canonical _ Hcan). reflexivity.
  - now apply Decimal_eqb_exact.
Qed.

Lemma decimal128_encodes_canonical d :
  canonical d ->
  _decimal_to_128 (Finite d)
  = Ok (Finite128 (mkDecimal128 (sign d) (coefficient d)
                     (exponent d + _EXPONENT_BIAS))).
Proof.
  intros H. unfold _decimal_to_128. simpl.
  rewrite (create_decimal_canonical d H). reflexivity.
Qed.

(** A zero fits, whatever its exponent. *)
Lemma create_decimal_zero d :
  coefficient d = 0 -> exists d', create_decimal d = Ok d'.
Proof.
  intros H. unfold create_decimal. rewrite H. simpl. eauto.
Qed.

End DecimalFacts.

(** ** The storage codec of the scalar fields *)

Module CalendarFacts.
Import Calendar DateTimeFacts.

Lemma prev_day_toordinal d d' :
  valid_date d = true -> prev_day d = Some d' ->
  valid_date d' = true /\ toordinal d' = toordinal d - 1.
Proof.
  intros Hv Hn. destruct (valid_date_fields d Hv) as (Hy & Hm & Hd).
  destruct d as [y m dd]. simpl in *.
  unfold prev_day in Hn. simpl in Hn.
  unfold valid_date, toordinal, MINYEAR, MAXYEAR in *. simpl in *.
  destruct (is_leap_cases y) as [[Hl Hb] | [Hl Hb]];
  destruct (is_leap_cases (y - 1)) as [[Hl' Hb'] | [Hl' Hb']];
  replace (y - 1 + 1) with y in * by lia;
  (destruct (1 <? dd) eqn:E1;
    [ | destruct (1 <? m) eqn:E2; [ | destruct (1 <? y) eqn:E3 ] ]);
    inversion Hn; subst; clear Hn; simpl;
    rewrite ?Z.ltb_lt, ?Z.ltb_ge in *;
    month_cases m;
    unfold days_in_month, days_before_month in *; simpl in *;
    rewrite ?Hl, ?Hl' in *; simpl in *;
    try lia;
    (split; [ rewrite ?andb_true_iff, ?Z.leb_le; repeat split; lia | lia ]).
Qed.

Lemma days_later_toordinal n d d' :
  valid_date d = true -> days_later n d = Some d' ->
  valid_date d' = true /\ toordinal d' = toordinal d + Z.of_nat n.
Proof.
  revert d. induction n as [| n IH]; intros d Hv; simpl.
  - intros H. inversion H; subst. split; [assumption | lia].
  - destruct (next_day d) as [d1 |] eqn:E; [| discriminate].
    destruct (next_day_toordinal d d1 Hv E) as [Hv1 Ho1].
    intros H. destruct (IH d1 Hv1 H) as [Hv' Ho']. split; [assumption | lia].
Qed.

Lemma days_earlier_toordinal n d d' :
  valid_date d = true -> days_earlier n d = Some d' ->
  valid_date d' = true /\ toordinal d' = toordinal d - Z.of_nat n.
Proof.
  revert d. induction n as [| n IH]; intros d Hv; simpl.
  - intros H. inversion H; subst. split; [assumption | lia].
  - destruct (prev_day d) as [d1 |] eqn:E; [| discriminate].
    destruct (prev_day_toordinal d d1 Hv E) as [Hv1 Ho1].
    intros H. destruct (IH d1 Hv1 H) as [Hv' Ho']. split; [assumption | lia].
Qed.

Lemma shift_days_toordinal d n d' :
  valid_date d = true -> shift_days d n = Some d' ->
  valid_date d' = true /\ toordinal d' = toordinal d + n.
Proof.
  intros Hv. unfold shift_days. destruct (0 <=? n) eqn:E.
  - apply Z.leb_le in E. intros H.
    destruct (days_later_toordinal _ _ _ Hv H) as [Hv' Ho]. split; [assumption | lia].
  - apply Z.leb_gt in E. intros H.
    destruct (days_earlier_toordinal _ _ _ Hv H) as [Hv' Ho]. split; [assumption | lia].
Qed.

End CalendarFacts.

Module ScalarProperties.
Import Calendar Decimals Scalar DateTimeFacts CalendarFacts DecimalFacts.

Example decimal_round_trip_one_and_a_half :
  round_trip (mkDecimalField false) (Val (Finite one_and_a_half))
  = Ok (Val (Finite one_and_a_half)).
Proof. vm_compute. reflexivity. Qed.

Example decimal_thirty_five_digits_raises :
  serialize_to_mongo (mkDecimalField false) (Val (Finite thirty_five_digits))
  = Raise Inexact.
Proof. vm_compute. reflexivity. Qed.

(** A rounding up whose carry leaves the exponent range overflows. *)
Example decimal_thirty_five_nines_overflow :
  serialize_to_mongo (mkDecimalField false) (Val (Finite thirty_five_nines))
  = Raise Overflow.
Proof. vm_compute. reflexivity. Qed.

Example decimal_trailing_zeros_fold :
  _decimal_to_128 (Finite ten_to_the_34)
  = Ok (Finite128 (mkDecimal128 false (10 ^ 33) (1 + _EXPONENT_BIAS))).
Proof. vm_compute. reflexivity. Qed.

(** A quiet NaN comes back, and is not equal to itself. *)
Example decimal_nan_round_trip :
  round_trip (mkDecimalField false) (Val (NaN false false 0))
  = Ok (Val (NaN false false 0)) /\
  decimal_eq (NaN false false 0) (NaN false false 0) = Ok false.
Proof. split; reflexivity. Qed.

Example aware_round_trip_display_zone :
  round_trip aware_field_plus_one (Val noon_utc)
  = Ok (Val (mkdatetime (mkdate 2021 3 14) 13 0 0 0 (Some 3600))).
Proof. vm_compute. reflexivity. Qed.

(** A [datetime] kept by a date field comes back as its date. *)
Example date_field_drops_time_of_day :
  round_trip (mkDateField false) (Val (ADateTime half_past_noon))
  = Ok (Val (ADate pi_day)) /\
  date_value_eqb (ADate pi_day) (ADateTime half_past_noon) = false.
Proof. split; reflexivity. Qed.

Lemma shift_seconds_spec t delta r :
  valid_datetime t = true -> shift_seconds t delta = Ok r ->
  valid_datetime r = true /\ seconds_of r = seconds_of t + delta /\
  microsecond r = microsecond t /\ tzinfo r = tzinfo t.
Proof.
  intros Hv. destruct (valid_datetime_fields t Hv) as (Hd & ? & ? & ? & ? & Ho).
  unfold shift_seconds.
  set (s := hour t * 3600 + minute t * 60 + second t + delta).
  destruct (shift_days (date_of t) (s / 86400)) as [d |] eqn:E; [| discriminate].
  destruct (shift_days_toordinal _ _ _ Hd E) as [Hd' Hord].
  intros H'. inversion H'; subst r; clear H'.
  unfold valid_datetime, seconds_of. simpl. rewrite Hd', Ho, Hord. simpl.
  rewrite ?andb_true_iff, ?Z.leb_le, ?Z.ltb_lt.
  repeat split; try reflexivity; subst s; zdiv.
Qed.

Lemma shift_seconds_zero t :
  valid_datetime t = true -> shift_seconds t (- 0) = Ok t.
Proof.
  intros Hv. destruct (valid_datetime_fields t Hv) as (Hd & ? & ? & ? & ? & Ho).
  unfold shift_seconds. change (- 0) with 0.
  replace ((hour t * 3600 + minute t * 60 + second t + 0) / 86400) with 0 by zdiv.
  simpl. destruct t as [d h m sec us tz]. simpl in *.
  f_equal. f_equal; zdiv.
Qed.

Lemma replace_tzinfo_valid t off :
  valid_datetime t = true -> -86400 < off < 86400 ->
  valid_datetime (replace_tzinfo t (Some off)) = true.
Proof.
  intros Hv Hoff.
  destruct (valid_datetime_fields t Hv) as (Hd & ? & ? & ? & ? & Ho).
  unfold valid_datetime. simpl. rewrite Hd.
  rewrite ?andb_true_iff, ?Z.leb_le, ?Z.ltb_lt. repeat split; lia.
Qed.

(** Conversion of a UTC value to a display time zone keeps the instant. *)
Lemma astimezone_instant t tz r :
  valid_datetime t = true -> tzinfo t = Some 0 -> -86400 < tz < 86400 ->
  astimezone 0 t tz = Ok r ->
  valid_datetime r = true /\ tzinfo r = Some tz /\
  instant_of r tz = instant_of t 0.
Proof.
  intros Hv Htz Hrange. unfold astimezone.
  rewrite (shift_seconds_zero t Hv). simpl.
  intros Hs.
  destruct (shift_seconds_spec _ _ _ (replace_tzinfo_valid t tz Hv Hrange) Hs)
    as (Hvr & Hsec & Hus & Htzr).
  split; [assumption |]. split; [assumption |].
  unfold instant_of. rewrite Hsec, Hus. unfold seconds_of. simpl. lia.
Qed.




End ScalarProperties.

(** ** The cache of the pure-marshmallow projection *)

Module CacheProperties.
Import Schemas.

(** Without overrides a field that nests no embedded schema is projected
    with the state left as it is. *)
Lemma field_without_overrides (f : field) :
  embedded_free f = true ->
  forall mongo_world base_schema_cls check_unknown_fields st,
  exists ma,
    as_marshmallow_field f PNone mongo_world base_schema_cls
      check_unknown_fields st = (st, Ok ma).
Proof.
  revert f. fix IH 1.
  intros [c a | a inner | a [vf |] | a | a | a e]; simpl; intros Hf mw b c' st;
    try discriminate Hf; try (eexists; reflexivity).
  - destruct (IH inner Hf mw b c' st) as [ma Hma].
    rewrite Hma. eexists; reflexivity.
  - destruct (IH vf Hf mw b c' st) as [ma Hma].
    rewrite Hma. eexists; reflexivity.
Qed.

Lemma build_nmspc_without_overrides (fs : list (string * field))
    mw b c st params :
  forallb (fun nf => embedded_free nf.2) fs = true ->
  deref st params = ∅ ->
  exists nmspc,
    build_nmspc
      (fun name f st => as_marshmallow_field f (get st params name) mw b c st)
      fs st = (st, Ok nmspc).
Proof.
  intros Hfs Hp. induction fs as [| [name f] fs IH]; simpl.
  - eexists; reflexivity.
  - simpl in Hfs. apply andb_true_iff in Hfs as [Hf Hfs].
    unfold get at 1. rewrite Hp, lookup_empty. simpl.
    destruct (field_without_overrides f Hf mw b c st) as [ma Hma]. rewrite Hma.
    destruct (IH Hfs) as [nmspc Hn]. rewrite Hn. eexists; reflexivity.
Qed.

(** A call without overrides that finds nothing in the cache: the two
    dictionaries it makes, the class it builds and the entry it stores. *)
Lemma call_that_misses (name base : string) (fields : list (string * field))
    (check_unknown_fields mongo_world : bool) (st : state) :
  forallb (fun nf => embedded_free nf.2) fields = true ->
  let params := fresh (dom (st_heap st)) in
  let h1 := <[params := ∅]> (st_heap st) in
  let meta := fresh (dom h1) in
  let h2 := <[meta := ∅]> h1 in
  let key := (name, MaSchema, check_unknown_fields, mongo_world) in
  let bucket := default [] (BaseSchema_cache st !! key) in
  find_cached h2 bucket params meta = None ->
  exists st',
    as_marshmallow_schema (mkschema BaseSchemaKind name base fields)
      PNone None (Some check_unknown_fields) mongo_world PNone st
    = (st', Ok (fresh (dom (classes st)))) /\
    st_heap st' = (if check_unknown_fields then h2
                   else <[meta := {["unknown" := EXCLUDE]}]> h2) /\
    BaseSchema_cache st' !! key
    = Some (bucket ++ [(params, meta, fresh (dom (classes st)))]) /\
    dom (classes st') = {[fresh (dom (classes st))]} ∪ dom (classes st).
Proof.
  intros Hfs params h1 meta h2 key bucket Hmiss.
  cbn -[build_nmspc find_cached].
  fold params. fold h1. fold meta. fold h2. fold key. fold bucket.
  rewrite Hmiss.
  destruct (build_nmspc_without_overrides fields mongo_world (Some MaSchema)
              (Some check_unknown_fields) (set_heap (set_heap st h1) h2) params
              Hfs) as [nmspc Hn].
  { unfold deref. simpl. subst h2.
    rewrite lookup_insert_ne.
    - subst h1. rewrite lookup_insert_eq. reflexivity.
    - intros Heq. pose proof (is_fresh (dom h1)) as Hf. fold meta in Hf.
      rewrite Heq in Hf. apply Hf. subst h1. apply elem_of_dom.
      rewrite lookup_insert_eq. eauto. }
  rewrite Hn. destruct check_unknown_fields.
  - simpl. eexists. split; [reflexivity |]. simpl.
    split; [reflexivity |]. split.
    + rewrite lookup_insert_eq. reflexivity.
    + rewrite dom_insert_L. reflexivity.
  - assert (Hsd : setdefault_unknown (set_heap (set_heap st h1) h2) meta
                  = set_heap st (<[meta := {["unknown" := EXCLUDE]}]> h2)).
    { unfold setdefault_unknown, deref. simpl. subst h2.
      rewrite lookup_insert_eq. simpl. rewrite lookup_empty.
      unfold set_heap. simpl. rewrite insert_empty. reflexivity. }
    rewrite Hsd. simpl.
    eexists. split; [reflexivity |]. simpl.
    split; [reflexivity |]. split.
    + rewrite lookup_insert_eq. reflexivity.
    + rewrite dom_insert_L. reflexivity.
Qed.

(** With [check_unknown_fields] left at its default the cache does what
    the comment in the code says: in a new process the second call
    without overrides returns the class the first one built. *)
Lemma new_process_hits_with_defaults
    (name base : string) (fields : list (string * field)) (mongo_world : bool) :
  forallb (fun nf => embedded_free nf.2) fields = true ->
  let call := as_marshmallow_schema (mkschema BaseSchemaKind name base fields)
                PNone None (Some true) mongo_world PNone in
  exists st1 st2 c,
    call empty_state = (st1, Ok c) /\ call st1 = (st2, Ok c).
Proof.
  intros Hfs call.
  destruct (call_that_misses name base fields true mongo_world empty_state Hfs)
    as (st1 & H1 & Hh1 & Hc1 & Hd1).
  { simpl. rewrite lookup_empty. reflexivity. }
  exists st1. subst call. rewrite H1.
  cbn -[build_nmspc find_cached]. rewrite Hc1, Hh1.
  simpl default. vm_compute find_cached.
  eexists. eexists. split; reflexivity.
Qed.

(** With the defaults the cache works: the second call returns the class
    the first one built, and the bucket keeps one entry. *)
Example cache_hit_with_defaults :
  let '(st1, r1) := call_default empty_state in
  let '(st2, r2) := call_default st1 in
  r1 = Ok 1%positive /\ r2 = Ok 1%positive /\
  length (default [] (BaseSchema_cache st2
                        !! ("UserSchema", MaSchema, true, false))) = 1%nat.
Proof. vm_compute. repeat split; reflexivity. Qed.

(** [schema.Schema.as_marshmallow_schema] keeps one class per key. *)
Example Schema_cache_hit :
  let '(st1, r1) := Schema_as_marshmallow_schema user_Schema false empty_state in
  let '(st2, r2) := Schema_as_marshmallow_schema user_Schema false st1 in
  let '(st3, r3) := Schema_as_marshmallow_schema user_Schema true st2 in
  r1 = Ok 1%positive /\ r2 = Ok 1%positive /\ r3 = Ok 2%positive.
Proof. vm_compute. repeat split; reflexivity. Qed.

(** The calls of the claim on [user_schema], evaluated. With
    [check_unknown_fields=False] two calls without overrides build the
    classes 1 and 2, and both entries of the bucket hold a [meta] that is
    [{'unknown': 'exclude'}]; a call whose [meta] is [{'unknown':
    'exclude'}], another override, is given the class of the call without
    overrides; an override for an inner field, popped from the caller's
    dictionary while the fields are built, makes an equal second call
    miss in the same way. *)
Example projection_cache_on_user_schema :
  (let '(st1, r1) := call_unknown_allowed empty_state in
   let '(st2, r2) := call_unknown_allowed st1 in
   r1 = Ok 1%positive /\ r2 = Ok 2%positive /\
   default [] (BaseSchema_cache st2 !! ("UserSchema", MaSchema, false, false))
   = [(1%positive, 2%positive, 1%positive); (3%positive, 4%positive, 2%positive)]
   /\ deref st2 2%positive = {["unknown" := EXCLUDE]}
   /\ deref st2 4%positive = {["unknown" := EXCLUDE]}) /\
  (let '(st1, r1) := call_unknown_allowed empty_state in
   let '(st2, r2) := call_unknown_allowed_with_meta st1 in
   r1 = Ok 1%positive /\ r2 = Ok 1%positive) /\
  (let '(st1, r1) := call_with_inner_params empty_state in
   let '(st2, r2) := call_with_inner_params st1 in
   r1 = Ok 1%positive /\ r2 = Ok 2%positive).
Proof. vm_compute. repeat split; reflexivity. Qed.

(** C2: the code breaks the claim when [check_unknown_fields] is false.
    The entry stored in the cache holds the very dictionary [meta], which
    [meta.setdefault('unknown', EXCLUDE)] changes before the entry is
    stored: the second of two calls with the same key and the same
    (absent) overrides compares its empty [meta] with [{'unknown':
    'exclude'}], misses, and builds a second class. This holds for every
    schema that nests no embedded schema, in a process whose cache is
    empty. *)
Theorem projection_cache_misses_on_equal_arguments
    (name base : string) (fields : list (string * field)) (mongo_world : bool) :
  forallb (fun nf => embedded_free nf.2) fields = true ->
  let call := as_marshmallow_schema (mkschema BaseSchemaKind name base fields)
                PNone None (Some false) mongo_world PNone in
  exists st1 st2 c1 c2,
    call empty_state = (st1, Ok c1) /\ call st1 = (st2, Ok c2) /\ c1 <> c2.
Proof.
  intros Hfs call.
  destruct (call_that_misses name base fields false mongo_world empty_state Hfs)
    as (st1 & H1 & Hh1 & Hc1 & Hd1).
  { simpl. rewrite lookup_empty. reflexivity. }
  destruct (call_that_misses name base fields false mongo_world st1 Hfs)
    as (st2 & H2 & _ & _ & _).
  { rewrite Hc1, Hh1. simpl. rewrite lookup_empty. simpl.
    vm_compute. reflexivity. }
  exists st1, st2. do 2 eexists. split; [exact H1 |]. split; [exact H2 |].
  intros Heq. pose proof (is_fresh (dom (classes st1))) as Hf.
  rewrite <- Heq in Hf. apply Hf. rewrite Hd1.
  apply elem_of_union_l, elem_of_singleton. reflexivity.
Qed.

Lemma projection_cache_misses_on_user_schema :
  exists st1 st2 c1 c2,
    call_unknown_allowed empty_state = (st1, Ok c1) /\
    call_unknown_allowed st1 = (st2, Ok c2) /\ c1 <> c2.
Proof.
  exact (projection_cache_misses_on_equal_arguments "UserSchema" MaSchema
           [("name", Field "String" required_field);
            ("tags", ListField optional_field (Field "String" optional_field))]
           false eq_refl).
Defined.

End CacheProperties.

(** ** Rounding, seen on the time line *)

Module RoundingOnTheTimeLine.
Import Calendar DateTime DateTimeFacts.

Lemma round_thousands_shift k us :
  round_thousands (k * 1000000 + us) = k * 1000000 + round_thousands us.
Proof.
  unfold round_thousands.
  replace ((k * 1000000 + us) / 1000) with (us / 1000 + 2 * (k * 500)) by zdiv.
  replace ((k * 1000000 + us) mod 1000) with (us mod 1000) by zdiv.
  rewrite Z.even_add_mul_2.
  split_ifs; lia.
Qed.

Lemma round_thousands_monotone a b :
  a <= b -> round_thousands a <= round_thousands b.
Proof.
  intros Hab. unfold round_thousands.
  destruct (Z.eq_dec (a / 1000) (b / 1000)) as [E | E].
  - rewrite E. split_ifs; zdiv.
  - assert (a / 1000 + 1 <= b / 1000) by zdiv.
    split_ifs; zdiv.
Qed.

Lemma round_instant v r off :
  valid_datetime v = true -> _round_to_millisecond v = Ok r ->
  valid_datetime r = true /\ tzinfo r = tzinfo v /\
  instant_of r off = round_thousands (instant_of v off).
Proof.
  intros Hv Hr.
  destruct (valid_datetime_fields v Hv) as (_ & _ & _ & _ & Hus & _).
  pose proof (round_thousands_range _ Hus) as Hm.
  unfold instant_of at 2. rewrite round_thousands_shift.
  unfold _round_to_millisecond in Hr.
  destruct (round_thousands (microsecond v) =? 1000000) eqn:E.
  - apply Z.eqb_eq in E.
    assert (Hv0 : valid_datetime (replace_microsecond v 0) = true)
      by (apply replace_microsecond_valid; [assumption | lia]).
    destruct (add_one_second_spec _ _ Hv0 Hr) as (Hvr & Hs & Hu & Htz).
    split; [assumption |]. split; [exact Htz |].
    unfold instant_of. rewrite Hs, Hu, E. unfold seconds_of. simpl. lia.
  - apply Z.eqb_neq in E. inversion Hr; subst r; clear Hr.
    split; [apply replace_microsecond_valid; [assumption | lia] |].
    split; [reflexivity |]. reflexivity.
Qed.





End RoundingOnTheTimeLine.

(** ** Reference fields: what deserialization returns, and storage *)

Module ReferenceStorage.
Import Bson References ReferenceProperties.

Section Single.
Variable retrieve_document : pyval -> result DocCls.
Variable super_deserialize : pyval -> result pyval.

Local Abbreviation deserialize :=
  (ReferenceField_deserialize retrieve_document super_deserialize).

Lemma issubclass_refl c : issubclass c c = true.
Proof.
  unfold issubclass. apply bool_decide_eq_true_2. apply elem_of_cons. now left.
Qed.

Lemma document_cls_resolves self self' T :
  document_cls retrieve_document self = (self', Ok T) ->
  _document_cls self' = Some T /\
  ref_reference_cls self' = ref_reference_cls self /\
  ref_allow_none self' = ref_allow_none self.
Proof.
  unfold document_cls. destruct (_document_cls self) as [c |] eqn:E.
  - intros H. inversion H; subst. auto.
  - destruct (retrieve_document (document self)) as [c | e]; intros H;
      inversion H; subst. simpl. auto.
Qed.

Lemma document_cls_of_resolved self T :
  _document_cls self = Some T ->
  document_cls retrieve_document self = (self, Ok T).
Proof. intros H. unfold document_cls. rewrite H. reflexivity. Qed.

Lemma wrap_reference_returns self value self' r :
  wrap_reference retrieve_document super_deserialize self value = (self', Ok r) ->
  exists T x, _document_cls self' = Some T /\
    r = PReference (ref_reference_cls self') T x /\
    ref_reference_cls self' = ref_reference_cls self.
Proof.
  unfold wrap_reference. destruct (super_deserialize value) as [x | e];
    [| intros H; inversion H].
  destruct (document_cls retrieve_document self) as [self1 [T | e]] eqn:Hd;
    simpl; intros H; inversion H; subst.
  destruct (document_cls_resolves _ _ _ Hd) as (Hc & Hrc & _).
  exists T, x. auto.
Qed.

(** A reference the field returned, handed to the field again. *)
Lemma deserialize_own_reference self T x :
  _document_cls self = Some T ->
  deserialize self (PReference (ref_reference_cls self) T x)
  = (self, Ok (PReference (ref_reference_cls self) T x)).
Proof.
  intros Hc. unfold ReferenceField_deserialize.
  rewrite (document_cls_of_resolved _ _ Hc). simpl.
  rewrite bool_decide_eq_true_2 by reflexivity. simpl.
  rewrite issubclass_refl. reflexivity.
Qed.

(** What a successful call returns, and the state it leaves: [None] for
    [None], otherwise a reference to the class the field is now bound
    to, of the field's reference class or a subclass of it. *)
Lemma deserialize_returns self value self' r :
  deserialize self value = (self', Ok r) ->
  (value = PNone /\ r = PNone /\ self' = self) \/
  (exists cls T pk, r = PReference cls T pk /\
     _document_cls self' = Some T /\
     issubclass cls (ref_reference_cls self') = true).
Proof.
  intros H.
  assert (Hwrap : forall s v,
            wrap_reference retrieve_document super_deserialize s v = (self', Ok r) ->
            exists cls T pk, r = PReference cls T pk /\
              _document_cls self' = Some T /\
              issubclass cls (ref_reference_cls self') = true).
  { intros s v Hw.
    destruct (wrap_reference_returns _ _ _ _ Hw) as (T & x & Hc & -> & _).
    exists (ref_reference_cls self'), T, x. auto using issubclass_refl. }
  unfold ReferenceField_deserialize in H.
  destruct value as [| | b | n | s | o | coll id | cls dcls pk | cls created pk
                     | cls data | l];
    try (right; destruct (document_cls retrieve_document self) as [s1 [dc | e]];
         [eapply Hwrap; eassumption | inversion H]; fail).
  - inversion H; subst. left. auto.
  - right. destruct (_document_cls self) as [c |]; [| inversion H].
    destruct (negb (bool_decide (collection_name c = coll)));
      [inversion H | eapply Hwrap; eassumption].
  - right.
    destruct (document_cls retrieve_document self) as [s1 [dc | e]] eqn:Hd;
      simpl in H; [| inversion H].
    destruct (document_cls_resolves _ _ _ Hd) as (Hc & Hrc & _).
    destruct (bool_decide (dcls = dc)) eqn:Edc; simpl in H; [| inversion H].
    apply bool_decide_eq_true_1 in Edc. subst dcls.
    destruct (issubclass cls (ref_reference_cls s1)) eqn:Esub; simpl in H;
      inversion H; subst.
    + exists cls, dc, pk. auto.
    + exists (ref_reference_cls self'), dc, pk. auto using issubclass_refl.
  - right. destruct (document_cls retrieve_document self) as [s1 [dc | e]];
      [| inversion H].
    destruct (issubclass (doc_class cls) (doc_class dc)); [| inversion H].
    destruct (negb created); [inversion H | eapply Hwrap; eassumption].
Qed.

End Single.

(** X3: what [ReferenceField._deserialize] returns it accepts again and
    returns unchanged, whatever the input it came from ([None], a
    [DBRef], a reference, a created document or a raw identifier) and
    without a second look at the registry or at the parent's parser. *)
Theorem reference_deserialize_idempotent
    (retrieve_document retrieve_document' : pyval -> result DocCls)
    (super_deserialize super_deserialize' : pyval -> result pyval)
    (self self' : ReferenceField) (value r : pyval) :
  ReferenceField_deserialize retrieve_document super_deserialize self value
  = (self', Ok r) ->
  ReferenceField_deserialize retrieve_document' super_deserialize' self' r
  = (self', Ok r).
Proof.
  intros H.
  assert (Hwrap : forall s v,
            wrap_reference retrieve_document super_deserialize s v = (self', Ok r) ->
            ReferenceField_deserialize retrieve_document' super_deserialize' self' r
            = (self', Ok r)).
  { intros s v Hw.
    destruct (wrap_reference_returns _ _ _ _ _ _ Hw) as (T & x & Hc & -> & _).
    now apply deserialize_own_reference. }
  unfold ReferenceField_deserialize in H.
  destruct value as [| | b | n | s | o | coll id | cls dcls pk | cls created pk
                     | cls data | l].
  - inversion H; subst. reflexivity.
  - destruct (document_cls retrieve_document self) as [s1 [dc | e]];
      [eapply Hwrap; eassumption | inversion H].
  - destruct (document_cls retrieve_document self) as [s1 [dc | e]];
      [eapply Hwrap; eassumption | inversion H].
  - destruct (document_cls retrieve_document self) as [s1 [dc | e]];
      [eapply Hwrap; eassumption | inversion H].
  - destruct (document_cls retrieve_document self) as [s1 [dc | e]];
      [eapply Hwrap; eassumption | inversion H].
  - destruct (document_cls retrieve_document self) as [s1 [dc | e]];
      [eapply Hwrap; eassumption | inversion H].
  - destruct (_document_cls self) as [c |]; [| inversion H].
    destruct (negb (bool_decide (collection_name c = coll)));
      [inversion H | eapply Hwrap; eassumption].
  - destruct (document_cls retrieve_document self) as [s1 [dc | e]] eqn:Hd;
      simpl in H; [| inversion H].
    destruct (document_cls_resolves _ _ _ _ Hd) as (Hc & Hrc & _).
    destruct (bool_decide (dcls = dc)) eqn:Edc; simpl in H; [| inversion H].
    apply bool_decide_eq_true_1 in Edc. subst dcls.
    destruct (issubclass cls (ref_reference_cls s1)) eqn:Esub; simpl in H;
      inversion H; subst.
    + unfold ReferenceField_deserialize.
      rewrite (document_cls_of_resolved _ _ _ Hc). simpl.
      rewrite bool_decide_eq_true_2 by reflexivity. simpl.
      rewrite Esub. reflexivity.
    + now apply deserialize_own_reference.
  - destruct (document_cls retrieve_document self) as [s1 [dc | e]];
      [| inversion H].
    destruct (issubclass (doc_class cls) (doc_class dc)); [| inversion H].
    destruct (negb created); [inversion H | eapply Hwrap; eassumption].
  - destruct (document_cls retrieve_document self) as [s1 [dc | e]];
      [eapply Hwrap; eassumption | inversion H].
  - destruct (document_cls retrieve_document self) as [s1 [dc | e]];
      [eapply Hwrap; eassumption | inversion H].
Qed.

Lemma reference_deserialize_idempotent_Doc :
  ReferenceField_deserialize (lookup_document registry)
    (parse_identifier generated_oid) ref_to_Doc
    (PStr "5672d47b1d41c88dcd37ef05")
  = (set_document_cls ref_to_Doc Doc,
     Ok (PReference Reference Doc (PObjectId an_oid))) /\
  ReferenceField_deserialize (lookup_document ∅) (fun _ => Raise TypeError)
    (set_document_cls ref_to_Doc Doc) (PReference Reference Doc (PObjectId an_oid))
  = (set_document_cls ref_to_Doc Doc,
     Ok (PReference Reference Doc (PObjectId an_oid))).
Proof.
  assert (H : ReferenceField_deserialize (lookup_document registry)
                (parse_identifier generated_oid) ref_to_Doc
                (PStr "5672d47b1d41c88dcd37ef05")
              = (set_document_cls ref_to_Doc Doc,
                 Ok (PReference Reference Doc (PObjectId an_oid))))
    by (vm_compute; reflexivity).
  split; [exact H |].
  exact (reference_deserialize_idempotent _ (lookup_document ∅) _
           (fun _ => Raise TypeError) _ _ _ _ H).
Defined.

(** X4: storage round trip of a reference field. A reference that
    [ReferenceField._deserialize] returned is stored as its identifier
    alone, and loading that identifier gives back a reference to the
    same document class with the same identifier, of the field's own
    reference class, without asking the registry again. *)
Theorem reference_storage_round_trip
    (retrieve_document retrieve_document' : pyval -> result DocCls)
    (super_deserialize : pyval -> result pyval)
    (self self' : ReferenceField) (value : pyval)
    (cls : pyclass) (T : DocCls) (pk : pyval) :
  ReferenceField_deserialize retrieve_document super_deserialize self value
  = (self', Ok (PReference cls T pk)) ->
  pk <> PNone ->
  ReferenceField_serialize_to_mongo self' (PReference cls T pk) = Ok pk /\
  ReferenceField_deserialize_from_mongo retrieve_document' self' pk
  = (self', Ok (PReference (ref_reference_cls self') T pk)).
Proof.
  intros H Hpk. split; [reflexivity |].
  destruct (deserialize_returns _ _ _ _ _ _ H)
    as [(_ & Hr & _) | (c & T' & x & Hr & Hc & _)]; [discriminate Hr |].
  inversion Hr; subst.
  unfold ReferenceField_deserialize_from_mongo.
  rewrite (document_cls_of_resolved retrieve_document' _ _ Hc). simpl.
  destruct x; try reflexivity. now destruct Hpk.
Qed.

Lemma reference_storage_round_trip_Doc :
  ReferenceField_serialize_to_mongo (set_document_cls ref_to_Doc Doc)
    (PReference Reference Doc (PObjectId an_oid)) = Ok (PObjectId an_oid) /\
  ReferenceField_deserialize_from_mongo (lookup_document ∅)
    (set_document_cls ref_to_Doc Doc) (PObjectId an_oid)
  = (set_document_cls ref_to_Doc Doc,
     Ok (PReference Reference Doc (PObjectId an_oid))).
Proof.
  assert (H : ReferenceField_deserialize (lookup_document registry)
                (parse_identifier generated_oid) ref_to_Doc
                (PStr "5672d47b1d41c88dcd37ef05")
              = (set_document_cls ref_to_Doc Doc,
                 Ok (PReference Reference Doc (PObjectId an_oid))))
    by (vm_compute; reflexivity).
  assert (Hpk : PObjectId an_oid <> PNone) by discriminate.
  exact (reference_storage_round_trip _ (lookup_document ∅) _ _ _ _ _ _ _ H Hpk).
Defined.

(** X5: a [DBRef] given to [ReferenceField._deserialize]. While the
    field has not resolved its document class the call raises
    [AttributeError], whatever the registry holds. Once a call has
    returned a reference, a [DBRef] on the collection of the document
    class has its identifier parsed by the parent and wrapped, and a
    [DBRef] on another collection raises [KeyError] from the message's
    [format] call; the field is left as it was in both cases. *)
Theorem reference_dbref_needs_resolved_class
    (retrieve_document : pyval -> result DocCls)
    (super_deserialize : pyval -> result pyval)
    (self : ReferenceField) (collection : string) (id : pyval) :
  (_document_cls self = None ->
   ReferenceField_deserialize retrieve_document super_deserialize self
     (PDBRef collection id) = (self, Raise AttributeError)) /\
  (forall value self' r,
     ReferenceField_deserialize retrieve_document super_deserialize self value
     = (self', Ok r) ->
     r <> PNone ->
     exists T, _document_cls self' = Some T /\
       ReferenceField_deserialize retrieve_document super_deserialize self'
         (PDBRef collection id)
       = (self',
          if bool_decide (collection_name T = collection)
          then let* x := super_deserialize id in
               Ok (PReference (ref_reference_cls self') T x)
          else Raise (KeyError "collection"))).
Proof.
  split.
  - intros Hc. unfold ReferenceField_deserialize. rewrite Hc. reflexivity.
  - intros value self' r H Hr.
    destruct (deserialize_returns _ _ _ _ _ _ H)
      as [(_ & Hn & _) | (c & T & x & _ & Hc & _)]; [contradiction |].
    exists T. split; [exact Hc |].
    unfold ReferenceField_deserialize. rewrite Hc.
    destruct (bool_decide (collection_name T = collection)); simpl;
      [| reflexivity].
    unfold wrap_reference.
    destruct (super_deserialize id) as [y | e]; [| reflexivity].
    rewrite (document_cls_of_resolved _ _ _ Hc). reflexivity.
Qed.

Lemma reference_dbref_on_doc_collection :
  ReferenceField_deserialize (lookup_document registry)
    (parse_identifier generated_oid) ref_to_Doc
    (PDBRef "doc" (PStr "5672d47b1d41c88dcd37ef05"))
  = (ref_to_Doc, Raise AttributeError) /\
  exists T, _document_cls (set_document_cls ref_to_Doc Doc) = Some T /\
    ReferenceField_deserialize (lookup_document registry)
      (parse_identifier generated_oid) (set_document_cls ref_to_Doc Doc)
      (PDBRef "doc" (PStr "5672d47b1d41c88dcd37ef05"))
    = (set_document_cls ref_to_Doc Doc,
       if bool_decide (collection_name T = "doc")
       then let* x := parse_identifier generated_oid
                        (PStr "5672d47b1d41c88dcd37ef05") in
            Ok (PReference (ref_reference_cls (set_document_cls ref_to_Doc Doc)) T x)
       else Raise (KeyError "collection")).
Proof.
  assert (H : ReferenceField_deserialize (lookup_document registry)
                (parse_identifier generated_oid) ref_to_Doc
                (PStr "5672d47b1d41c88dcd37ef05")
              = (set_document_cls ref_to_Doc Doc,
                 Ok (PReference Reference Doc (PObjectId an_oid))))
    by (vm_compute; reflexivity).
  assert (Hr : PReference Reference Doc (PObjectId an_oid) <> PNone)
    by discriminate.
  pose proof (reference_dbref_needs_resolved_class (lookup_document registry)
                (parse_identifier generated_oid) ref_to_Doc "doc"
                (PStr "5672d47b1d41c88dcd37ef05")) as [Ha Hb].
  split; [exact (Ha eq_refl) | exact (Hb _ _ _ H Hr)].
Defined.

(** X6: storage round trip of a generic reference. The reference is
    stored as a new dictionary with exactly the keys [_id] and [_cls],
    no dictionary that existed before is touched, and loading the new
    dictionary gives back the reference, of the field's reference
    class, provided the name of the document class is registered for
    that class; when the name is not registered the load fails with a
    [ValidationError]. *)
Theorem generic_reference_storage_round_trip
    (retrieve_document : pyval -> result DocCls)
    (self : GenericReferenceField) (h : heap)
    (cls : pyclass) (T : DocCls) (pk : pyval) :
  exists l,
    h !! l = None /\
    GenericReferenceField_serialize_to_mongo self h (PReference cls T pk)
    = (<[l := {["_id" := pk; "_cls" := PStr (cls_name (doc_class T))]}]> h,
       Ok (PDict l)) /\
    (retrieve_document (PStr (cls_name (doc_class T))) = Ok T ->
     GenericReferenceField_deserialize_from_mongo retrieve_document self
       (<[l := {["_id" := pk; "_cls" := PStr (cls_name (doc_class T))]}]> h)
       (PDict l)
     = Ok (PReference (reference_cls self) T pk)) /\
    (forall e, retrieve_document (PStr (cls_name (doc_class T))) = Raise e ->
       is_NotRegisteredDocumentError e = true ->
       GenericReferenceField_deserialize_from_mongo retrieve_document self
         (<[l := {["_id" := pk; "_cls" := PStr (cls_name (doc_class T))]}]> h)
         (PDict l)
       = Raise (ValidationError_str
                  (msg_unknown_document (PStr (cls_name (doc_class T)))))).
Proof.
  exists (fresh (dom h)).
  assert (Hfresh : h !! fresh (dom h) = None)
    by (apply not_elem_of_dom, is_fresh).
  split; [exact Hfresh |]. split; [reflexivity |].
  unfold GenericReferenceField_deserialize_from_mongo, subscript.
  rewrite lookup_insert_eq. simpl. unfold getitem.
  rewrite lookup_insert_ne by discriminate. rewrite lookup_insert_eq.
  rewrite lookup_singleton_eq. simpl.
  unfold GenericReferenceField_document_cls.
  split.
  - intros Hreg. rewrite Hreg. reflexivity.
  - intros e Hreg He. rewrite Hreg, He. reflexivity.
Qed.

Lemma generic_reference_storage_round_trip_Doc :
  exists l,
    (∅ : heap) !! l = None /\
    GenericReferenceField_serialize_to_mongo gref ∅
      (PReference Reference Doc (PObjectId an_oid))
    = (<[l := {["_id" := PObjectId an_oid; "_cls" := PStr "Doc"]}]> ∅,
       Ok (PDict l)) /\
    GenericReferenceField_deserialize_from_mongo (lookup_document registry) gref
      (<[l := {["_id" := PObjectId an_oid; "_cls" := PStr "Doc"]}]> ∅) (PDict l)
    = Ok (PReference Reference Doc (PObjectId an_oid)).
Proof.
  destruct (generic_reference_storage_round_trip (lookup_document registry)
              gref ∅ Reference Doc (PObjectId an_oid))
    as (l & Hl & Hs & Hd & _).
  exists l. split; [exact Hl |]. split; [exact Hs |].
  apply Hd. reflexivity.
Defined.


End ReferenceStorage.

(** ** The generic reference field: the object side *)

Module GenericReferenceDump.
Import Bson References.

Lemma hex_char_digit d :
  (d < 16)%N ->
  hex_digit (hex_char d) = Some d /\ is_ascii_space (hex_char d) = false.
Proof.
  intros Hd. rewrite <- (N2Nat.id d).
  assert (Hn : (N.to_nat d < 16)%nat) by lia.
  clear Hd. revert Hn. generalize (N.to_nat d). intros n Hn.
  do 16 (destruct n as [| n]; [split; reflexivity |]). lia.
Qed.

Lemma fromhex_hexlify bytes :
  Forall (fun b => (b < 256)%N) bytes -> fromhex (hexlify bytes) = Some bytes.
Proof.
  induction 1 as [| b bytes Hb _ IH]; [reflexivity |].
  assert (Hhi : (b / 16 < 16)%N) by (apply N.Div0.div_lt_upper_bound; lia).
  assert (Hlo : (b mod 16 < 16)%N) by (apply N.mod_lt; lia).
  destruct (hex_char_digit _ Hhi) as [Hd1 Hs1].
  destruct (hex_char_digit _ Hlo) as [Hd2 _].
  cbn [hexlify fromhex]. rewrite Hs1, Hd1, Hd2, IH.
  f_equal. f_equal. rewrite (N.div_mod b 16) at 3 by lia. reflexivity.
Qed.

Lemma length_hexlify bytes : String.length (hexlify bytes) = (2 * length bytes)%nat.
Proof. induction bytes as [| b bytes IH]; simpl; [reflexivity | rewrite IH; lia]. Qed.

Lemma to_bytes_length n x : length (to_bytes n x) = n.
Proof.
  revert x. induction n as [| n IH]; intros x; simpl; [reflexivity |].
  rewrite length_app, IH. simpl. lia.
Qed.

Lemma to_bytes_range n x : Forall (fun b => (b < 256)%N) (to_bytes n x).
Proof.
  revert x. induction n as [| n IH]; intros x; simpl; [constructor |].
  apply Forall_app. split; [apply IH |].
  constructor; [apply N.mod_lt; lia | constructor].
Qed.

Lemma from_bytes_to_bytes n x :
  from_bytes (to_bytes n x) = (x mod 256 ^ N.of_nat n)%N.
Proof.
  unfold from_bytes. revert x. induction n as [| n IH]; intros x.
  - simpl. now rewrite N.mod_1_r.
  - cbn [to_bytes]. rewrite fold_left_app. cbn [fold_left]. rewrite IH.
    rewrite Nat2N.inj_succ, N.pow_succ_r'.
    rewrite N.Div0.mod_mul_r. lia.
Qed.

(** An identifier read back from its text. *)
Lemma ObjectId_of_str generated o :
  (binary o < 2 ^ 96)%N ->
  ObjectId generated (PStr (ObjectId_str o)) = Ok o.
Proof.
  intros Ho. unfold ObjectId, ObjectId_str.
  rewrite length_hexlify, to_bytes_length. simpl Nat.eqb.
  rewrite (fromhex_hexlify _ (to_bytes_range 12 (binary o))).
  rewrite from_bytes_to_bytes.
  rewrite N.mod_small by exact Ho. destruct o. reflexivity.
Qed.

(** X7: the dump of a generic reference loads back. For a reference
    whose identifier is an [ObjectId] (12 bytes),
    [GenericReferenceField._serialize] makes a new dictionary with
    exactly the keys [id], the 24 hexadecimal digits of the identifier,
    and [cls], the name of the document class;
    [GenericReferenceField._deserialize] of that dictionary returns the
    reference again, of the field's reference class, when the name is
    registered for the class. *)
Theorem generic_reference_dump_loads_back
    (str : pyval -> string) (retrieve_document : pyval -> result DocCls)
    (generated : oid) (self : GenericReferenceField) (h : heap)
    (cls : pyclass) (T : DocCls) (o : oid) :
  (forall o, str (PObjectId o) = ObjectId_str o) ->
  (binary o < 2 ^ 96)%N ->
  retrieve_document (PStr (cls_name (doc_class T))) = Ok T ->
  exists l,
    h !! l = None /\
    GenericReferenceField_serialize str h (PReference cls T (PObjectId o))
    = (<[l := {["id" := PStr (ObjectId_str o);
                "cls" := PStr (cls_name (doc_class T))]}]> h, Ok (PDict l)) /\
    GenericReferenceField_deserialize retrieve_document generated self
      (<[l := {["id" := PStr (ObjectId_str o);
                "cls" := PStr (cls_name (doc_class T))]}]> h) (PDict l)
    = Ok (PReference (reference_cls self) T (PObjectId o)).
Proof.
  intros Hstr Ho Hreg. exists (fresh (dom h)).
  split; [apply not_elem_of_dom, is_fresh |].
  split; [unfold GenericReferenceField_serialize; simpl; rewrite Hstr; reflexivity |].
  unfold GenericReferenceField_deserialize.
  rewrite lookup_insert_eq. simpl default.
  rewrite bool_decide_eq_true_2.
  2:{ rewrite dom_insert_L, dom_singleton_L.
      apply set_eq. intros k. rewrite !elem_of_union, !elem_of_singleton. tauto. }
  simpl negb. cbv iota. unfold getitem.
  rewrite lookup_insert_eq. cbn [bind].
  rewrite (ObjectId_of_str generated o Ho). cbn [bind].
  rewrite lookup_insert_ne by discriminate. rewrite lookup_singleton_eq.
  cbn [bind]. unfold GenericReferenceField_document_cls. rewrite Hreg.
  reflexivity.
Qed.

Lemma generic_reference_dump_loads_back_Doc :
  exists l,
    (∅ : heap) !! l = None /\
    GenericReferenceField_serialize str_of ∅
      (PReference Reference Doc (PObjectId an_oid))
    = (<[l := {["id" := PStr (ObjectId_str an_oid); "cls" := PStr "Doc"]}]> ∅,
       Ok (PDict l)) /\
    GenericReferenceField_deserialize (lookup_document registry) generated_oid gref
      (<[l := {["id" := PStr (ObjectId_str an_oid); "cls" := PStr "Doc"]}]> ∅)
      (PDict l)
    = Ok (PReference Reference Doc (PObjectId an_oid)).
Proof.
  apply (generic_reference_dump_loads_back str_of (lookup_document registry)
           generated_oid gref ∅ Reference Doc an_oid).
  - intros o. reflexivity.
  - vm_compute. reflexivity.
  - reflexivity.
Defined.

(** The text of the sample identifier. *)
Example ObjectId_str_sample : ObjectId_str an_oid = "5672d47b1d41c88dcd37ef05".
Proof. vm_compute. reflexivity. Qed.

(** X8: what [GenericReferenceField._deserialize] returns it accepts
    again and returns unchanged, whatever the input ([None], a
    reference, a created document or a record) and whatever the
    registry and the heap of the second call. *)
Theorem generic_reference_deserialize_idempotent
    (retrieve_document retrieve_document' : pyval -> result DocCls)
    (generated generated' : oid) (self : GenericReferenceField)
    (h h' : heap) (value r : pyval) :
  GenericReferenceField_deserialize retrieve_document generated self h value = Ok r ->
  GenericReferenceField_deserialize retrieve_document' generated' self h' r = Ok r.
Proof.
  assert (Hown : forall T x,
            GenericReferenceField_deserialize retrieve_document' generated' self h'
              (PReference (reference_cls self) T x)
            = Ok (PReference (reference_cls self) T x)).
  { intros T x. simpl.
    unfold issubclass. rewrite bool_decide_eq_true_2; [reflexivity |].
    apply elem_of_cons. now left. }
  unfold GenericReferenceField_deserialize at 1.
  destruct value as [| | b | n | s | o | coll id | cls dcls pk | cls created pk
                     | cls data | l]; try discriminate.
  - intros H. inversion H. reflexivity.
  - destruct (issubclass cls (reference_cls self)) eqn:E; simpl;
      intros H; inversion H; subst.
    + simpl. rewrite E. reflexivity.
    + apply Hown.
  - destruct created; simpl; intros H; inversion H. apply Hown.
  - destruct (bool_decide _); simpl; [| discriminate].
    destruct (getitem _ "id") as [id |]; simpl; [| discriminate].
    destruct (ObjectId generated id) as [o | e]; simpl;
      [| destruct (is_ValueError e); discriminate].
    destruct (getitem _ "cls") as [c |]; simpl; [| discriminate].
    destruct (GenericReferenceField_document_cls retrieve_document c) as [T | e];
      simpl; [| discriminate].
    intros H. inversion H. apply Hown.
Qed.

Lemma generic_reference_deserialize_idempotent_Doc :
  GenericReferenceField_deserialize (lookup_document ∅) generated_oid gref ∅
    (PReference Reference Doc (PObjectId an_oid))
  = Ok (PReference Reference Doc (PObjectId an_oid)).
Proof.
  apply (generic_reference_deserialize_idempotent (lookup_document registry)
           (lookup_document ∅) generated_oid generated_oid gref
           (heap_with record_good) ∅ (PDict 1%positive)).
  vm_compute. reflexivity.
Defined.

End GenericReferenceDump.

(** ** The storage codec of the container fields *)

Module ContainerStorageProperties.
Import Scalar ContainerStorage.

Lemma comprehension_Ok {X Y : Type} (f : X -> result Y) l ys :
  comprehension f l = Ok ys <-> Forall2 (fun x y => f x = Ok y) l ys.
Proof.
  revert ys. induction l as [| x l IH]; intros ys; simpl.
  - split.
    + intros H. inversion H. constructor.
    + intros H. inversion H. reflexivity.
  - split.
    + destruct (f x) as [y | e] eqn:Ex; simpl; [| discriminate].
      destruct (comprehension f l) as [ys' | e] eqn:El; simpl; [| discriminate].
      intros H. inversion H; subst. constructor; [assumption |]. now apply IH.
    + intros H. inversion H as [| ? y ? ys' Hx Hl]; subst.
      rewrite Hx. simpl. apply IH in Hl. rewrite Hl. reflexivity.
Qed.

Lemma comprehension_Raise {X Y : Type} (f : X -> result Y) l e :
  comprehension f l = Raise e <->
  exists i x, l !! i = Some x /\ f x = Raise e /\
    forall j x', (j < i)%nat -> l !! j = Some x' -> exists y, f x' = Ok y.
Proof.
  induction l as [| x l IH]; simpl.
  - split; [discriminate |]. intros (i & x & Hi & _). destruct i; discriminate Hi.
  - split.
    + destruct (f x) as [y | e'] eqn:Ex; simpl.
      * destruct (comprehension f l) as [ys | e'] eqn:El; simpl; [discriminate |].
        intros H. inversion H; subst e'.
        destruct (proj1 IH eq_refl) as (i & x0 & Hi & Hx0 & Hbefore).
        exists (S i), x0. split; [exact Hi |]. split; [exact Hx0 |].
        intros [| j] x' Hj Hl; simpl in Hl.
        -- inversion Hl; subst. eauto.
        -- apply (Hbefore j); [lia | exact Hl].
      * intros H. inversion H; subst e'. exists 0%nat, x.
        split; [reflexivity |]. split; [exact Ex |]. intros j x' Hj. lia.
    + intros (i & x0 & Hi & Hx0 & Hbefore). destruct i as [| i]; simpl in Hi.
      * inversion Hi; subst. rewrite Hx0. reflexivity.
      * destruct (Hbefore 0%nat x ltac:(lia) eq_refl) as [y Hy]. rewrite Hy. simpl.
        assert (Hl : comprehension f l = Raise e).
        { apply IH. exists i, x0. split; [exact Hi |]. split; [exact Hx0 |].
          intros j x' Hj Hl. apply (Hbefore (S j)); [lia | exact Hl]. }
        rewrite Hl. reflexivity.
Qed.

Section Lists.
Context {F A B : Type} `{Codec F A B}.

(** X9: [ListField.serialize_to_mongo] works element by element. It
    returns a list exactly when the inner field stores every element,
    and then the stored list has the encodings in the same order (so the
    same length); it raises [e] exactly when the inner field raises [e]
    on some element and stores every element before it: the first
    failure is the one reported. *)
Theorem list_storage_elementwise (self : ListField F) (l : list (slot A)) :
  (forall stored,
     serialize_to_mongo self (Val l) = Ok stored <->
     exists ys, stored = Val ys /\
       Forall2 (fun x y => serialize_to_mongo (inner self) x = Ok y) l ys) /\
  (forall e,
     serialize_to_mongo self (Val l) = Raise e <->
     exists i x, l !! i = Some x /\
       serialize_to_mongo (inner self) x = Raise e /\
       forall j x', (j < i)%nat -> l !! j = Some x' ->
         exists y, serialize_to_mongo (inner self) x' = Ok y).
Proof.
  split.
  - intros stored. cbn [serialize_to_mongo _serialize_to_mongo ListField_codec].
    destruct (comprehension (serialize_to_mongo (inner self)) l) as [ys | e] eqn:E;
      simpl.
    + apply comprehension_Ok in E. split.
      * intros Hs. inversion Hs. eauto.
      * intros (ys' & -> & Hall). f_equal. f_equal.
        apply comprehension_Ok in E, Hall. congruence.
    + split; [discriminate |]. intros (ys' & _ & Hall).
      apply comprehension_Ok in Hall. congruence.
  - intros e. cbn [serialize_to_mongo _serialize_to_mongo ListField_codec].
    rewrite <- comprehension_Raise.
    destruct (comprehension (serialize_to_mongo (inner self)) l) as [ys | e'];
      simpl; split; congruence.
Qed.

(** X10: storage round trip of a list field. A list whose elements all
    come back from the inner field's round trip comes back itself; on
    the way the absent values collapse: [missing] is stored as
    [missing] and loaded as the empty list, and [None] on a field that
    does not allow it is stored as [missing] and loaded as the empty
    list too. *)
Theorem list_storage_round_trip (self : ListField F) (l : list (slot A)) :
  (Forall (fun x => round_trip (inner self) x = Ok x) l ->
   round_trip self (Val l) = Ok (Val l)) /\
  round_trip self Missing = Ok (Val []) /\
  round_trip self PyNone
  = Ok (if list_allow_none self then PyNone else Val []).
Proof.
  split; [| split].
  - intros Hall.
    assert (Henc : exists ys,
               Forall2 (fun x y => serialize_to_mongo (inner self) x = Ok y) l ys /\
               Forall2 (fun y x => deserialize_from_mongo (inner self) y = Ok x) ys l).
    { induction Hall as [| x l Hx _ IH].
      - exists []. split; constructor.
      - destruct IH as (ys & H1 & H2). unfold round_trip in Hx.
        destruct (serialize_to_mongo (inner self) x) as [y | e] eqn:Ey;
          simpl in Hx; [| discriminate].
        exists (y :: ys). split; constructor; assumption. }
    destruct Henc as (ys & H1 & H2).
    apply comprehension_Ok in H1. unfold round_trip.
    cbn [serialize_to_mongo _serialize_to_mongo ListField_codec].
    rewrite H1. simpl.
    destruct ys as [| y ys].
    + inversion H2. destruct (list_allow_none self); reflexivity.
    + apply comprehension_Ok in H2.
      cbn [deserialize_from_mongo _deserialize_from_mongo ListField_codec].
      rewrite H2. reflexivity.
  - reflexivity.
  - unfold round_trip. simpl. destruct (list_allow_none self) eqn:E; simpl.
    + rewrite E. reflexivity.
    + reflexivity.
Qed.

End Lists.

Lemma list_storage_round_trip_strings :
  round_trip list_of_strings (Val [Val "a"; PyNone; Val "c"])
  = Ok (Val [Val "a"; PyNone; Val "c"]).
Proof.
  apply (list_storage_round_trip list_of_strings [Val "a"; PyNone; Val "c"]).
  repeat constructor.
Defined.

Lemma setitem_new {K V : Type} `{EqDecision K} (d : list (K * V)) k v :
  k ∉ d.*1 -> setitem d k v = d ++ [(k, v)].
Proof.
  induction d as [| [k' v'] d IH]; simpl; intros Hk; [reflexivity |].
  apply not_elem_of_cons in Hk as [Hne Hk].
  destruct (decide (k' = k)) as [-> | _]; [contradiction |].
  rewrite IH by assumption. reflexivity.
Qed.

(** A comprehension whose keys are all new appends its items in order. *)
Lemma dict_comprehension_new {K V K' V' : Type} `{EqDecision K'}
    (fk : K -> result K') (fv : V -> result V') items items' acc :
  Forall2 (fun kv kv' => fk kv.1 = Ok kv'.1 /\ fv kv.2 = Ok kv'.2) items items' ->
  NoDup (acc ++ items').*1 ->
  dict_comprehension fk fv items acc = Ok (acc ++ items').
Proof.
  intros Hall. revert acc.
  induction Hall as [| [k v] [k' v'] items items' [Hk Hv] _ IH]; intros acc Hnd.
  - simpl. rewrite app_nil_r. reflexivity.
  - simpl in *. rewrite Hk, Hv. simpl.
    rewrite setitem_new.
    + rewrite IH; rewrite <- app_assoc; [reflexivity | exact Hnd].
    + rewrite fmap_app in Hnd. apply NoDup_app in Hnd as (_ & Hdisj & _).
      intros Hin. apply (Hdisj k' Hin). simpl. apply elem_of_cons. now left.
Qed.

Section Dicts.
Context {KF VF U : Type} `{EqDecision U}
  {key_codec : Codec KF U U} {value_codec : Codec VF U U}.

(** The round trip of a key or of a value through its field, if any. *)
Lemma round_trip_with (F : Type) (c : Codec F U U) (field : option F) x :
  (let* y := serialize_with field x in deserialize_with field y) = Ok x ->
  exists y, serialize_with field x = Ok y /\ deserialize_with field y = Ok x.
Proof.
  destruct (serialize_with field x) as [y | e]; simpl; [eauto | discriminate].
Qed.

(** X11: storage round trip of a dict field. A dictionary whose keys and
    values all come back from the round trip of the key field and of the
    value field (a field that is not set passes them as they are) comes
    back itself, the items in the same order: no two keys are merged on
    the way. [missing], and [None] on a field that does not allow it,
    are loaded as the empty dictionary. *)
Theorem dict_storage_round_trip (self : DictField KF VF)
    (items : list (slot U * slot U)) :
  (NoDup items.*1 ->
   Forall (fun kv =>
             (let* k := serialize_with (key_field self) kv.1 in
              deserialize_with (key_field self) k) = Ok kv.1 /\
             (let* v := serialize_with (value_field self) kv.2 in
              deserialize_with (value_field self) v) = Ok kv.2) items ->
   round_trip self (Val items) = Ok (Val items)) /\
  round_trip self (Missing : slot (list (slot U * slot U))) = Ok (Val []) /\
  round_trip self (PyNone : slot (list (slot U * slot U)))
  = Ok (if dict_allow_none self then PyNone else Val []).
Proof.
  split; [| split].
  - intros Hnd Hall.
    assert (Henc : exists stored,
               Forall2 (fun kv kv' =>
                          serialize_with (key_field self) kv.1 = Ok kv'.1 /\
                          serialize_with (value_field self) kv.2 = Ok kv'.2)
                 items stored /\
               Forall2 (fun kv' kv =>
                          deserialize_with (key_field self) kv'.1 = Ok kv.1 /\
                          deserialize_with (value_field self) kv'.2 = Ok kv.2)
                 stored items).
    { clear Hnd. induction Hall as [| [k v] items [Hk Hv] _ IH].
      - exists []. split; constructor.
      - destruct IH as (stored & H1 & H2). simpl in Hk, Hv.
        destruct (round_trip_with _ _ _ _ Hk) as (k' & Hk1 & Hk2).
        destruct (round_trip_with _ _ _ _ Hv) as (v' & Hv1 & Hv2).
        exists ((k', v') :: stored). split; constructor; auto. }
    destruct Henc as (stored & H1 & H2).
    assert (Hnd' : NoDup stored.*1).
    { clear H1 Hall. revert Hnd.
      induction H2 as [| [k' v'] [k v] stored items [Hk _] Hrest IH];
        simpl; intros Hnd; [constructor |].
      apply NoDup_cons in Hnd as [Hk_new Hnd].
      apply NoDup_cons. split; [| now apply IH].
      intros Hin. apply Hk_new.
      apply list_elem_of_fmap in Hin as ([k2' v2'] & -> & Hin).
      apply list_elem_of_lookup in Hin as [i Hi].
      destruct (Forall2_lookup_l _ _ _ _ _ Hrest Hi) as ([k2 v2] & Hi2 & Hk2 & _).
      simpl in *. rewrite Hk in Hk2. inversion Hk2; subst.
      apply list_elem_of_fmap. exists (k2, v2). split; [reflexivity |].
      eapply list_elem_of_lookup_2. exact Hi2. }
    unfold round_trip.
    cbn [serialize_to_mongo _serialize_to_mongo DictField_codec].
    rewrite (dict_comprehension_new _ _ items stored [] H1 Hnd'). simpl.
    destruct stored as [| kv' stored].
    + inversion H2. destruct (dict_allow_none self); reflexivity.
    + cbn [deserialize_from_mongo _deserialize_from_mongo DictField_codec].
      rewrite (dict_comprehension_new _ _ (kv' :: stored) items [] H2 Hnd).
      reflexivity.
  - reflexivity.
  - unfold round_trip. simpl. destruct (dict_allow_none self) eqn:E; simpl.
    + rewrite E. reflexivity.
    + reflexivity.
Qed.

End Dicts.

Lemma dict_storage_round_trip_integers :
  round_trip dict_of_integers (Val [(Val 1, Val 10); (Val 2, PyNone)])
  = Ok (Val [(Val 1, Val 10); (Val 2, PyNone)]).
Proof.
  apply (dict_storage_round_trip dict_of_integers
           [(Val 1, Val 10); (Val 2, PyNone)]).
  - repeat constructor; intros Hin;
      repeat (apply elem_of_cons in Hin as [Hin | Hin]; [discriminate Hin |]);
      inversion Hin.
  - repeat constructor.
Defined.

(** Two keys that the key field stores alike are merged: the stored
    dictionary keeps the first key with the last value. *)
Example setitem_merges :
  setitem [(Val 1, Val 10); (Val 2, Val 20)] (Val 1) (Val 30)
  = [(Val 1, Val 30); (Val 2, Val 20)].
Proof. reflexivity. Qed.

End ContainerStorageProperties.

(** ** The embedded field: what it accepts again *)

Module EmbeddedFrame.
Import Embedded EmbeddedProperties.

Section Calls.
Variable retrieve_embedded_document : pyval -> result EmbCls.
Variable opts_retrieve_embedded_document : pyval -> result EmbCls.
Variable init : EmbCls -> gmap string pyval -> result (gmap string pyval).

Local Abbreviation deserialize :=
  (_deserialize retrieve_embedded_document opts_retrieve_embedded_document init).

Lemma construct_field self h cls kwargs :
  out_field (construct init self h cls kwargs) = self.
Proof. unfold construct. destruct (init cls kwargs); reflexivity. Qed.

Lemma embedded_document_cls_resolved self self' E :
  embedded_document_cls retrieve_embedded_document self = (self', Ok E) ->
  embedded_document_cls retrieve_embedded_document self' = (self', Ok E).
Proof.
  unfold embedded_document_cls.
  destruct (_embedded_document_cls self) as [c |] eqn:Ec.
  - intros H. inversion H; subst. rewrite Ec. reflexivity.
  - destruct (retrieve_embedded_document (embedded_document self)) as [c | e];
      intros H; inversion H; subst. reflexivity.
Qed.

End Calls.

(** X13: what [EmbeddedField._deserialize] returns it accepts again: the
    instance is returned as it is, and nothing changes. This holds for
    an instance given, for one built from a record by the class of the
    field, and for one built by an offspring class, as long as the
    classes the registry gives are subclasses of the class of the
    field. *)
Theorem embedded_deserialize_idempotent
    (retrieve_embedded_document opts_retrieve_embedded_document
       : pyval -> result EmbCls)
    (init : EmbCls -> gmap string pyval -> result (gmap string pyval))
    (self self' : EmbeddedField) (E : EmbCls) (h : heap) (value r : pyval) :
  embedded_document_cls retrieve_embedded_document self = (self', Ok E) ->
  (forall c B, opts_retrieve_embedded_document c = Ok B ->
     issubclass (emb_class B) (emb_class E) = true) ->
  let out := _deserialize retrieve_embedded_document
               opts_retrieve_embedded_document init self h value in
  out_result out = Ok r ->
  out_field out = self' /\
  _deserialize retrieve_embedded_document opts_retrieve_embedded_document init
    self' (out_heap out) r
  = mkoutcome self' (out_heap out) (Ok r).
Proof.
  intros He Hsub out.
  assert (Hagain : forall B l h',
            issubclass (emb_class B) (emb_class E) = true ->
            _deserialize retrieve_embedded_document
              opts_retrieve_embedded_document init self' h' (PEmbedded B l)
            = mkoutcome self' h' (Ok (PEmbedded B l))).
  { intros B l h' HB. unfold _deserialize.
    rewrite (embedded_document_cls_resolved _ _ _ _ He). rewrite HB.
    reflexivity. }
  assert (Hconstruct : forall s h' B kwargs,
            issubclass (emb_class B) (emb_class E) = true ->
            out_result (construct init s h' B kwargs) = Ok r ->
            out_field (construct init s h' B kwargs) = s /\
            exists l, r = PEmbedded B l).
  { intros s h' B kwargs HB. unfold construct.
    destruct (init B kwargs); simpl; [| discriminate].
    intros Hr. inversion Hr; subst. eauto. }
  assert (Hshape : out_result out = Ok r ->
            out_field out = self' /\
            exists B l, r = PEmbedded B l /\
              issubclass (emb_class B) (emb_class E) = true).
  { subst out. unfold _deserialize. rewrite He.
    destruct value as [| | b | n | s | o | coll id | cls dcls pk | cls created pk
                       | cls data | l0]; try discriminate.
    - destruct (issubclass (emb_class cls) (emb_class E)) eqn:Hc; simpl;
        [| discriminate].
      intros Hr. inversion Hr; subst. eauto.
    - destruct (offspring E) as [| o os].
      { intros Hr.
        destruct (Hconstruct _ _ _ _ (ReferenceStorage.issubclass_refl _) Hr)
          as (Hf & l & ->).
        eauto using ReferenceStorage.issubclass_refl. }
      destruct (default ∅ (h !! l0) !! "cls") as [c |].
      2:{ intros Hr.
          destruct (Hconstruct _ _ _ _ (ReferenceStorage.issubclass_refl _) Hr)
            as (Hf & l & ->).
          eauto using ReferenceStorage.issubclass_refl. }
      destruct (negb (existsb (fun o0 => str_eq o0 c) (o :: os)));
        [discriminate |].
      destruct (opts_retrieve_embedded_document c) as [B | [] ] eqn:HB;
        try discriminate.
      intros Hr. destruct (Hconstruct _ _ _ _ (Hsub _ _ HB) Hr) as (Hf & l & ->).
      split; [exact Hf |]. exists B, l. split; [reflexivity |].
      exact (Hsub _ _ HB). }
  intros Hr. destruct (Hshape Hr) as (Hf & B & l & -> & HB).
  split; [exact Hf |]. now apply Hagain.
Qed.

Lemma embedded_deserialize_idempotent_B :
  out_field (_deserialize (lookup_embedded emb_registry)
               (lookup_embedded emb_registry) keep_entries embedded_Parent
               (heap_with record_B) (PDict 1%positive))
  = mkEmbeddedField (PStr "Parent") (Some Parent) /\
  _deserialize (lookup_embedded emb_registry) (lookup_embedded emb_registry)
    keep_entries (mkEmbeddedField (PStr "Parent") (Some Parent))
    (out_heap (_deserialize (lookup_embedded emb_registry)
                 (lookup_embedded emb_registry) keep_entries embedded_Parent
                 (heap_with record_B) (PDict 1%positive)))
    (PEmbedded B 2%positive)
  = mkoutcome (mkEmbeddedField (PStr "Parent") (Some Parent))
      (out_heap (_deserialize (lookup_embedded emb_registry)
                   (lookup_embedded emb_registry) keep_entries embedded_Parent
                   (heap_with record_B) (PDict 1%positive)))
      (Ok (PEmbedded B 2%positive)).
Proof.
  apply (embedded_deserialize_idempotent (lookup_embedded emb_registry)
           (lookup_embedded emb_registry) keep_entries embedded_Parent
           (mkEmbeddedField (PStr "Parent") (Some Parent)) Parent
           (heap_with record_B) (PDict 1%positive) (PEmbedded B 2%positive)).
  - reflexivity.
  - intros c B0. unfold lookup_embedded. destruct c; try discriminate.
    unfold emb_registry.
    destruct (decide (s = "Parent")) as [-> | H1];
      [intros H; inversion H; reflexivity |].
    rewrite lookup_insert_ne by congruence.
    destruct (decide (s = "A")) as [-> | H2];
      [intros H; inversion H; reflexivity |].
    rewrite lookup_insert_ne by congruence.
    destruct (decide (s = "B")) as [-> | H3];
      [intros H; inversion H; reflexivity |].
    rewrite lookup_singleton_ne by congruence. discriminate.
  - vm_compute. reflexivity.
Defined.

End EmbeddedFrame.

(** ** The projection caches when nothing is overridden *)

Module CacheStability.
Import Schemas CacheProperties.

(** Compared with an empty dictionary, a dictionary is equal exactly
    when it is empty. *)
Lemma dict_eq_empty (h : heap) (l l' : loc) :
  default ∅ (h !! l') = ∅ ->
  dict_eq h l l' = (size (default ∅ (h !! l)) =? 0)%nat.
Proof.
  intros Hl'. unfold dict_eq. cbn [py_eq]. rewrite Hl', map_size_empty.
  destruct (size (default ∅ (h !! l)) =? 0)%nat eqn:Es.
  - apply Nat.eqb_eq, map_size_empty_iff in Es. rewrite Es.
    rewrite map_to_list_empty. simpl. apply orb_true_r.
  - simpl. rewrite orb_false_r. apply bool_decide_eq_false_2.
    intros ->. rewrite Hl', map_size_empty in Es. discriminate Es.
Qed.

(** The lookup of two empty dictionaries depends on the cache and on
    what the dictionaries of its entries hold, not on where the two
    are. *)
Lemma find_cached_empty_query (h h' : heap) bucket (p m p' m' : loc) :
  default ∅ (h !! p) = ∅ -> default ∅ (h !! m) = ∅ ->
  default ∅ (h' !! p') = ∅ -> default ∅ (h' !! m') = ∅ ->
  (forall x, default ∅ (h' !! x) = default ∅ (h !! x)) ->
  find_cached h' bucket p' m' = find_cached h bucket p m.
Proof.
  intros Hp Hm Hp' Hm' Hsame.
  induction bucket as [| [[p0 m0] c0] bucket IH]; [reflexivity |].
  cbn [find_cached].
  rewrite (dict_eq_empty h' p0 p' Hp'), (dict_eq_empty h' m0 m' Hm').
  rewrite (dict_eq_empty h p0 p Hp), (dict_eq_empty h m0 m Hm).
  rewrite !Hsame, IH. reflexivity.
Qed.

Lemma find_cached_app_hit (h : heap) bucket rest (p m c : loc) :
  find_cached h bucket p m = Some c ->
  find_cached h (bucket ++ rest) p m = Some c.
Proof.
  induction bucket as [| [[p0 m0] c0] bucket IH]; [discriminate |].
  cbn [find_cached app].
  destruct (dict_eq h p0 p && dict_eq h m0 m); [auto | exact IH].
Qed.

Lemma find_cached_app_miss (h : heap) bucket rest (p m : loc) :
  find_cached h bucket p m = None ->
  find_cached h (bucket ++ rest) p m = find_cached h rest p m.
Proof.
  induction bucket as [| [[p0 m0] c0] bucket IH]; [reflexivity |].
  cbn [find_cached app].
  destruct (dict_eq h p0 p && dict_eq h m0 m); [discriminate | exact IH].
Qed.

(** A new empty dictionary changes the content of no location. *)
Lemma alloc_empty_same (h : heap) (x : loc) :
  default ∅ (<[fresh (dom h) := ∅]> h !! x) = default ∅ (h !! x).
Proof.
  destruct (decide (x = fresh (dom h))) as [-> | Hne].
  - rewrite lookup_insert_eq.
    assert (Hf : h !! fresh (dom h) = None) by apply not_elem_of_dom, is_fresh.
    rewrite Hf. reflexivity.
  - rewrite lookup_insert_ne by congruence. reflexivity.
Qed.

Lemma alloc_twice (h : heap) :
  let p := fresh (dom h) in
  let h1 := <[p := ∅]> h in
  let m := fresh (dom h1) in
  let h2 := <[m := ∅]> h1 in
  default ∅ (h2 !! p) = ∅ /\ default ∅ (h2 !! m) = ∅ /\
  forall x, default ∅ (h2 !! x) = default ∅ (h !! x).
Proof.
  intros p h1 m h2. split; [| split].
  - subst h2 m. rewrite alloc_empty_same. subst h1. rewrite lookup_insert_eq.
    reflexivity.
  - subst h2. rewrite lookup_insert_eq. reflexivity.
  - intros x. subst h2 m. rewrite alloc_empty_same. subst h1 p.
    apply alloc_empty_same.
Qed.

Lemma find_cached_Some (h : heap) bucket (p m c : loc) :
  find_cached h bucket p m = Some c ->
  exists p0 m0, (p0, m0, c) ∈ bucket /\
    dict_eq h p0 p = true /\ dict_eq h m0 m = true.
Proof.
  induction bucket as [| [[p0 m0] c0] bucket IH]; [discriminate |].
  cbn [find_cached].
  destruct (dict_eq h p0 p && dict_eq h m0 m) eqn:E.
  - intros H. inversion H; subst. apply andb_true_iff in E as [E1 E2].
    exists p0, m0. split; [apply elem_of_cons; now left | auto].
  - intros H. destruct (IH H) as (p1 & m1 & Hin & H1 & H2).
    exists p1, m1. split; [apply elem_of_cons; now right | auto].
Qed.

Lemma dict_eq_empty_true (h : heap) (l l' : loc) :
  default ∅ (h !! l') = ∅ -> dict_eq h l l' = true ->
  default ∅ (h !! l) = ∅.
Proof.
  intros Hl' H. rewrite (dict_eq_empty h l l' Hl') in H.
  now apply Nat.eqb_eq, map_size_empty_iff in H.
Qed.

(** X14: with [check_unknown_fields] left true and no overrides the
    cache of [BaseSchema.as_marshmallow_schema] is stable in any
    process, for a schema that nests no embedded schema: when the call
    returns a class, that class is in the cache under the key of the
    call with two empty dictionaries of overrides; it was there before
    the call or it is a class the call has built; and the same call
    made again returns the same class, builds none and adds no entry. *)
Theorem projection_cache_stable_with_defaults
    (name base : string) (fields : list (string * field)) (mongo_world : bool)
    (st st1 : state) (c : loc) :
  forallb (fun nf => embedded_free nf.2) fields = true ->
  let call := as_marshmallow_schema (mkschema BaseSchemaKind name base fields)
                PNone None (Some true) mongo_world PNone in
  let key := (name, MaSchema, true, mongo_world) in
  call st = (st1, Ok c) ->
  (exists p m,
     (p, m, c) ∈ default [] (BaseSchema_cache st1 !! key) /\
     deref st1 p = ∅ /\ deref st1 m = ∅) /\
  ((exists p m, (p, m, c) ∈ default [] (BaseSchema_cache st !! key)) \/
   (classes st !! c = None /\ is_Some (classes st1 !! c))) /\
  exists st2,
    call st1 = (st2, Ok c) /\
    classes st2 = classes st1 /\
    BaseSchema_cache st2 = BaseSchema_cache st1.
Proof.
  intros Hfs call key Hcall.
  set (bucket := default [] (BaseSchema_cache st !! key)).
  pose proof (alloc_twice (st_heap st)) as Ha. cbv zeta in Ha.
  set (p := fresh (dom (st_heap st))) in *.
  set (h1 := <[p := ∅]> (st_heap st)) in *.
  set (m := fresh (dom h1)) in *.
  set (h2 := <[m := ∅]> h1) in *.
  destruct Ha as (Hp & Hm & Hsame).
  (* the state after the first call has the heap [h2] and, under [key], a
     bucket in which the lookup of two empty dictionaries finds [c] *)
  assert (Hfirst : exists st1' c',
            call st = (st1', Ok c') /\ st_heap st1' = h2 /\
            find_cached h2 (default [] (BaseSchema_cache st1' !! key)) p m
            = Some c' /\
            ((exists p0 m0, (p0, m0, c') ∈ bucket) \/
             (classes st !! c' = None /\ is_Some (classes st1' !! c')))).
  { destruct (find_cached h2 bucket p m) as [c0 |] eqn:Ef.
    - exists (set_heap (set_heap st h1) h2), c0.
      split; [| split; [reflexivity | split; [exact Ef |]]].
      + subst call. cbn -[build_nmspc find_cached].
        fold p. fold h1. fold m. fold h2. fold key. fold bucket.
        rewrite Ef. reflexivity.
      + left. destruct (find_cached_Some _ _ _ _ _ Ef) as (p0 & m0 & Hin & _).
        eauto.
    - destruct (call_that_misses name base fields true mongo_world st Hfs Ef)
        as (st1' & H1 & Hh1 & Hc1 & Hd1).
      exists st1', (fresh (dom (classes st))).
      split; [exact H1 |]. split; [exact Hh1 |]. split.
      + fold key in Hc1. rewrite Hc1. simpl default.
        rewrite (find_cached_app_miss _ _ _ _ _ Ef). cbn [find_cached].
        fold p. fold h1. fold m.
        rewrite (dict_eq_empty h2 p p Hp), (dict_eq_empty h2 m m Hm).
        rewrite Hp, Hm, map_size_empty. reflexivity.
      + right. split; [apply not_elem_of_dom, is_fresh |].
        apply elem_of_dom. rewrite Hd1.
        apply elem_of_union_l, elem_of_singleton. reflexivity. }
  destruct Hfirst as (st1' & c' & H1 & Hh1 & Hfind & Hclass).
  rewrite Hcall in H1. inversion H1; subst st1' c'. clear H1.
  split; [| split; [exact Hclass |]].
  - destruct (find_cached_Some _ _ _ _ _ Hfind) as (p0 & m0 & Hin & Ep & Em).
    exists p0, m0. split; [exact Hin |]. unfold deref. rewrite Hh1.
    split; [exact (dict_eq_empty_true h2 p0 p Hp Ep)
           | exact (dict_eq_empty_true h2 m0 m Hm Em)].
  - pose proof (alloc_twice (st_heap st1)) as Hb. cbv zeta in Hb.
    set (p' := fresh (dom (st_heap st1))) in *.
    set (h3 := <[p' := ∅]> (st_heap st1)) in *.
    set (m' := fresh (dom h3)) in *.
    set (h4 := <[m' := ∅]> h3) in *.
    destruct Hb as (Hp' & Hm' & Hsame').
    exists (set_heap (set_heap st1 h3) h4).
    split; [| split; reflexivity].
    subst call. cbn -[build_nmspc find_cached].
    fold p'. fold h3. fold m'. fold h4. fold key.
    rewrite (find_cached_empty_query h2 h4 _ p m p' m' Hp Hm Hp' Hm').
    + rewrite Hfind. reflexivity.
    + intros x. rewrite Hsame'. rewrite Hh1. reflexivity.
Qed.

Lemma projection_cache_stable_on_user_schema :
  exists st2,
    call_default (call_default empty_state).1 = (st2, Ok 1%positive) /\
    classes st2 = classes (call_default empty_state).1 /\
    BaseSchema_cache st2 = BaseSchema_cache (call_default empty_state).1.
Proof.
  assert (Hcall : call_default empty_state
                  = ((call_default empty_state).1, Ok 1%positive))
    by (vm_compute; reflexivity).
  exact (proj2 (proj2
           (projection_cache_stable_with_defaults "UserSchema" MaSchema
              [("name", Field "String" required_field);
               ("tags", ListField optional_field (Field "String" optional_field))]
              false empty_state _ 1%positive eq_refl Hcall))).
Defined.

End CacheStability.

(** ** The cache of [schema.Schema] *)

Module SchemaMemo.
Import Schemas.

Lemma pop_Schema_cache st l key :
  Schema_cache (pop st l key).1 = Schema_cache st.
Proof. reflexivity. Qed.

Lemma or_empty_dict_Schema_cache st x :
  Schema_cache (or_empty_dict st x).1 = Schema_cache st.
Proof.
  unfold or_empty_dict. destruct (truthy (st_heap st) x); [| reflexivity].
  destruct x; reflexivity.
Qed.

Lemma setdefault_unknown_Schema_cache st meta :
  Schema_cache (setdefault_unknown st meta) = Schema_cache st.
Proof.
  unfold setdefault_unknown. destruct (deref st meta !! "unknown"); reflexivity.
Qed.

(** No projection of a field, and no call of
    [BaseSchema.as_marshmallow_schema], touches the cache of
    [schema.Schema]. *)
Lemma field_keeps_Schema_cache (f : field) :
  forall params mw b c st,
    Schema_cache (as_marshmallow_field f params mw b c st).1 = Schema_cache st
with schema_keeps_Schema_cache (s : schema) :
  forall params b c mw meta st,
    Schema_cache (as_marshmallow_schema s params b c mw meta st).1
    = Schema_cache st.
Proof.
  - destruct f as [cls a | a inner | a [vf |] | a | a | a [nested |]];
      intros params mw b c st; cbn [as_marshmallow_field]; try reflexivity.
    + destruct (truthy (st_heap st) params).
      * destruct params; try reflexivity.
        destruct (pop st l "params") as [st1 ip] eqn:Ep.
        pose proof (field_keeps_Schema_cache inner ip mw b c st1) as IH.
        destruct (as_marshmallow_field inner ip mw b c st1) as [st2 r].
        simpl in *. rewrite IH. apply (f_equal fst) in Ep. simpl in Ep.
        rewrite <- Ep. apply pop_Schema_cache.
      * pose proof (field_keeps_Schema_cache inner PNone mw b c st) as IH.
        destruct (as_marshmallow_field inner PNone mw b c st) as [st2 r].
        exact IH.
    + destruct (truthy (st_heap st) params).
      * destruct params; try reflexivity.
        destruct (pop st l "params") as [st1 ip] eqn:Ep.
        pose proof (field_keeps_Schema_cache vf ip mw b c st1) as IH.
        destruct (as_marshmallow_field vf ip mw b c st1) as [st2 r].
        simpl in *. rewrite IH. apply (f_equal fst) in Ep. simpl in Ep.
        rewrite <- Ep. apply pop_Schema_cache.
      * pose proof (field_keeps_Schema_cache vf PNone mw b c st) as IH.
        destruct (as_marshmallow_field vf PNone mw b c st) as [st2 r].
        exact IH.
    + destruct (truthy (st_heap st) params); [| reflexivity].
      destruct params; reflexivity.
    + destruct (truthy (st_heap st) params).
      * destruct params; try reflexivity.
        destruct (pop st l "params") as [st1 np] eqn:Ep.
        destruct (pop st1 l "meta") as [st2 nm] eqn:Em.
        pose proof (schema_keeps_Schema_cache nested np b c mw nm st2) as IH.
        destruct (as_marshmallow_schema nested np b c mw nm st2) as [st3 r].
        simpl in *. rewrite IH.
        apply (f_equal fst) in Ep, Em. simpl in Ep, Em.
        rewrite <- Em, <- Ep. reflexivity.
      * pose proof (schema_keeps_Schema_cache nested PNone b c mw PNone st) as IH.
        destruct (as_marshmallow_schema nested PNone b c mw PNone st) as [st3 r].
        exact IH.
    + destruct (truthy (st_heap st) params); [| reflexivity].
      destruct params; reflexivity.
  - destruct s as [[] name base fields]; intros params b c mw meta st;
      cbn [as_marshmallow_schema]; [| reflexivity].
    pose proof (or_empty_dict_Schema_cache st params) as H1.
    destruct (or_empty_dict st params) as [st1 [p | e]]; [| exact H1].
    pose proof (or_empty_dict_Schema_cache st1 meta) as H2.
    destruct (or_empty_dict st1 meta) as [st2 [m | e]];
      [| simpl in *; congruence].
    simpl in H1, H2.
    destruct (find_cached _ _ p m); [simpl; congruence |].
    assert (Hbuild : forall st0,
              Schema_cache
                (build_nmspc
                   (fun name0 f st3 =>
                      as_marshmallow_field f (get st3 p name0) mw
                        (Some (default MaSchema b)) (Some (default true c)) st3)
                   fields st0).1 = Schema_cache st0).
    { induction fields as [| [n f] fields IH]; intros st0; [reflexivity |].
      cbn [build_nmspc].
      pose proof (field_keeps_Schema_cache f (get st0 p n) mw
                    (Some (default MaSchema b)) (Some (default true c)) st0) as Hf.
      destruct (as_marshmallow_field f (get st0 p n) mw
                  (Some (default MaSchema b)) (Some (default true c)) st0)
        as [st3 [ma | e]]; [| exact Hf].
      specialize (IH st3). destruct (build_nmspc _ fields st3) as [st4 r].
      simpl in *. congruence. }
    specialize (Hbuild st2).
    destruct (build_nmspc _ fields st2) as [st3 [nmspc | e]];
      [| simpl in *; congruence].
    simpl in Hbuild.
    destruct (default true c); simpl; [congruence |].
    rewrite setdefault_unknown_Schema_cache. congruence.
Qed.

(** X15: [schema.Schema.as_marshmallow_schema] memoizes. Once a call
    has returned a class, the same call returns that class again and
    changes nothing, and the entries of the cache under other keys (the
    other value of [mongo_world], other schema classes) are the ones
    that were there before the first call. *)
Theorem Schema_projection_memoized
    (kind : schema_kind) (name base : string) (fields : list (string * field))
    (mongo_world : bool) (st st1 : state) (c : loc) :
  Schema_as_marshmallow_schema (mkschema kind name base fields) mongo_world st
  = (st1, Ok c) ->
  Schema_as_marshmallow_schema (mkschema kind name base fields) mongo_world st1
  = (st1, Ok c) /\
  Schema_cache st1 !! (name, base, mongo_world) = Some c /\
  forall key, key <> (name, base, mongo_world) ->
    Schema_cache st1 !! key = Schema_cache st !! key.
Proof.
  cbn [Schema_as_marshmallow_schema].
  destruct (Schema_cache st !! (name, base, mongo_world)) as [c0 |] eqn:Ec.
  - intros H. inversion H; subst. rewrite Ec. auto.
  - assert (Hbuild : forall st0,
              Schema_cache
                (build_nmspc
                   (fun (name0 : string) f st3 =>
                      as_marshmallow_field f PNone mongo_world None None st3)
                   fields st0).1 = Schema_cache st0).
    { induction fields as [| [n f] fs IH]; intros st0; [reflexivity |].
      cbn [build_nmspc].
      pose proof (field_keeps_Schema_cache f PNone mongo_world None None st0)
        as Hf.
      destruct (as_marshmallow_field f PNone mongo_world None None st0)
        as [st3 [ma | e]]; [| exact Hf].
      specialize (IH st3). destruct (build_nmspc _ fs st3) as [st4 r].
      simpl in *. congruence. }
    specialize (Hbuild st).
    destruct (build_nmspc _ fields st) as [st2 [nmspc | e]]; [| discriminate].
    simpl in Hbuild. cbn [new_class].
    intros H. inversion H; subst; clear H. cbn [Schema_cache].
    rewrite lookup_insert_eq. split; [reflexivity |]. split; [reflexivity |].
    intros key Hkey. rewrite lookup_insert_ne by congruence.
    rewrite Hbuild. reflexivity.
Qed.

Lemma Schema_projection_memoized_user_Schema :
  Schema_as_marshmallow_schema user_Schema false
    (Schema_as_marshmallow_schema user_Schema false empty_state).1
  = ((Schema_as_marshmallow_schema user_Schema false empty_state).1,
     Ok 1%positive).
Proof.
  apply (Schema_projection_memoized SchemaKind "UserSchema" MaSchema
           [("name", Field "String" required_field);
            ("tags", ListField optional_field (Field "String" optional_field))]
           false empty_state).
  vm_compute. reflexivity.
Defined.

End SchemaMemo.

(** ** What the projection of a field does to the caller's arguments *)

Module ProjectionFrame.
Import Schemas.

(** A dictionary that is true is in the heap. *)
Lemma truthy_dict (h : heap) (l : loc) :
  truthy h (PDict l) = true -> exists d, h !! l = Some d /\ d <> ∅.
Proof.
  simpl. destruct (h !! l) as [d |]; simpl.
  - intros Hs. exists d. split; [reflexivity |]. intros ->.
    rewrite map_size_empty in Hs. discriminate Hs.
  - rewrite map_size_empty. discriminate.
Qed.

(** The heap after [pop], location by location. *)
Lemma pop_params_heap st l x :
  truthy (st_heap st) (PDict l) = true ->
  st_heap (pop st l "params").1 !! x = st_heap st !! x \/
  st_heap (pop st l "params").1 !! x = delete "params" <$> (st_heap st !! x).
Proof.
  intros Ht. destruct (truthy_dict _ _ Ht) as (d & Hd & _).
  unfold pop, deref. simpl.
  destruct (decide (x = l)) as [-> | Hne].
  - right. rewrite lookup_insert_eq, Hd. reflexivity.
  - left. rewrite lookup_insert_ne by congruence. reflexivity.
Qed.

Lemma removed_twice (a b c : option (gmap string pyval)) :
  (b = a \/ b = delete "params" <$> a) ->
  (c = b \/ c = delete "params" <$> b) ->
  c = a \/ c = delete "params" <$> a.
Proof.
  intros [-> | ->] [-> | ->]; auto.
  right. destruct a as [d |]; simpl; [| reflexivity].
  rewrite delete_delete_eq. reflexivity.
Qed.

(** The projection of a field that nests no embedded schema: no class
    is built, no cache is touched, and a dictionary changes only by
    losing its key ['params']. *)
Lemma field_projection_frame (f : field) :
  embedded_free f = true ->
  forall params mw b c st,
    let st' := (as_marshmallow_field f params mw b c st).1 in
    classes st' = classes st /\
    BaseSchema_cache st' = BaseSchema_cache st /\
    Schema_cache st' = Schema_cache st /\
    forall x, st_heap st' !! x = st_heap st !! x \/
              st_heap st' !! x = delete "params" <$> (st_heap st !! x).
Proof.
  revert f. fix IH 1.
  assert (Hcontainer : forall inner : field,
            (forall params mw b c st,
               let st' := (as_marshmallow_field inner params mw b c st).1 in
               classes st' = classes st /\
               BaseSchema_cache st' = BaseSchema_cache st /\
               Schema_cache st' = Schema_cache st /\
               forall x, st_heap st' !! x = st_heap st !! x \/
                         st_heap st' !! x = delete "params" <$> (st_heap st !! x)) ->
            forall l mw b c st,
              truthy (st_heap st) (PDict l) = true ->
              let st1 := (pop st l "params").1 in
              let ip := (pop st l "params").2 in
              let st' := (as_marshmallow_field inner ip mw b c st1).1 in
              classes st' = classes st /\
              BaseSchema_cache st' = BaseSchema_cache st /\
              Schema_cache st' = Schema_cache st /\
              forall x, st_heap st' !! x = st_heap st !! x \/
                        st_heap st' !! x = delete "params" <$> (st_heap st !! x)).
  { intros inner Hinner l mw b c st Ht st1 ip st'.
    destruct (Hinner ip mw b c st1) as (H1 & H2 & H3 & H4).
    fold st' in H1, H2, H3, H4.
    split; [exact H1 |]. split; [exact H2 |]. split; [exact H3 |].
    intros x. eapply removed_twice; [apply (pop_params_heap st l x Ht) | apply H4]. }
  intros [cls a | a inner | a [vf |] | a | a | a e]; simpl embedded_free;
    intros Hf params mw b c st; try discriminate Hf;
    try (cbn [as_marshmallow_field]; simpl; auto; fail).
  - cbn [as_marshmallow_field].
    destruct (truthy (st_heap st) params) eqn:Ht.
    + destruct params; try (simpl; auto; fail).
      pose proof (Hcontainer inner (IH inner Hf) l mw b c st Ht) as Hc.
      cbv zeta in Hc.
      destruct (pop st l "params") as [st1 ip]. cbn [fst snd] in Hc.
      destruct (as_marshmallow_field inner ip mw b c st1) as [st2 r].
      exact Hc.
    + pose proof (IH inner Hf PNone mw b c st) as Hi. cbv zeta in Hi.
      destruct (as_marshmallow_field inner PNone mw b c st) as [st2 r].
      exact Hi.
  - cbn [as_marshmallow_field].
    destruct (truthy (st_heap st) params) eqn:Ht.
    + destruct params; try (simpl; auto; fail).
      pose proof (Hcontainer vf (IH vf Hf) l mw b c st Ht) as Hc.
      cbv zeta in Hc.
      destruct (pop st l "params") as [st1 ip]. cbn [fst snd] in Hc.
      destruct (as_marshmallow_field vf ip mw b c st1) as [st2 r].
      exact Hc.
    + pose proof (IH vf Hf PNone mw b c st) as Hi. cbv zeta in Hi.
      destruct (as_marshmallow_field vf PNone mw b c st) as [st2 r].
      exact Hi.
  - cbn [as_marshmallow_field].
    destruct (truthy (st_heap st) params) eqn:Ht; [| simpl; auto].
    destruct params; try (simpl; auto; fail).
    destruct (pop st l "params") as [st1 ip] eqn:Ep.
    pose proof (pop_params_heap st l) as Hp. rewrite Ep in Hp.
    apply (f_equal fst) in Ep. simpl in Ep. subst st1. simpl.
    split; [reflexivity |]. split; [reflexivity |]. split; [reflexivity |].
    intros x. apply Hp. exact Ht.
Qed.

(** X16: a projection never edits the overrides it is given beyond
    taking the key ['params'] out. For a field that nests no embedded
    schema, whatever [params] is and whether the call returns or
    raises: every dictionary that existed is still there, with its
    entries or with its entries but ['params']; no dictionary is made,
    no class is built and the two caches are as before. *)
Theorem field_projection_only_pops_params
    (f : field) (params : pyval) (mongo_world : bool)
    (base_schema_cls : option string) (check_unknown_fields : option bool)
    (st st' : state) (r : result ma_field) :
  embedded_free f = true ->
  as_marshmallow_field f params mongo_world base_schema_cls
    check_unknown_fields st = (st', r) ->
  classes st' = classes st /\
  BaseSchema_cache st' = BaseSchema_cache st /\
  Schema_cache st' = Schema_cache st /\
  dom (st_heap st') = dom (st_heap st) /\
  forall l d, st_heap st !! l = Some d ->
    st_heap st' !! l = Some d \/ st_heap st' !! l = Some (delete "params" d).
Proof.
  intros Hf Hcall.
  pose proof (field_projection_frame f Hf params mongo_world base_schema_cls
                check_unknown_fields st) as Hframe.
  cbv zeta in Hframe. rewrite Hcall in Hframe. simpl in Hframe.
  destruct Hframe as (H1 & H2 & H3 & H4).
  split; [exact H1 |]. split; [exact H2 |]. split; [exact H3 |]. split.
  - apply set_eq. intros x. rewrite !elem_of_dom.
    destruct (H4 x) as [-> | ->]; [reflexivity |].
    destruct (st_heap st !! x); simpl; split; intros [? ?]; eauto; discriminate.
  - intros l d Hl. destruct (H4 l) as [-> | ->]; rewrite Hl; auto.
Qed.

Lemma field_projection_only_pops_params_tags :
  let st := (alloc (alloc empty_state {["required" := PBool true]}).1
               {["params" := PDict 1%positive]}).1 in
  let st' := (as_marshmallow_field
                (ListField optional_field (Field "String" optional_field))
                (PDict 2%positive) false None None st).1 in
  st_heap st' !! 2%positive = Some {["params" := PDict 1%positive]} \/
  st_heap st' !! 2%positive
  = Some (delete "params" {["params" := PDict 1%positive]}).
Proof.
  intros st st'.
  destruct (field_projection_only_pops_params
              (ListField optional_field (Field "String" optional_field))
              (PDict 2%positive) false None None st st'
              (as_marshmallow_field
                 (ListField optional_field (Field "String" optional_field))
                 (PDict 2%positive) false None None st).2
              eq_refl (surjective_pairing _))
    as (_ & _ & _ & _ & Hheap).
  apply Hheap. vm_compute. reflexivity.
Defined.

End ProjectionFrame.

(** ** The keyword arguments of a projected field *)

Module ProjectionArguments.
Import Schemas.

Lemma lookup_union_first (m1 m2 : gmap string pyval) (k : string) :
  (m1 ∪ m2) !! k = match m1 !! k with Some v => Some v | None => m2 !! k end.
Proof. rewrite lookup_union. destruct (m1 !! k), (m2 !! k); reflexivity. Qed.

(** X17: the keyword arguments of the marshmallow field a plain field is
    projected to, key by key, in the order of precedence the code
    gives: the caller's [params] first, then the field's [metadata],
    then the arguments it was built with under the [marshmallow_]
    prefix, then (for the key [attribute], in the mongo world, when the
    field has a non-empty one) the field's [attribute], then the
    field's own attributes. The call changes nothing. *)
Theorem field_projection_precedence
    (ma_class : string) (a : attrs) (l : loc) (d : gmap string pyval)
    (mongo_world : bool) (base_schema_cls : option string)
    (check_unknown_fields : option bool) (st : state) :
  st_heap st !! l = Some d ->
  exists kwargs,
    as_marshmallow_field (Field ma_class a) (PDict l) mongo_world
      base_schema_cls check_unknown_fields st
    = (st, Ok (MaField ma_class kwargs)) /\
    forall k,
      kwargs !! k =
      match d !! k with
      | Some v => Some v
      | None =>
          match metadata a !! k with
          | Some v => Some v
          | None =>
              match _ma_kwargs a !! k with
              | Some v => Some v
              | None =>
                  match attribute a with
                  | Some attr =>
                      if bool_decide (k = "attribute") && mongo_world
                         && negb (bool_decide (attr = ""))
                      then Some (PStr attr)
                      else own a !! k
                  | None => own a !! k
                  end
              end
          end
      end.
Proof.
  intros Hl. cbn [as_marshmallow_field]. unfold update_with, deref.
  cbn [truthy]. rewrite Hl. cbn [default from_option id].
  assert (Hextract : forall k,
            _extract_marshmallow_field_params a mongo_world !! k =
            match metadata a !! k with
            | Some v => Some v
            | None =>
                match _ma_kwargs a !! k with
                | Some v => Some v
                | None =>
                    match attribute a with
                    | Some attr =>
                        if bool_decide (k = "attribute") && mongo_world
                           && negb (bool_decide (attr = ""))
                        then Some (PStr attr)
                        else own a !! k
                    | None => own a !! k
                    end
                end
            end).
  { intros k. unfold _extract_marshmallow_field_params.
    rewrite !lookup_union_first.
    destruct (metadata a !! k) as [v |]; [reflexivity |].
    destruct (_ma_kwargs a !! k) as [v |]; [reflexivity |].
    destruct (attribute a) as [attr |]; [| reflexivity].
    destruct mongo_world; simpl.
    - destruct (bool_decide (attr = "")); simpl.
      + rewrite andb_false_r. reflexivity.
      + rewrite andb_true_r.
        destruct (bool_decide (k = "attribute")) eqn:Ek.
        * apply bool_decide_eq_true_1 in Ek. subst k.
          apply lookup_insert_eq.
        * apply bool_decide_eq_false_1 in Ek.
          apply lookup_insert_ne. congruence.
    - rewrite andb_false_r. reflexivity. }
  destruct (negb (size d =? 0)%nat) eqn:Es; cbn [bind].
  - eexists. split; [reflexivity |]. intros k.
    rewrite lookup_union_first, Hextract. reflexivity.
  - eexists. split; [reflexivity |]. intros k. rewrite Hextract.
    apply negb_false_iff, Nat.eqb_eq, map_size_empty_iff in Es. subst d.
    rewrite lookup_empty. reflexivity.
Qed.

Lemma field_projection_precedence_required :
  exists kwargs,
    as_marshmallow_field (Field "String" optional_field) (PDict 1%positive)
      true None None (alloc empty_state {["required" := PBool true]}).1
    = ((alloc empty_state {["required" := PBool true]}).1,
       Ok (MaField "String" kwargs)) /\
    kwargs !! "required" = Some (PBool true) /\
    kwargs !! "allow_none" = Some (PBool false).
Proof.
  destruct (field_projection_precedence "String" optional_field 1%positive
              {["required" := PBool true]} true None None
              (alloc empty_state {["required" := PBool true]}).1 eq_refl)
    as (kwargs & Hcall & Hk).
  exists kwargs. split; [exact Hcall |].
  split; [rewrite (Hk "required") | rewrite (Hk "allow_none")]; reflexivity.
Defined.

End ProjectionArguments.

(** ** The timezone-aware field: where the round trip puts a value *)

Module AwareRoundTrip.
Import Calendar Scalar DateTimeFacts CalendarFacts ScalarProperties.

(** Away from the first and the last year a shift of less than a day
    stays in range. *)
Lemma shift_seconds_returns t delta :
  valid_datetime t = true -> MINYEAR < year (date_of t) < MAXYEAR ->
  -86400 < delta < 86400 ->
  exists r, shift_seconds t delta = Ok r.
Proof.
  intros Hv Hy Hd.
  destruct (valid_datetime_fields t Hv) as (_ & ? & ? & ? & _).
  unfold shift_seconds.
  set (s := hour t * 3600 + minute t * 60 + second t + delta).
  assert (Hq : s / 86400 = -1 \/ s / 86400 = 0 \/ s / 86400 = 1)
    by (subst s; zdiv).
  unfold MINYEAR, MAXYEAR in Hy.
  destruct Hq as [-> | [-> | ->]]; unfold shift_days; simpl.
  - unfold prev_day.
    destruct (1 <? day (date_of t)); [eauto |].
    destruct (1 <? month (date_of t)); [eauto |].
    unfold MINYEAR. destruct (1 <? year (date_of t)) eqn:E; [eauto |].
    apply Z.ltb_ge in E. lia.
  - eauto.
  - unfold next_day.
    destruct (day (date_of t) <? _); [eauto |].
    destruct (month (date_of t) <? 12); [eauto |].
    unfold MAXYEAR. destruct (year (date_of t) <? 9999) eqn:E; [eauto |].
    apply Z.ltb_ge in E. lia.
Qed.

(** X18: where the storage round trip of the timezone-aware field puts
    a value. A valid value with the offset [off] is stored with its
    wall clock as it is, read back as UTC and converted to the display
    time zone if one is set: the value that comes back has the offset
    of the display zone (UTC if none) and denotes the instant of the
    original moved by [off] seconds. Without a display zone the round
    trip always returns; with one it returns at least for every value
    outside the years 1 and 9999. *)
Theorem aware_round_trip_shifts_by_offset
    (f : AwareDateTimeField) (v : datetime) (off : Z) :
  valid_datetime v = true -> tzinfo v = Some off ->
  (default_timezone f = None ->
   round_trip f (Val v) = Ok (Val (replace_tzinfo v (Some 0))) /\
   instant_of (replace_tzinfo v (Some 0)) 0 = instant_of v off + off * 1000000) /\
  (forall tz, default_timezone f = Some tz -> -86400 < tz < 86400 ->
     (MINYEAR < year (date_of v) < MAXYEAR ->
      exists v', round_trip f (Val v) = Ok (Val v')) /\
     (forall r, round_trip f (Val v) = Ok r ->
        exists v', r = Val v' /\ valid_datetime v' = true /\
          tzinfo v' = Some tz /\
          instant_of v' tz = instant_of v off + off * 1000000)).
Proof.
  intros Hv Htz.
  assert (Hv0 : valid_datetime (replace_tzinfo v (Some 0)) = true)
    by (apply replace_tzinfo_valid; [exact Hv | lia]).
  assert (Hi0 : instant_of (replace_tzinfo v (Some 0)) 0
                = instant_of v off + off * 1000000)
    by (unfold instant_of, seconds_of; simpl; lia).
  split.
  - intros Hnone. split; [| exact Hi0].
    unfold round_trip. simpl. rewrite Hnone. reflexivity.
  - intros tz Hsome Hrange.
    assert (Hcall : round_trip f (Val v)
                    = let* r := astimezone 0 (replace_tzinfo v (Some 0)) tz in
                      Ok (Val r))
      by (unfold round_trip; simpl; rewrite Hsome; reflexivity).
    rewrite Hcall. split.
    + intros Hy. unfold astimezone.
      rewrite (shift_seconds_zero _ Hv0). simpl.
      destruct (shift_seconds_returns
                  (replace_tzinfo (replace_tzinfo v (Some 0)) (Some tz)) tz)
        as [r Hr]; [| exact Hy | exact Hrange |].
      * apply replace_tzinfo_valid; [exact Hv0 | exact Hrange].
      * exists r. rewrite Hr. reflexivity.
    + intros r.
      destruct (astimezone 0 (replace_tzinfo v (Some 0)) tz) as [v' |] eqn:E;
        simpl; [| discriminate].
      intros Hr. inversion Hr; subst r.
      destruct (astimezone_instant _ tz v' Hv0 eq_refl Hrange E)
        as (Hv' & Htz' & Hi).
      exists v'. split; [reflexivity |]. split; [exact Hv' |].
      split; [exact Htz' |]. rewrite Hi. exact Hi0.
Qed.

Lemma aware_round_trip_shifts_noon_plus_two :
  round_trip aware_field (Val noon_plus_two)
  = Ok (Val (replace_tzinfo noon_plus_two (Some 0))) /\
  instant_of (replace_tzinfo noon_plus_two (Some 0)) 0
  = instant_of noon_plus_two 7200 + 7200 * 1000000.
Proof.
  destruct (aware_round_trip_shifts_by_offset aware_field noon_plus_two 7200
              eq_refl eq_refl) as [Hnone _].
  exact (Hnone eq_refl).
Defined.

End AwareRoundTrip.

(** ** [map_to_field]: the calls made *)

Module TraversalProperties.
Import Traversal.

(** Induction on a field, with the fields of an embedded class. *)
Lemma field_nested_ind (P : field -> Prop) :
  (forall a, P (Field a)) ->
  (forall a inner, P inner -> P (ListField a inner)) ->
  (forall a e, P (EmbeddedField a (Raise e))) ->
  (forall a fields, Forall (fun nf => P nf.2) fields ->
     P (EmbeddedField a (Ok fields))) ->
  forall f, P f.
Proof.
  intros HF HL HR HE. fix IH 1.
  intros [a | a inner | a [fields | e]].
  - apply HF.
  - apply HL, IH.
  - apply HE. induction fields as [| [n f] fields IHfields]; constructor.
    + apply IH.
    + exact IHfields.
  - apply HR.
Qed.

Lemma for_fields_Forall (Q : call -> Prop) body fields :
  Forall (fun nf => Forall Q (body nf.1 nf.2).1) fields ->
  Forall Q (for_fields body fields).1.
Proof.
  induction 1 as [| [n f] fields Hf _ IH]; simpl; [constructor |].
  simpl in Hf. destruct (body n f) as [calls [e |]]; [exact Hf |].
  destruct (for_fields body fields) as [calls' e]. simpl in *.
  apply Forall_app. auto.
Qed.

Lemma for_fields_returns body fields :
  Forall (fun nf => (body nf.1 nf.2).2 = None) fields ->
  (for_fields body fields).2 = None /\
  length (for_fields body fields).1
  = list_sum (map (fun nf => length (body nf.1 nf.2).1) fields).
Proof.
  induction 1 as [| [n f] fields Hf _ IH]; simpl; [auto |].
  simpl in Hf. destruct (body n f) as [calls [e |]]; [discriminate |].
  destruct (for_fields body fields) as [calls' e]. simpl in *.
  destruct IH as [-> IH]. rewrite length_app, IH. auto.
Qed.

Lemma for_fields_raises body fields :
  Exists (fun nf => (body nf.1 nf.2).2 <> None) fields ->
  (for_fields body fields).2 <> None.
Proof.
  induction 1 as [[n f] fields Hf | [n f] fields _ IH]; simpl.
  - simpl in Hf. destruct (body n f) as [calls [e |]]; [discriminate |].
    contradiction.
  - destruct (body n f) as [calls [e |]]; [discriminate |].
    destruct (for_fields body fields) as [calls' e]. exact IH.
Qed.

Lemma attribute_or_name f name :
  no_attribute f = true -> attribute_or f name = name.
Proof.
  unfold attribute_or.
  assert (H : no_attribute f = true ->
              attribute f = None \/ attribute f = Some "").
  { destruct f as [a | a inner | a [fields | e]]; simpl; intros H;
      try (apply andb_true_iff in H as [H _]);
      apply bool_decide_eq_true_1 in H; exact H. }
  intros Hf. destruct (H Hf) as [-> | ->]; reflexivity.
Qed.

Lemma map_to_field_same_paths f :
  no_attribute f = true ->
  forall path, Forall (fun c : call => c.1.1 = c.1.2) (map_to_field f path path).1.
Proof.
  induction f as [a | a inner IH | a e | a fields IH] using field_nested_ind;
    intros Hf path; simpl in *.
  - constructor.
  - apply andb_true_iff in Hf as [_ Hf].
    destruct (has_map_to_field inner).
    + specialize (IH Hf path). destruct (map_to_field inner path path).
      constructor; [reflexivity | exact IH].
    + repeat constructor.
  - constructor.
  - apply andb_true_iff in Hf as [_ Hf].
    apply for_fields_Forall.
    rewrite forallb_forall in Hf. rewrite Forall_forall in IH.
    apply Forall_forall. intros [n f] Hin. simpl.
    apply list_elem_of_In in Hin as Hin'.
    specialize (Hf _ Hin'). simpl in Hf.
    rewrite (attribute_or_name f n Hf).
    destruct (has_map_to_field f).
    + specialize (IH _ Hin Hf (path +:+ "." +:+ n)). simpl in IH.
      destruct (map_to_field f _ _).
      constructor; [reflexivity | exact IH].
    + repeat constructor.
Qed.

(** X19: when no field of a schema, at any depth, has an [attribute] of
    its own, every call [func(mongo_path, path, field)] that
    [BaseSchema.map_to_field] makes has its two paths equal, whether
    the traversal returns or is ended by the registry. *)
Theorem map_to_field_paths_coincide (fields : list (string * field)) :
  forallb (fun nf => no_attribute nf.2) fields = true ->
  Forall (fun c : call => c.1.1 = c.1.2) (BaseSchema_map_to_field fields).1.
Proof.
  intros Hfs. unfold BaseSchema_map_to_field. apply for_fields_Forall.
  rewrite forallb_forall in Hfs. apply Forall_forall. intros [n f] Hin. simpl.
  apply list_elem_of_In in Hin. specialize (Hfs _ Hin). simpl in Hfs.
  rewrite (attribute_or_name f n Hfs).
  destruct (has_map_to_field f).
  - pose proof (map_to_field_same_paths f Hfs n) as H.
    destruct (map_to_field f n n). constructor; [reflexivity | exact H].
  - repeat constructor.
Qed.

Lemma map_to_field_paths_coincide_person :
  Forall (fun c : call => c.1.1 = c.1.2) (BaseSchema_map_to_field person).1.
Proof. exact (map_to_field_paths_coincide person eq_refl). Defined.

(** The calls on [person], and on a schema whose fields are stored
    under other names. *)
Example map_to_field_person :
  map (fun c : call => (c.1.1, c.1.2)) (BaseSchema_map_to_field person).1
  = [("name", "name"); ("addresses", "addresses"); ("addresses", "addresses");
     ("addresses.street", "addresses.street");
     ("addresses.city", "addresses.city");
     ("home", "home"); ("home.street", "home.street");
     ("home.city", "home.city")].
Proof. reflexivity. Qed.

Example map_to_field_person_renamed :
  map (fun c : call => (c.1.1, c.1.2)) (BaseSchema_map_to_field person_renamed).1
  = [("name", "name"); ("h", "home"); ("h.s", "home.street")].
Proof. reflexivity. Qed.

Lemma for_fields_elem_of body fields :
  Forall (fun nf => (body nf.1 nf.2).2 = None) fields ->
  forall c : call,
    c ∈ (for_fields body fields).1 <->
    exists nf, nf ∈ fields /\ c ∈ (body nf.1 nf.2).1.
Proof.
  induction 1 as [| [n f] fields Hf _ IH]; intros c; simpl.
  - split; [intros Hc; inversion Hc |].
    intros (nf & Hin & _). inversion Hin.
  - simpl in Hf. destruct (body n f) as [calls [e |]] eqn:Eb; [discriminate |].
    destruct (for_fields body fields) as [calls' e]. simpl in *.
    rewrite elem_of_app, IH. split.
    + intros [Hc | (nf & Hin & Hc)].
      * exists (n, f). split; [apply elem_of_cons; now left |].
        simpl. rewrite Eb. exact Hc.
      * exists nf. split; [apply elem_of_cons; now right | exact Hc].
    + intros (nf & Hin & Hc). apply elem_of_cons in Hin as [-> | Hin].
      * left. simpl in Hc. rewrite Eb in Hc. exact Hc.
      * right. eauto.
Qed.

Lemma below_Field a mongo_path path c : ~ below (Field a) mongo_path path c.
Proof. intros H. inversion H. Qed.

Lemma map_to_field_visits f :
  has_map_to_field f = true ->
  forall mongo_path path,
    (resolved f = true ->
     (map_to_field f mongo_path path).2 = None /\
     length (map_to_field f mongo_path path).1 = fields_below f /\
     forall c, c ∈ (map_to_field f mongo_path path).1 <->
               below f mongo_path path c) /\
    (resolved f = false -> (map_to_field f mongo_path path).2 <> None).
Proof.
  induction f as [a | a inner IH | a e | a fields IH] using field_nested_ind;
    intros Hm mp p; simpl in *; try discriminate Hm.
  - destruct (has_map_to_field inner) eqn:Hi.
    + destruct (IH eq_refl mp p) as [IHr IHu].
      destruct (map_to_field inner mp p) as [calls e]. simpl in *. split.
      * intros Hr. destruct (IHr Hr) as (-> & Hlen & Hcalls).
        rewrite Hlen. split; [reflexivity |]. split; [reflexivity |].
        intros c. rewrite elem_of_cons, Hcalls. split.
        -- intros [-> | Hc]; [apply below_inner | now apply below_inner_more].
        -- intros Hc. inversion Hc; subst; auto.
      * exact IHu.
    + destruct inner; try discriminate Hi. simpl. split; [| discriminate].
      intros _. split; [reflexivity |]. split; [reflexivity |].
      intros c. rewrite elem_of_cons. split.
      * intros [-> | Hc]; [apply below_inner | inversion Hc].
      * intros Hc. inversion Hc; subst; [now left |].
        exfalso. eapply below_Field. eassumption.
  - split; [discriminate | intros _; discriminate].
  - split.
    + intros Hr. rewrite forallb_forall in Hr.
      rewrite Forall_forall in IH.
      set (body := fun (name : string) (f : field) =>
                     let '(calls, e) :=
                       if has_map_to_field f
                       then map_to_field f (mp +:+ "." +:+ attribute_or f name)
                              (p +:+ "." +:+ name)
                       else ([], None) in
                     ((mp +:+ "." +:+ attribute_or f name, p +:+ "." +:+ name, f)
                        :: calls, e)).
      repeat match goal with
             | |- context [for_fields ?b fields] =>
                 progress change b with body
             end.
      assert (Hbody : forall n f, (n, f) ∈ fields ->
                (body n f).2 = None /\
                length (body n f).1 = S (fields_below f) /\
                forall c, c ∈ (body n f).1 <->
                  c = (mp +:+ "." +:+ attribute_or f n, p +:+ "." +:+ n, f) \/
                  below f (mp +:+ "." +:+ attribute_or f n) (p +:+ "." +:+ n) c).
      { intros n f Hin. apply list_elem_of_In in Hin as Hin'.
        specialize (Hr _ Hin'). simpl in Hr. subst body. simpl.
        destruct (has_map_to_field f) eqn:Hf.
        - destruct (IH _ Hin Hf (mp +:+ "." +:+ attribute_or f n)
                      (p +:+ "." +:+ n)) as [IHr _].
          simpl in IHr. destruct (map_to_field f _ _) as [calls e].
          destruct (IHr Hr) as (He & Hlen & Hcalls). simpl in *.
          split; [exact He |]. split; [simpl; f_equal; exact Hlen |].
          intros c. rewrite elem_of_cons, Hcalls. reflexivity.
        - destruct f; try discriminate Hf. simpl.
          split; [reflexivity |]. split; [reflexivity |].
          intros c. rewrite elem_of_cons. split.
          + intros [-> | Hc]; [now left | inversion Hc].
          + intros [-> | Hc]; [now left |].
            exfalso. eapply below_Field. eassumption. }
      assert (Hall : Forall (fun nf => (body nf.1 nf.2).2 = None) fields).
      { apply Forall_forall. intros [n f] Hin. exact (proj1 (Hbody n f Hin)). }
      destruct (for_fields_returns body fields Hall) as [Hnone Hlen].
      split; [exact Hnone |]. split.
      * rewrite Hlen. f_equal. apply map_ext_in. intros [n f] Hin.
        apply list_elem_of_In in Hin. exact (proj1 (proj2 (Hbody n f Hin))).
      * intros c. rewrite (for_fields_elem_of body fields Hall). split.
        -- intros ([n f] & Hin & Hc). apply (Hbody n f Hin) in Hc.
           destruct Hc as [-> | Hc];
             [now apply below_field | eapply below_field_more; eassumption].
        -- intros Hc. inversion Hc; subst.
           ++ exists (name, f). split; [assumption |].
              apply (Hbody name f); [assumption | now left].
           ++ exists (name, f). split; [assumption |].
              apply (Hbody name f); [assumption | now right].
    + intros Hr. apply for_fields_raises.
      assert (Hex : Exists (fun nf => resolved nf.2 = false) fields).
      { clear IH. induction fields as [| [n f] fields IHf]; [discriminate |].
        simpl in Hr. apply andb_false_iff in Hr as [Hr | Hr].
        - left. exact Hr.
        - right. exact (IHf Hr). }
      rewrite Exists_exists in Hex. destruct Hex as ([n f] & Hin & Hf).
      apply Exists_exists. exists (n, f). split; [exact Hin |]. simpl in *.
      rewrite Forall_forall in IH.
      destruct (has_map_to_field f) eqn:Hm'.
      * destruct (IH _ Hin Hm' (mp +:+ "." +:+ attribute_or f n)
                    (p +:+ "." +:+ n)) as [_ IHu].
        simpl in IHu. destruct (map_to_field f _ _) as [calls e].
        exact (IHu Hf).
      * destruct f; try discriminate Hm'. discriminate Hf.
Qed.

(** X20: on a schema whose embedded classes nest to a finite depth,
    [BaseSchema.map_to_field] returns exactly when every embedded field,
    at any depth, finds its class in the registry, and then the calls
    [func(mongo_path, path, field)] it has made are exactly the calls
    due: one for every field of the schema, with its name as [path] and
    its [attribute] or else its name as [mongo_path]; one for the inner
    field of every list field, with the paths of the list; one for
    every field of the class of every embedded field, with the name
    added to [path] after a dot and the [attribute] or else the name
    added to [mongo_path]. There are as many calls as fields, those
    below a field without a [map_to_field] method, a dict field among
    them, left out. When some class is not found the traversal
    raises. *)
Theorem map_to_field_visits_every_field (fields : list (string * field)) :
  (forallb (fun nf => resolved nf.2) fields = true ->
   (BaseSchema_map_to_field fields).2 = None /\
   (forall c, c ∈ (BaseSchema_map_to_field fields).1 <-> due fields c) /\
   length (BaseSchema_map_to_field fields).1
   = list_sum (map (fun nf => S (fields_below nf.2)) fields)) /\
  (forallb (fun nf => resolved nf.2) fields = false ->
   (BaseSchema_map_to_field fields).2 <> None).
Proof.
  unfold BaseSchema_map_to_field. split.
  - intros Hr. rewrite forallb_forall in Hr.
    set (body := fun (name : string) (f : field) =>
                   let '(calls, e) :=
                     if has_map_to_field f
                     then map_to_field f (attribute_or f name) name
                     else ([], None) in
                   ((attribute_or f name, name, f) :: calls, e)).
    repeat match goal with
           | |- context [for_fields ?b fields] =>
               progress change b with body
           end.
    assert (Hbody : forall n f, (n, f) ∈ fields ->
              (body n f).2 = None /\
              length (body n f).1 = S (fields_below f) /\
              forall c, c ∈ (body n f).1 <->
                c = (attribute_or f n, n, f) \/
                below f (attribute_or f n) n c).
    { intros n f Hin. apply list_elem_of_In in Hin.
      specialize (Hr _ Hin). simpl in Hr. subst body. simpl.
      destruct (has_map_to_field f) eqn:Hf.
      - destruct (map_to_field_visits f Hf (attribute_or f n) n) as [Hv _].
        destruct (map_to_field f _ _) as [calls e].
        destruct (Hv Hr) as (He & Hlen & Hcalls). simpl in *.
        split; [exact He |]. split; [simpl; f_equal; exact Hlen |].
        intros c. rewrite elem_of_cons, Hcalls. reflexivity.
      - destruct f; try discriminate Hf. simpl.
        split; [reflexivity |]. split; [reflexivity |].
        intros c. rewrite elem_of_cons. split.
        + intros [-> | Hc]; [now left | inversion Hc].
        + intros [-> | Hc]; [now left |].
          exfalso. eapply below_Field. eassumption. }
    assert (Hall : Forall (fun nf => (body nf.1 nf.2).2 = None) fields).
    { apply Forall_forall. intros [n f] Hin. exact (proj1 (Hbody n f Hin)). }
    destruct (for_fields_returns body fields Hall) as [Hnone Hlen].
    split; [exact Hnone |]. split.
    + intros c. rewrite (for_fields_elem_of body fields Hall). split.
      * intros ([n f] & Hin & Hc). apply (Hbody n f Hin) in Hc.
        destruct Hc as [-> | Hc];
          [now apply due_field | eapply due_below; eassumption].
      * intros Hc. inversion Hc; subst.
        -- exists (name, f). split; [assumption |].
           apply (Hbody name f); [assumption | now left].
        -- exists (name, f). split; [assumption |].
           apply (Hbody name f); [assumption | now right].
    + rewrite Hlen. f_equal. apply map_ext_in. intros [n f] Hin.
      apply list_elem_of_In in Hin. exact (proj1 (proj2 (Hbody n f Hin))).
  - intros Hr. apply for_fields_raises.
    assert (Hex : Exists (fun nf => resolved nf.2 = false) fields).
    { induction fields as [| [n f] fields IHf]; [discriminate |].
      simpl in Hr. apply andb_false_iff in Hr as [Hr | Hr].
      - left. exact Hr.
      - right. exact (IHf Hr). }
    rewrite Exists_exists in Hex. destruct Hex as ([n f] & Hin & Hf).
    apply Exists_exists. exists (n, f). split; [exact Hin |]. simpl in *.
    destruct (has_map_to_field f) eqn:Hm.
    + destruct (map_to_field_visits f Hm (attribute_or f n) n) as [_ Hu].
      destruct (map_to_field f _ _) as [calls e]. exact (Hu Hf).
    + destruct f; try discriminate Hm. discriminate Hf.
Qed.

Lemma map_to_field_visits_every_field_of_person :
  (BaseSchema_map_to_field person).2 = None /\
  (forall c, c ∈ (BaseSchema_map_to_field person).1 <-> due person c) /\
  length (BaseSchema_map_to_field person).1 = 8%nat.
Proof.
  destruct (map_to_field_visits_every_field person) as [Hr _].
  exact (Hr eq_refl).
Defined.

End TraversalProperties.

(** ** [EmbeddedField._validate_missing]: the errors collected *)

Module MissingValidationProperties.
Import Embedded MissingValidation.

Section Collect.
Variable get_sub_value : string -> pyval.

(** The messages of the [ValidationError] the check of the field
    [name] raises on the sub-value it is given, if the sub-value is
    there and the check raises one. *)
Local Abbreviation failure name _validate_missing :=
  (match get_sub_value name with
   | PMissing => None
   | sub_value =>
       match _validate_missing sub_value with
       | Raise (ValidationError m) => Some m
       | _ => None
       end
   end).

Lemma sub_errors_lookup (fields : list (string * (pyval -> result unit)))
    (errors : gmap string messages) :
  NoDup fields.*1 ->
  (forall name, name ∈ fields.*1 -> errors !! name = None) ->
  Forall (fun nf =>
            get_sub_value nf.1 = PMissing \/
            match nf.2 (get_sub_value nf.1) with
            | Ok _ => True
            | Raise e => is_ValidationError e = true
            end) fields ->
  exists errors',
    sub_errors get_sub_value fields errors = Ok errors' /\
    forall name,
      errors' !! name =
      match (list_to_map fields : gmap string (pyval -> result unit)) !! name with
      | Some _validate_missing =>
          match failure name _validate_missing with
          | Some m => Some m
          | None => errors !! name
          end
      | None => errors !! name
      end.
Proof.
  intros Hnd Hnew Hall. revert errors Hnew.
  induction Hall as [| [n v] fields Hv _ IH]; intros errors Hnew.
  - exists errors. split; [reflexivity |]. intros name. reflexivity.
  - simpl in Hnd. apply NoDup_cons in Hnd as [Hn Hnd].
    assert (Hstep : forall errors1,
              (errors1 = errors \/
               exists m, failure n v = Some m /\ errors1 = <[n := m]> errors) ->
              failure n v = None -> errors1 = errors) by
      (intros e1 [-> | (m & Hm & _)] Hnone; [reflexivity | congruence]).
    assert (Hgo : forall errors1,
              (errors1 = errors /\ failure n v = None \/
               exists m, failure n v = Some m /\ errors1 = <[n := m]> errors) ->
              exists errors',
                sub_errors get_sub_value fields errors1 = Ok errors' /\
                forall name,
                  errors' !! name =
                  match (<[n := v]> (list_to_map fields)
                         : gmap string (pyval -> result unit)) !! name with
                  | Some _validate_missing =>
                      match failure name _validate_missing with
                      | Some m => Some m
                      | None => errors !! name
                      end
                  | None => errors !! name
                  end).
    { intros errors1 Hcase.
      destruct (IH Hnd errors1) as (errors' & Heq & Hlook).
      { intros name Hin. destruct Hcase as [[-> _] | (m & _ & ->)].
        - apply Hnew. simpl. apply elem_of_cons. now right.
        - rewrite lookup_insert_ne by (intros ->; contradiction).
          apply Hnew. simpl. apply elem_of_cons. now right. }
      exists errors'. split; [exact Heq |]. intros name. rewrite Hlook.
      destruct (decide (name = n)) as [-> | Hne].
      - rewrite lookup_insert_eq.
        rewrite (not_elem_of_list_to_map_1 _ _ Hn).
        destruct Hcase as [[-> ->] | (m & -> & ->)]; [reflexivity |].
        apply lookup_insert_eq.
      - rewrite lookup_insert_ne by congruence.
        destruct Hcase as [[-> _] | (m & _ & ->)]; [reflexivity |].
        rewrite lookup_insert_ne by congruence. reflexivity. }
    cbn [sub_errors list_to_map foldr fst snd] in *. simpl in Hv.
    destruct (get_sub_value n) eqn:Eg;
      try (destruct (v _) as [[] | e] eqn:Er;
           [apply Hgo; left; auto
           | destruct Hv as [Hv | Hv]; [discriminate Hv |];
             destruct e; try discriminate Hv;
             apply Hgo; right; eauto]).
    apply Hgo. left. auto.
Qed.

End Collect.

(** X21: [EmbeddedField._validate_missing] on a record (a [dict]): the
    check of every field of the embedded class is run on the entry the
    record has under its name, the fields the record lacks are skipped,
    and the messages of every check that fails are collected under the
    name of the field in one [ValidationError] raised once the loop is
    over; the call returns exactly when no check fails. A value that is
    [missing] is accepted whatever the fields, and [None] is refused
    with the message of ['null'] before anything else when the field
    does not allow it. *)
Theorem embedded_validate_missing_collects
    (retrieve_embedded_document : pyval -> result EmbCls)
    (null_message : message)
    (schema_fields : EmbCls -> list (string * (pyval -> result unit)))
    (data_get : loc -> string -> pyval)
    (self self' : EmbeddedField) (E : EmbCls) (allow_none : bool)
    (h : heap) (l : loc) (d : gmap string pyval) :
  embedded_document_cls retrieve_embedded_document self = (self', Ok E) ->
  NoDup (schema_fields E).*1 ->
  h !! l = Some d ->
  Forall (fun nf =>
            forall v, d !! nf.1 = Some v ->
              match nf.2 v with
              | Ok _ => True
              | Raise e => is_ValidationError e = true
              end) (schema_fields E) ->
  let validate_missing :=
    EmbeddedField_validate_missing retrieve_embedded_document null_message
      schema_fields data_get self allow_none h in
  (exists errors : gmap string messages,
     (forall name m,
        errors !! name = Some m <->
        exists check v, (name, check) ∈ schema_fields E /\
          d !! name = Some v /\ v <> PMissing /\
          check v = Raise (ValidationError m)) /\
     validate_missing (PDict l)
     = (self', if (size errors =? 0)%nat then Ok tt
               else Raise (ValidationError (MKeyed errors)))) /\
  validate_missing PMissing = (self', Ok tt) /\
  (allow_none = false ->
   validate_missing PNone = (self, Raise (ValidationError_str null_message))).
Proof.
  intros He Hnd Hl Hall validate_missing. subst validate_missing.
  split; [| split].
  - destruct (sub_errors_lookup
                (fun key => default PMissing (default ∅ (h !! l) !! key))
                (schema_fields E) ∅ Hnd ltac:(intros; apply lookup_empty))
      as (errors & Heq & Hlook).
    { rewrite Hl. simpl. eapply Forall_impl; [exact Hall |].
      intros [n check] Hcheck. simpl in *.
      destruct (d !! n) as [v |] eqn:Ed; simpl; [| now left].
      right. apply Hcheck. reflexivity. }
    exists errors. split.
    + intros name m. rewrite Hlook, lookup_empty. rewrite Hl. simpl. split.
      * destruct (list_to_map (schema_fields E) !! name) as [check |] eqn:Ec;
          [| discriminate].
        apply elem_of_list_to_map_2 in Ec.
        destruct (d !! name) as [v |] eqn:Ed; simpl; [| discriminate].
        intros Hm. exists check, v. split; [exact Ec |]. split; [reflexivity |].
        destruct v; try discriminate Hm;
          (split; [discriminate |]);
          destruct (check _) as [[] | []]; try discriminate Hm;
          inversion Hm; reflexivity.
      * intros (check & v & Hin & Hv & Hpresent & Hcheck).
        rewrite (elem_of_list_to_map_1 _ _ _ Hnd Hin), Hv. simpl.
        destruct v; try contradiction; rewrite Hcheck; reflexivity.
    + unfold EmbeddedField_validate_missing. simpl. rewrite He. simpl.
      rewrite Heq. reflexivity.
  - unfold EmbeddedField_validate_missing. simpl. rewrite He. simpl.
    assert (Hskip : forall fields errors,
              sub_errors (fun _ => PMissing) fields errors = Ok errors).
    { induction fields as [| [n c] fields IH]; intros errors; simpl; auto. }
    rewrite Hskip. reflexivity.
  - intros ->. reflexivity.
Qed.

Lemma embedded_validate_missing_collects_null_x :
  exists errors : gmap string messages,
    (forall name m,
       errors !! name = Some m <->
       exists check v, (name, check) ∈ two_fields Parent /\
         record_null_x !! name = Some v /\ v <> PMissing /\
         check v = Raise (ValidationError m)) /\
    EmbeddedField_validate_missing (lookup_embedded emb_registry) null_msg
      two_fields (fun _ _ => PNone) embedded_Parent false
      (heap_with record_null_x) (PDict 1%positive)
    = (mkEmbeddedField (PStr "Parent") (Some Parent),
       if (size errors =? 0)%nat then Ok tt
       else Raise (ValidationError (MKeyed errors))).
Proof.
  destruct (embedded_validate_missing_collects (lookup_embedded emb_registry)
              null_msg two_fields (fun _ _ => PNone) embedded_Parent
              (mkEmbeddedField (PStr "Parent") (Some Parent)) Parent false
              (heap_with record_null_x) 1%positive record_null_x)
    as [Hdict _].
  - reflexivity.
  - repeat constructor; intros Hin;
      repeat (apply elem_of_cons in Hin as [Hin | Hin]; [discriminate Hin |]);
      inversion Hin.
  - reflexivity.
  - repeat constructor; intros v _; simpl; unfold not_none;
      destruct v; simpl; auto.
  - exact Hdict.
Defined.

(** On the sample record: the field [x] is null, the field [y] is
    absent and skipped. *)
Example validate_missing_null_x :
  snd (EmbeddedField_validate_missing (lookup_embedded emb_registry) null_msg
         two_fields (fun _ _ => PNone) embedded_Parent false
         (heap_with record_null_x) (PDict 1%positive))
  = Raise (ValidationError (MKeyed {["x" := MList [null_msg]]})).
Proof. vm_compute. reflexivity. Qed.

End MissingValidationProperties.
